(** * ScrapeServ gateway: a shallow embedding of [scraper/app.py]

    The development follows the Flask module function by function:
    string helpers, the URL safety validator ([is_private_ip],
    [url_is_safe]), the image stacker ([stack_images_vertically]), the
    request handler ([scrape]) and the multipart generator ([stream]).

    A Python [str] is modelled as a [string] whose characters are the code
    points 0 to 255 (text with a code point above 255 is outside the
    model), [bytes] as a [string] of bytes (a chunk that the generator
    encodes before it yields it is recorded as its text), Python integers
    as [Z],
    dictionaries whose iteration order is observable as association lists,
    the temporary directory as a [gmap] from paths to file contents.
    Effects (exceptions, the file system, stderr, the chunks yielded to the
    HTTP layer, DNS look-ups, worker dispatch) are threaded through a small
    state-and-exception monad whose state carries a chronological trace. *)

From Stdlib Require Import ZArith Ascii String List Lia.
From stdpp Require Import base option list gmap strings pretty.

Local Open Scope Z_scope.

(** ** Characters the source writes with escapes *)

Module Chars.

Definition CR : ascii := "013"%char.
Definition LF : ascii := "010"%char.
Definition DQUOTE : ascii := "034"%char.

Definition CRLF : string := String CR (String LF EmptyString).
Definition dq : string := String DQUOTE EmptyString.

End Chars.

(** ** The [str] methods used by the module *)

Module PyStr.

Definition code (c : ascii) : N := N_of_ascii c.

(** [str.lower] on the code points below 256: the capitals are A to Z
    (65-90) and the accented capitals 192-214 and 216-222 (215 is the
    multiplication sign); each has its small letter 32 places on. *)
Definition is_capital (c : ascii) : bool :=
  (((65 <=? code c) && (code c <=? 90)) ||
   ((192 <=? code c) && (code c <=? 214)) ||
   ((216 <=? code c) && (code c <=? 222)))%N.

Definition lower_char (c : ascii) : ascii :=
  if is_capital c then ascii_of_N (code c + 32) else c.

(** [str.upper], for the small letters whose capital is below 256; the
    module applies it to the image format only. *)
Definition is_small (c : ascii) : bool :=
  (((97 <=? code c) && (code c <=? 122)) ||
   ((224 <=? code c) && (code c <=? 246)) ||
   ((248 <=? code c) && (code c <=? 254)))%N.

Definition upper_char (c : ascii) : ascii :=
  if is_small c then ascii_of_N (code c - 32) else c.

Fixpoint map_chars (f : ascii -> ascii) (s : string) : string :=
  match s with
  | EmptyString => EmptyString
  | String c s' => String (f c) (map_chars f s')
  end.

Definition lower : string -> string := map_chars lower_char.
Definition upper : string -> string := map_chars upper_char.

(** The code points below 256 for which [str.isspace] holds, which are
    those [str.strip] removes: 9-13, 28-32, next line (133) and the
    no-break space (160). *)
Definition is_space (c : ascii) : bool :=
  (((9 <=? code c) && (code c <=? 13)) ||
   ((28 <=? code c) && (code c <=? 32)) ||
   (code c =? 133) || (code c =? 160))%N.

Fixpoint lstrip (s : string) : string :=
  match s with
  | EmptyString => EmptyString
  | String c s' => if is_space c then lstrip s' else s
  end.

Fixpoint rev_onto (s acc : string) : string :=
  match s with
  | EmptyString => acc
  | String c s' => rev_onto s' (String c acc)
  end.

Definition rev (s : string) : string := rev_onto s EmptyString.

Definition rstrip (s : string) : string := rev (lstrip (rev s)).

(** [s.strip()] *)
Definition strip (s : string) : string := rstrip (lstrip s).

(** [s.split(sep)] for a one-character separator: never empty. *)
Fixpoint split (sep : ascii) (s : string) : list string :=
  match s with
  | EmptyString => [EmptyString]
  | String c s' =>
      if Ascii.eqb c sep then EmptyString :: split sep s'
      else match split sep s' with
           | [] => [String c EmptyString]
           | h :: t => String c h :: t
           end
  end.

(** [s.startswith(p)] *)
Fixpoint startswith (p s : string) : bool :=
  match p, s with
  | EmptyString, _ => true
  | String a p', String b s' => Ascii.eqb a b && startswith p' s'
  | String _ _, EmptyString => false
  end.

(** [sep.join(parts)] *)
Fixpoint join (sep : string) (parts : list string) : string :=
  match parts with
  | [] => EmptyString
  | [p] => p
  | p :: rest => p +:+ sep +:+ join sep rest
  end.

(** Truthiness of a string ([if s:] / [if not s:]). *)
Definition nonempty (s : string) : bool :=
  match s with EmptyString => false | String _ _ => true end.

(** Truthiness of a value that is a string or [None]. *)
Definition truthy (o : option string) : bool :=
  match o with Some s => nonempty s | None => false end.

(** Rendering of an [int] inside an f-string. *)
Definition of_int (z : Z) : string := pretty z.

End PyStr.

(** ** Exceptions, the observable world and the effect monad *)

Inductive exn : Type :=
  | ValueError (msg : string)
  | gaierror (host : string)
  | UnicodeError (host : string)
  | KeyError (key : string)
  | IndexError
  | FileNotFoundError (path : string)
  | PermissionError (path : string)
  | FileExistsError
  | UnidentifiedImageError (path : string)
  | WorkerError (msg : string).

Definition exn_str (e : exn) : string :=
  match e with
  | ValueError m => m
  | gaierror h => "[Errno -2] Name or service not known"
  | UnicodeError h => "label empty or too long"
  | KeyError k => "'" +:+ k +:+ "'"
  | IndexError => "list index out of range"
  | FileNotFoundError p => "[Errno 2] No such file or directory: '" +:+ p +:+ "'"
  | PermissionError p => "[Errno 13] Permission denied: '" +:+ p +:+ "'"
  | FileExistsError => "[Errno 17] No usable temporary file name found"
  | UnidentifiedImageError p => "cannot identify image file '" +:+ p +:+ "'"
  | WorkerError m => m
  end.

(** What the server does to its surroundings, in the order it does it. *)
Inductive event : Type :=
  | Resolve (host : string)                 (* socket.getaddrinfo *)
  | Dispatch (url : string) (wait : Z) (image_format : string)
             (n_screenshots : Z) (browser_dim : list Z)   (* scrape_task *)
  | Created (path : string)                 (* tempfile.mkstemp *)
  | Saved (path : string)                   (* Image.save *)
  | Unlinked (path : string)                (* a successful os.unlink *)
  | Yielded (chunk : string)                (* bytes handed to the HTTP layer *)
  | Stderr (msg : string).                  (* print(..., file=sys.stderr) *)

Record world : Type := World {
  fs : gmap string string;       (* path -> bytes of the file *)
  undeletable : gset string;     (* paths on which os.unlink is refused *)
  tmp_names : list string;       (* names tempfile will draw, in order *)
  trace : list event;            (* oldest event first *)
}.

Definition M (A : Type) : Type := world -> (exn + A) * world.

Definition raise {A} (e : exn) : M A := fun w => (inl e, w).

#[global] Instance M_ret : MRet M := fun A a w => (inr a, w).

#[global] Instance M_bind : MBind M := fun A B k m w =>
  match m w with
  | (inr a, w') => k a w'
  | (inl e, w') => (inl e, w')
  end.

Definition ret {A} (a : A) : M A := mret a.

(** A library call that either returns or raises. *)
Definition lift {A} (r : exn + A) : M A :=
  match r with inl e => raise e | inr a => ret a end.

(** [try: body  except <those e with sel e>: handler e] *)
Definition try_except {A} (sel : exn -> bool) (body : M A) (handler : exn -> M A) : M A :=
  fun w => match body w with
           | (inr a, w') => (inr a, w')
           | (inl e, w') => if sel e then handler e w' else (inl e, w')
           end.

(** [try: body  finally: final] (the block itself yields no value). *)
Definition try_finally (body : M unit) (final : M unit) : M unit :=
  fun w => match body w with
           | (inr tt, w') => final w'
           | (inl e, w') =>
               match final w' with
               | (inr tt, w'') => (inl e, w'')
               | (inl e', w'') => (inl e', w'')
               end
           end.

(** [except Exception]: every member of [exn] derives from it. *)
Definition any_Exception (e : exn) : bool := true.

Definition is_gaierror (e : exn) : bool :=
  match e with gaierror _ => true | _ => false end.

Definition emit (e : event) : M unit :=
  fun w => (inr tt, World (fs w) (undeletable w) (tmp_names w) (trace w ++ [e])).

Definition print_stderr (msg : string) : M unit := emit (Stderr msg).

Definition get_fs : M (gmap string string) := fun w => (inr (fs w), w).

Definition set_fs (f : gmap string string) : M unit :=
  fun w => (inr tt, World f (undeletable w) (tmp_names w) (trace w)).

(** [for x in xs: body x] *)
Fixpoint for_each {A} (xs : list A) (body : A -> M unit) : M unit :=
  match xs with
  | [] => ret tt
  | x :: rest => body x;; for_each rest body
  end.

(** ** URL safety validator *)

(** The fields of [urllib.parse.ParseResult] the validator reads. *)
Record ParseResult : Type := {
  scheme : string;
  netloc : string;
  path : string;
}.

(** One entry of [socket.getaddrinfo]:
    [(family, type, proto, canonname, sockaddr)], with [sockaddr] starting
    with the address string and the port. *)
Record addrinfo : Type := {
  ai_family : Z;
  ai_socktype : Z;
  ai_proto : Z;
  ai_canonname : string;
  ai_sockaddr : string * Z;
}.

(** The standard-library calls of the validator: [urlparse],
    [socket.getaddrinfo] and the [ipaddress] module.  [ip_address] returns
    [None] where Python raises [ValueError]. *)
Class NetLib : Type := {
  urlparse : string -> exn + ParseResult;
  getaddrinfo : string -> exn + list addrinfo;
  IPAddress : Type;
  ip_address : string -> option IPAddress;
  is_loopback : IPAddress -> bool;
  is_private : IPAddress -> bool;
  is_reserved : IPAddress -> bool;
  is_link_local : IPAddress -> bool;
  is_multicast : IPAddress -> bool;
}.

Section UrlSafety.

Context `{NetLib}.

Definition is_private_ip (ip_str : string) : bool :=
  match ip_address ip_str with
  | Some ip_obj =>
      is_loopback ip_obj ||
      is_private ip_obj ||
      is_reserved ip_obj ||
      is_link_local ip_obj ||
      is_multicast ip_obj
  | None => true  (* If it can't parse, treat as potentially unsafe *)
  end.

Definition default_allowed_schemes : gset string :=
  {[ "http"; "https"; "file" ]}.

(** [addrinfo[4][0]] *)
Definition ip_str_of (a : addrinfo) : string := fst (ai_sockaddr a).

(** The loop over the resolved addresses, with its early [return False]. *)
Fixpoint check_addrs (netloc : string) (addrs : list addrinfo) : M bool :=
  match addrs with
  | [] => ret true
  | a :: rest =>
      let ip_str := ip_str_of a in
      if is_private_ip ip_str then
        print_stderr ("URL blocked: IP " +:+ ip_str +:+ " for domain " +:+ netloc
                      +:+ " is private/loopback/link-local.");;
        ret false
      else check_addrs netloc rest
  end.

(** [netloc.split(':')[0]] *)
Definition host_of (netloc : string) : string :=
  match PyStr.split ":" netloc with
  | h :: _ => h
  | [] => EmptyString
  end.

Definition url_is_safe (url : string) (allowed_schemes : option (gset string)) : M bool :=
  let allowed_schemes := default default_allowed_schemes allowed_schemes in
  parsed ← lift (urlparse (PyStr.strip url));
  let scheme := PyStr.lower (scheme parsed) in
  if String.eqb scheme "file" then ret true
  else
    let netloc := host_of (netloc parsed) in
    if negb (bool_decide (scheme ∈ allowed_schemes)) then
      print_stderr ("URL blocked: scheme '" +:+ scheme +:+ "' is not allowed.");;
      ret false
    else
      r ← try_except is_gaierror
             (emit (Resolve netloc);;
              addrs ← lift (getaddrinfo netloc);
              ret (Some addrs))
             (fun _ =>
                print_stderr ("URL blocked: cannot resolve domain " +:+ netloc);;
                ret None);
      match r with
      | None => ret false
      | Some addrs => check_addrs netloc addrs
      end.

End UrlSafety.

(** ** File-system and image primitives *)

(** [os.path.exists(path)] *)
Definition path_exists (path : string) : M bool :=
  f ← get_fs; ret (bool_decide (is_Some (f !! path))).

(** [os.unlink(path)]: refused on a protected path, an error on a missing
    one, otherwise the file is gone and the deletion is recorded. *)
Definition os_unlink (path : string) : M unit :=
  fun w =>
    match fs w !! path with
    | None => (inl (FileNotFoundError path), w)
    | Some _ =>
        if bool_decide (path ∈ undeletable w) then (inl (PermissionError path), w)
        else (inr tt, World (delete path (fs w)) (undeletable w) (tmp_names w)
                            (trace w ++ [Unlinked path]))
    end.

(** [open(path, 'rb')] followed by reading: the bytes of the file. *)
Definition open_rb (path : string) : M string :=
  f ← get_fs;
  match f !! path with
  | Some data => ret data
  | None => raise (FileNotFoundError path)
  end.

(** [tempfile.mkstemp(suffix=...)]: candidate names are tried in turn until
    one can be created exclusively; the file is created empty. *)
Definition tmp_prefix : string := "/tmp/tmp".

Fixpoint draw_name (suffix : string) (names : list string) (f : gmap string string)
  : option (string * list string) :=
  match names with
  | [] => None
  | n :: rest =>
      let p := tmp_prefix +:+ n +:+ suffix in
      match f !! p with
      | None => Some (p, rest)
      | Some _ => draw_name suffix rest f
      end
  end.

Definition mkstemp (suffix : string) : M string :=
  fun w =>
    match draw_name suffix (tmp_names w) (fs w) with
    | None => (inl FileExistsError, w)
    | Some (p, rest) =>
        (inr p, World (<[p := EmptyString]> (fs w)) (undeletable w) rest
                      (trace w ++ [Created p]))
    end.

(** An opened picture, and a canvas made by [Image.new] that remembers
    what was pasted where. *)
Record Image : Type := {
  width : Z;
  height : Z;
  pixels : string;
}.

Record Canvas : Type := {
  mode : string;
  size : Z * Z;
  pasted : list (Image * (Z * Z));
}.

(** The decoding and encoding capability of PIL. *)
Class ImageLib : Type := {
  image_decode : string -> option Image;
  image_encode : Canvas -> string -> exn + string;
}.

Section Stacker.

Context `{ImageLib}.

(** [Image.open(img_file)] *)
Definition Image_open (img_file : string) : M Image :=
  f ← get_fs;
  match f !! img_file with
  | None => raise (FileNotFoundError img_file)
  | Some data =>
      match image_decode data with
      | Some img => ret img
      | None => raise (UnidentifiedImageError img_file)
      end
  end.

(** [[Image.open(img_file) for img_file in image_files]] *)
Fixpoint open_all (image_files : list string) : M (list Image) :=
  match image_files with
  | [] => ret []
  | p :: rest => img ← Image_open p; imgs ← open_all rest; ret (img :: imgs)
  end.

(** [max(...)] and [sum(...)] over a generator of integers. *)
Definition max_of (xs : list Z) : Z :=
  match xs with
  | [] => 0
  | x :: rest => fold_left Z.max rest x
  end.

Definition sum_of (xs : list Z) : Z := fold_left Z.add xs 0.

(** [Image.new(mode, size)] and [canvas.paste(img, box)] *)
Definition Image_new (mode : string) (size : Z * Z) : Canvas :=
  {| mode := mode; size := size; pasted := [] |}.

Definition paste (canvas : Canvas) (img : Image) (box : Z * Z) : Canvas :=
  {| mode := mode canvas; size := size canvas;
     pasted := pasted canvas ++ [(img, box)] |}.

(** The paste loop, [y_offset] being its running variable. *)
Fixpoint paste_below (stacked_image : Canvas) (y_offset : Z) (images : list Image)
  : Canvas :=
  match images with
  | [] => stacked_image
  | img :: rest =>
      paste_below (paste stacked_image img (0, y_offset)) (y_offset + height img) rest
  end.

(** Lines 123-137: the canvas computed from the opened images. *)
Definition stacked_canvas (images : list Image) : Canvas :=
  let max_width := max_of (map width images) in
  let total_height := sum_of (map height images) in
  let stacked_image := Image_new "RGB" (max_width, total_height) in
  paste_below stacked_image 0 images.

(** [stacked_image.save(output_path, format=fmt)] *)
Definition Image_save (canvas : Canvas) (output_path : string) (fmt : string) : M unit :=
  data ← lift (image_encode canvas fmt);
  f ← get_fs;
  set_fs (<[output_path := data]> f);;
  emit (Saved output_path).

Definition stack_images_vertically (image_files : list string) (output_format : string)
  : M (option string) :=
  match image_files with
  | [] => ret None
  | [only] => ret (Some only)
  | _ =>
      images ← open_all image_files;
      let stacked_image := stacked_canvas images in
      output_path ← mkstemp ("." +:+ output_format);
      Image_save stacked_image output_path (PyStr.upper output_format);;
      ret (Some output_path)
  end.

End Stacker.

(** ** Dictionaries with observable order, and header look-up *)

Definition dict : Type := list (string * string).

Fixpoint dict_set (k v : string) (d : dict) : dict :=
  match d with
  | [] => [(k, v)]
  | (k', v') :: rest =>
      if String.eqb k k' then (k, v) :: rest else (k', v') :: dict_set k v rest
  end.

Fixpoint dict_get (k : string) (d : dict) : option string :=
  match d with
  | [] => None
  | (k', v) :: rest => if String.eqb k k' then Some v else dict_get k rest
  end.

(** [d[k]] *)
Definition dict_item (k : string) (d : dict) : M string :=
  match dict_get k d with
  | Some v => ret v
  | None => raise (KeyError k)
  end.

(** [{str(k).lower(): v for k, v in headers.items()}] *)
Definition lowercase_keys (headers : dict) : dict :=
  fold_left (fun d kv => dict_set (PyStr.lower (fst kv)) (snd kv) d) headers [].

(** [request.headers.get(name)]: header names compare case-insensitively. *)
Fixpoint header_get (name : string) (hs : list (string * string)) : option string :=
  match hs with
  | [] => None
  | (k, v) :: rest =>
      if String.eqb (PyStr.lower k) (PyStr.lower name) then Some v
      else header_get name rest
  end.

(** [xs[i]] on a list *)
Definition list_item {A} (xs : list A) (i : nat) : M A :=
  match xs !! i with
  | Some x => ret x
  | None => raise IndexError
  end.

(** ** The request handler *)

(** What [worker.py] exports: the bounds, the defaults and the task. The
    task may create files; it reports a result tuple or raises. *)
Record ScrapeResult : Type := {
  status : Z;
  headers : dict;
  content_file : option string;
  screenshot_files : list string;
  metadata : string;
}.

Class WorkerModule : Type := {
  MAX_BROWSER_DIM : Z * Z;
  MIN_BROWSER_DIM : Z * Z;
  DEFAULT_BROWSER_DIM : list Z;
  DEFAULT_WAIT : Z;
  MAX_SCREENSHOTS : Z;
  MAX_WAIT : Z;
  DEFAULT_SCREENSHOTS : Z;
  scrape_task : string -> Z -> string -> Z -> list Z ->
                gmap string string -> (exn + ScrapeResult) * gmap string string;
}.

(** The process environment and the remaining library calls. *)
Class Runtime : Type := {
  SCRAPER_API_KEYS : list string;
  json_dumps : Z -> dict -> string -> string;
  guess_all_extensions : string -> list string;
}.

(** The variables the generator [stream] closes over. *)
Record StreamClosure : Type := {
  cl_boundary : string;
  cl_status : Z;
  cl_headers : dict;
  cl_metadata : string;
  cl_content_file : string;
  cl_stacked_screenshot : option string;
  cl_image_format : string;
  cl_screenshot_files : list string;
  cl_cleanup_files : list string;
}.

Inductive Response : Type :=
  | JsonError (code : Z) (error : string)
  | Streamed (code : Z) (mimetype : string) (body : StreamClosure).

Definition response_code (r : Response) : Z :=
  match r with JsonError c _ => c | Streamed c _ _ => c end.

(** The JSON body and headers of a request, as the handler reads them. *)
Record Request : Type := {
  req_headers : list (string * string);
  json_url : option string;
  json_wait : option Z;
  json_max_screenshots : option Z;
  json_browser_dim : option (list Z);
}.

(** [pair[i]] for [i] in [0, 1] *)
Definition axis (i : nat) (p : Z * Z) : Z :=
  match i with O => fst p | _ => snd p end.

Definition accepted_formats : dict :=
  [ ("image/webp", "webp");
    ("image/png", "png");
    ("image/jpeg", "jpeg");
    ("image/*", "jpeg");
    ("*/*", "jpeg") ].

Definition boundary_literal : string := "Boundary712sAM12MVaJff23NXJ".

Section Handler.

Context `{NetLib} `{ImageLib} `{WorkerModule} `{Runtime}.

(** Includes dot *)
Definition get_ext_from_content_type (content_type : string) : string :=
  let mime_type :=
    PyStr.strip (match PyStr.split ";" content_type with
                 | h :: _ => h | [] => EmptyString end) in
  let extensions := guess_all_extensions mime_type in
  match extensions with
  | e :: _ => e
  | [] => EmptyString
  end.

(** Lines 151-161. [Some r]: the handler returns [r] at once. *)
Definition check_authorization (req_headers : list (string * string))
  : M (option Response) :=
  if (0 <? length SCRAPER_API_KEYS)%nat then
    match header_get "Authorization" req_headers with
    | None => ret (Some (JsonError 401 "Authorization header is missing"))
    | Some auth_header =>
        if negb (PyStr.startswith "Bearer " auth_header) then
          ret (Some (JsonError 401 "Invalid authorization header format"))
        else
          user_key ← list_item (PyStr.split " " auth_header) 1;
          if negb (bool_decide (user_key ∈ SCRAPER_API_KEYS)) then
            ret (Some (JsonError 401 "Invalid API key"))
          else ret None
    end
  else ret None.

(** Lines 179-183: the loop over [enumerate(['width', 'height'])]. *)
Fixpoint check_browser_dim (axes : list (nat * string)) (browser_dim : list Z)
  : M (option Response) :=
  match axes with
  | [] => ret None
  | (i, name) :: rest =>
      d ← list_item browser_dim i;
      if (d >? axis i MAX_BROWSER_DIM) || (d <? axis i MIN_BROWSER_DIM) then
        ret (Some (JsonError 400
          ("Value " +:+ PyStr.of_int d +:+ " for browser " +:+ name
           +:+ " is unacceptable; must be between "
           +:+ PyStr.of_int (axis i MIN_BROWSER_DIM) +:+ " and "
           +:+ PyStr.of_int (axis i MAX_BROWSER_DIM))))
      else check_browser_dim rest browser_dim
  end.

(** The values a request leaves the validation with. *)
Record Validated : Type := {
  v_url : string;
  v_wait : Z;
  v_n_screenshots : Z;
  v_browser_dim : list Z;
}.

(** Lines 163-188: [inl r] where the handler returns [r], otherwise the
    values read from the body. *)
Definition validate_request (req : Request) : M (Response + Validated) :=
  let url := json_url req in
  if negb (PyStr.truthy url) then ret (inl (JsonError 400 "No URL provided")) else
  let url := default EmptyString url in
  safe ← url_is_safe url None;
  if negb safe then ret (inl (JsonError 400 "URL was judged to be unsafe")) else
  let wait := default DEFAULT_WAIT (json_wait req) in
  let n_screenshots := default DEFAULT_SCREENSHOTS (json_max_screenshots req) in
  let browser_dim := default DEFAULT_BROWSER_DIM (json_browser_dim req) in
  if (wait <? 0) || (wait >? MAX_WAIT) then
    ret (inl (JsonError 400
      ("Value " +:+ PyStr.of_int wait +:+ " for " +:+ Chars.dq +:+ "wait" +:+ Chars.dq
       +:+ " is unacceptable; must be between 0 and " +:+ PyStr.of_int MAX_WAIT)))
  else
  bad_dim ← check_browser_dim [(0%nat, "width"); (1%nat, "height")] browser_dim;
  match bad_dim with
  | Some r => ret (inl r)
  | None =>
      if n_screenshots >? MAX_SCREENSHOTS then
        ret (inl (JsonError 400
          ("Value " +:+ PyStr.of_int n_screenshots
           +:+ " for max_screenshots is unacceptable; must be below "
           +:+ PyStr.of_int MAX_SCREENSHOTS)))
      else
        ret (inr {| v_url := url; v_wait := wait;
                    v_n_screenshots := n_screenshots;
                    v_browser_dim := browser_dim |})
  end.

(** Lines 190-205: the image format chosen from the Accept header. *)
Definition negotiate_format (req_headers : list (string * string))
  : Response + string :=
  let accept_header := default "image/jpeg" (header_get "Accept" req_headers) in
  let image_format := dict_get accept_header accepted_formats in
  if negb (PyStr.truthy image_format) then
    let accepted_formats_list := PyStr.join ", " (map fst accepted_formats) in
    inl (JsonError 406
      ("Unsupported image format in Accept header (" +:+ accept_header
       +:+ "). Supported Accept header values are: " +:+ accepted_formats_list))
  else inr (default EmptyString image_format).

(** Lines 209-211: the call into the worker pool. *)
Definition run_scrape_task (url : string) (wait : Z) (image_format : string)
    (n_screenshots : Z) (browser_dim : list Z) : M ScrapeResult :=
  emit (Dispatch url wait image_format n_screenshots browser_dim);;
  f ← get_fs;
  let '(r, f') := scrape_task url wait image_format n_screenshots browser_dim f in
  set_fs f';;
  lift r.

(** Lines 207-217: the bounded wait for the worker, any exception caught
    and turned into the coarse failure response. *)
Definition dispatch (v : Validated) (image_format : string)
  : M (Response + ScrapeResult * dict) :=
  try_except any_Exception
    (res ← run_scrape_task (v_url v) (v_wait v) image_format
                           (v_n_screenshots v) (v_browser_dim v);
     ret (inr (res, lowercase_keys (headers res))))
    (fun e =>
       print_stderr ("Exception raised from scraping process: " +:+ exn_str e);;
       ret (inl (JsonError 500 "Scraping process failed"))).

(** Lines 219-306: stacking and the response object. *)
Definition assemble (image_format : string) (res : ScrapeResult) (headers : dict)
  : M Response :=
  let content_file := content_file res in
  let screenshot_files := screenshot_files res in
  let successful := PyStr.truthy content_file in
  if successful then
    (* Join screenshots into a single image *)
    stacked_screenshot ←
      match screenshot_files with
      | [] => ret None
      | _ => stack_images_vertically screenshot_files image_format
      end;
    let boundary := boundary_literal in
    (* Store file paths for cleanup in the response object *)
    let cleanup_files :=
      (if PyStr.truthy content_file then [default EmptyString content_file] else [])
      ++ (if PyStr.truthy stacked_screenshot
          then [default EmptyString stacked_screenshot] else []) in
    (* Don't add screenshot_files to cleanup at this point *)
    ret (Streamed 200 ("multipart/mixed; boundary=" +:+ boundary)
           {| cl_boundary := boundary;
              cl_status := status res;
              cl_headers := headers;
              cl_metadata := metadata res;
              cl_content_file := default EmptyString content_file;
              cl_stacked_screenshot := stacked_screenshot;
              cl_image_format := image_format;
              cl_screenshot_files := screenshot_files;
              cl_cleanup_files := cleanup_files |})
  else
    ret (JsonError 500 "This is a generic error message; sorry about that.").

(** Lines 207-306. *)
Definition respond (v : Validated) (image_format : string) : M Response :=
  r ← dispatch v image_format;
  match r with
  | inl failed => ret failed
  | inr (res, headers) => assemble image_format res headers
  end.

Definition scrape (req : Request) : M Response :=
  denied ← check_authorization (req_headers req);
  match denied with
  | Some r => ret r
  | None =>
      checked ← validate_request req;
      match checked with
      | inl r => ret r
      | inr v =>
          match negotiate_format (req_headers req) with
          | inl r => ret r
          | inr image_format => respond v image_format
          end
      end
  end.

End Handler.

(** ** The multipart generator *)

Fixpoint take_bytes (n : nat) (s : string) : string :=
  match n, s with
  | S n', String c s' => String c (take_bytes n' s')
  | _, _ => EmptyString
  end.

Fixpoint drop_bytes (n : nat) (s : string) : string :=
  match n, s with
  | S n', String _ s' => drop_bytes n' s'
  | _, _ => s
  end.

Definition CHUNK : nat := 4096.

(** [while chunk := content.read(4096): yield chunk], as the list of the
    chunks read; [fuel] bounds the number of reads. *)
Fixpoint read_chunks (fuel : nat) (rest : string) : list string :=
  match fuel with
  | O => []
  | S fuel' =>
      let chunk := take_bytes CHUNK rest in
      if PyStr.nonempty chunk then chunk :: read_chunks fuel' (drop_bytes CHUNK rest)
      else []
  end.

(** [yield chunk] *)
Definition yield (chunk : string) : M unit := emit (Yielded chunk).

(** [with open(path, 'rb') as content: while chunk := ...: yield chunk] *)
Definition yield_file (path : string) : M unit :=
  data ← open_rb path;
  for_each (read_chunks (S (String.length data)) data) yield.

(** [if os.path.exists(file_path): os.unlink(file_path)] *)
Definition unlink_if_exists (file_path : string) : M unit :=
  there ← path_exists file_path;
  if (there : bool) then os_unlink file_path else ret tt.

(** Lines 289-293: one step of the cleanup, its failure logged and dropped. *)
Definition guarded_unlink (file_path : string) : M unit :=
  try_except any_Exception
    (unlink_if_exists file_path)
    (fun e => print_stderr ("Error cleaning up file " +:+ file_path +:+ ": "
                            +:+ exn_str e)).

Section Stream.

Context `{Runtime}.

Definition content_disposition (filename : string) : string :=
  "Content-Disposition: attachment; name=" +:+ Chars.dq +:+ filename +:+ Chars.dq
  +:+ "; filename=" +:+ Chars.dq +:+ filename +:+ Chars.dq +:+ Chars.CRLF.

(** Lines 240-282: the body of the [try]. *)
Definition stream_body (c : StreamClosure) : M unit :=
  let boundary := cl_boundary c in
  (* Start with headers and status as json *)
  let filename := "info.json" in
  yield ("--" +:+ boundary +:+ Chars.CRLF
         +:+ "Content-Type: application/json" +:+ Chars.CRLF
         +:+ content_disposition filename +:+ Chars.CRLF);;
  yield (json_dumps (cl_status c) (cl_headers c) (cl_metadata c));;
  (* Main content (HTML/other) *)
  content_type ← dict_item "content-type" (cl_headers c);
  let ext := get_ext_from_content_type content_type in
  let filename := "main" +:+ ext in
  yield (Chars.CRLF +:+ "--" +:+ boundary +:+ Chars.CRLF
         +:+ content_disposition filename
         +:+ "Content-Transfer-Encoding: binary" +:+ Chars.CRLF
         +:+ "Content-Type: " +:+ content_type +:+ Chars.CRLF +:+ Chars.CRLF);;
  yield_file (cl_content_file c);;
  (* Combined screenshot (one file instead of many) *)
  (if PyStr.truthy (cl_stacked_screenshot c) then
     let filename := "screenshot." +:+ cl_image_format c in
     yield (Chars.CRLF +:+ "--" +:+ boundary +:+ Chars.CRLF
            +:+ content_disposition filename
            +:+ "Content-Transfer-Encoding: binary" +:+ Chars.CRLF
            +:+ "Content-Type: image/" +:+ cl_image_format c
            +:+ Chars.CRLF +:+ Chars.CRLF);;
     yield_file (default EmptyString (cl_stacked_screenshot c))
   else ret tt);;
  (* Final boundary *)
  yield (Chars.CRLF +:+ "--" +:+ boundary +:+ "--" +:+ Chars.CRLF);;
  (* After streaming is complete, clean up the original screenshots *)
  for_each (cl_screenshot_files c) unlink_if_exists.

(** Lines 286-293: the [finally] block. *)
Definition stream_cleanup (c : StreamClosure) : M unit :=
  for_each (cl_cleanup_files c) guarded_unlink.

Definition stream (c : StreamClosure) : M unit :=
  try_finally
    (try_except any_Exception
       (stream_body c)
       (fun e => print_stderr ("Error during streaming: " +:+ exn_str e)))
    (stream_cleanup c).

End Stream.

(** ** The generator as a program

    [stream] iterates the generator to its end.  The HTTP layer may
    instead stop asking for chunks and call [close()] (a client that
    disconnects), which raises GeneratorExit at the [yield] the generator
    is suspended at.  To say where that is, the body of the [try] is
    written once more with its yields kept apart from the statements
    between them. *)

Inductive Gen (A : Type) : Type :=
  | GRet (a : A)                                  (* the body is at its end *)
  | GYield (chunk : string) (next : Gen A)        (* yield chunk, then next *)
  | GRun {X : Type} (m : M X) (k : X -> Gen A).   (* statements without a yield *)

Arguments GRet {A} a.
Arguments GYield {A} chunk next.
Arguments GRun {A X} m k.

Fixpoint gbind {A B} (g : Gen A) (k : A -> Gen B) : Gen B :=
  match g with
  | GRet a => k a
  | GYield chunk next => GYield chunk (gbind next k)
  | GRun m h => GRun m (fun x => gbind (h x) k)
  end.

#[global] Instance Gen_ret : MRet Gen := fun A a => GRet a.

#[global] Instance Gen_bind : MBind Gen := fun A B k g => gbind g k.

(** [yield chunk], and statements of [M] inside a generator. *)
Definition gyield (chunk : string) : Gen unit := GYield chunk (GRet tt).

Definition grun {X} (m : M X) : Gen X := GRun m GRet.

(** [while chunk := content.read(4096): yield chunk] *)
Fixpoint gyield_each (chunks : list string) : Gen unit :=
  match chunks with
  | [] => GRet tt
  | chunk :: rest => gyield chunk;; gyield_each rest
  end.

(** [with open(path, 'rb') as content: while chunk := ...: yield chunk] *)
Definition gyield_file (path : string) : Gen unit :=
  data ← grun (open_rb path);
  gyield_each (read_chunks (S (String.length data)) data).

(** How a generator body is left: it returns, it raises an exception, or
    GeneratorExit is raised in it by [close()]. *)
Inductive exit (A : Type) : Type :=
  | Returned (a : A)
  | Raised (e : exn)
  | GeneratorExit.

Arguments Returned {A} a.
Arguments Raised {A} e.
Arguments GeneratorExit {A}.

(** The body iterated to its end: every [yield] hands its chunk over and
    goes on. *)
Fixpoint drain {A} (g : Gen A) : M A :=
  match g with
  | GRet a => ret a
  | GYield chunk next => yield chunk;; drain next
  | GRun m k => x ← m; drain (k x)
  end.

(** The consumer takes one chunk and [more] further chunks, then calls
    [close()]: the body runs up to the last of these yields, where
    GeneratorExit is raised. *)
Fixpoint closed_after {A} (more : nat) (g : Gen A) (w : world) : exit A * world :=
  match g with
  | GRet a => (Returned a, w)
  | GYield chunk next =>
      let w' := snd (yield chunk w) in
      match more with
      | O => (GeneratorExit, w')
      | S more' => closed_after more' next w'
      end
  | GRun m k =>
      match m w with
      | (inr x, w') => closed_after more (k x) w'
      | (inl e, w') => (Raised e, w')
      end
  end.

Section StreamProgram.

Context `{Runtime}.

(** Lines 240-282. *)
Definition stream_program (c : StreamClosure) : Gen unit :=
  let boundary := cl_boundary c in
  (* Start with headers and status as json *)
  let filename := "info.json" in
  gyield ("--" +:+ boundary +:+ Chars.CRLF
          +:+ "Content-Type: application/json" +:+ Chars.CRLF
          +:+ content_disposition filename +:+ Chars.CRLF);;
  gyield (json_dumps (cl_status c) (cl_headers c) (cl_metadata c));;
  (* Main content (HTML/other) *)
  content_type ← grun (dict_item "content-type" (cl_headers c));
  let ext := get_ext_from_content_type content_type in
  let filename := "main" +:+ ext in
  gyield (Chars.CRLF +:+ "--" +:+ boundary +:+ Chars.CRLF
          +:+ content_disposition filename
          +:+ "Content-Transfer-Encoding: binary" +:+ Chars.CRLF
          +:+ "Content-Type: " +:+ content_type +:+ Chars.CRLF +:+ Chars.CRLF);;
  gyield_file (cl_content_file c);;
  (* Combined screenshot (one file instead of many) *)
  (if PyStr.truthy (cl_stacked_screenshot c) then
     let filename := "screenshot." +:+ cl_image_format c in
     gyield (Chars.CRLF +:+ "--" +:+ boundary +:+ Chars.CRLF
             +:+ content_disposition filename
             +:+ "Content-Transfer-Encoding: binary" +:+ Chars.CRLF
             +:+ "Content-Type: image/" +:+ cl_image_format c
             +:+ Chars.CRLF +:+ Chars.CRLF);;
     gyield_file (default EmptyString (cl_stacked_screenshot c))
   else mret tt);;
  (* Final boundary *)
  gyield (Chars.CRLF +:+ "--" +:+ boundary +:+ "--" +:+ Chars.CRLF);;
  (* After streaming is complete, clean up the original screenshots *)
  grun (for_each (cl_screenshot_files c) unlink_if_exists).

(** Lines 238-293 for a consumer that takes one chunk and [more] further
    chunks and then closes the generator.  GeneratorExit is no
    [Exception]: the [except] clause is passed over, the [finally] block
    runs, and [close()] returns.  A body that returns or raises before
    the last of these yields is handled as in [stream].  (A generator
    closed before its first chunk is asked for has not started: none of
    its statements runs, and there is nothing to model.) *)
Definition stream_closed (more : nat) (c : StreamClosure) : M unit :=
  fun w =>
    match closed_after more (stream_program c) w with
    | (Returned tt, w') => stream_cleanup c w'
    | (Raised e, w') =>
        (print_stderr ("Error during streaming: " +:+ exn_str e);;
         stream_cleanup c) w'
    | (GeneratorExit, w') => stream_cleanup c w'
    end.

End StreamProgram.

(** One request served to the end: the handler runs, then the HTTP layer
    drains the generator of a streamed response. *)
Section Serve.

Context `{NetLib} `{ImageLib} `{WorkerModule} `{Runtime}.

Definition serve (req : Request) : M Response :=
  resp ← scrape req;
  match resp with
  | Streamed _ _ body => stream body;; ret resp
  | JsonError _ _ => ret resp
  end.

End Serve.

(** Projections of a run. *)
Definition result_of {A} (r : (exn + A) * world) : exn + A := fst r.
Definition world_of {A} (r : (exn + A) * world) : world := snd r.

Definition unlinked_paths (t : list event) : list string :=
  omap (fun e => match e with Unlinked p => Some p | _ => None end) t.

Definition yielded_chunks (t : list event) : list string :=
  omap (fun e => match e with Yielded c => Some c | _ => None end) t.

Definition is_resolve (e : event) : bool :=
  match e with Resolve _ => true | _ => false end.

Definition is_dispatch (e : event) : bool :=
  match e with Dispatch _ _ _ _ _ => true | _ => false end.

(** A server that has done nothing yet. *)
Definition fresh_world (files : gmap string string) (protected : gset string)
    (names : list string) : world :=
  World files protected names [].

(** ** A concrete deployment

    Instances of the library interfaces, small enough to evaluate: an
    IPv4-only address classifier, a static name table standing for the
    resolver, a textual image codec and a worker that answers a handful of
    URLs.  They serve to run the handler on concrete requests; the theorems
    below hold for every instance. *)

Module Sample.

Definition digit_of (c : ascii) : option N :=
  let n := PyStr.code c in
  if ((48 <=? n) && (n <=? 57))%N then Some (n - 48)%N else None.

Fixpoint parse_dec_acc (acc : N) (s : string) : option N :=
  match s with
  | EmptyString => Some acc
  | String c s' =>
      match digit_of c with
      | Some d => parse_dec_acc (acc * 10 + d)%N s'
      | None => None
      end
  end.

Definition parse_dec (s : string) : option N :=
  match s with
  | EmptyString => None
  | _ => parse_dec_acc 0%N s
  end.

(** *** Addresses *)

Definition ipv4 : Type := N * N * N * N.

Definition octet (s : string) : option N :=
  match parse_dec s with
  | Some n => if (n <=? 255)%N then Some n else None
  | None => None
  end.

Definition parse_ipv4 (s : string) : option ipv4 :=
  match PyStr.split "." s with
  | [a; b; c; d] =>
      match octet a, octet b, octet c, octet d with
      | Some a, Some b, Some c, Some d => Some (a, b, c, d)
      | _, _, _, _ => None
      end
  | _ => None
  end.

Definition v4_loopback (ip : ipv4) : bool :=
  let '(a, _, _, _) := ip in (a =? 127)%N.

Definition v4_private (ip : ipv4) : bool :=
  let '(a, b, _, _) := ip in
  ((a =? 0) || (a =? 10) || (a =? 127)
   || ((a =? 172) && (16 <=? b) && (b <=? 31))
   || ((a =? 192) && (b =? 168))
   || ((a =? 169) && (b =? 254)))%N.

Definition v4_reserved (ip : ipv4) : bool :=
  let '(a, _, _, _) := ip in (240 <=? a)%N.

Definition v4_link_local (ip : ipv4) : bool :=
  let '(a, b, _, _) := ip in ((a =? 169) && (b =? 254))%N.

Definition v4_multicast (ip : ipv4) : bool :=
  let '(a, _, _, _) := ip in ((224 <=? a) && (a <=? 239))%N.

(** *** URL splitting: [scheme ":" "//" netloc path] *)

Definition is_alpha (c : ascii) : bool :=
  let n := PyStr.code c in
  (((65 <=? n) && (n <=? 90)) || ((97 <=? n) && (n <=? 122)))%N.

Definition is_scheme_char (c : ascii) : bool :=
  let n := PyStr.code c in
  (is_alpha c || ((48 <=? n) && (n <=? 57)) || (n =? 43) || (n =? 45) || (n =? 46))%N.

Fixpoint span (stop : ascii -> bool) (s : string) : string * string :=
  match s with
  | EmptyString => (EmptyString, EmptyString)
  | String c s' =>
      if stop c then (EmptyString, s)
      else let '(pre, post) := span stop s' in (String c pre, post)
  end.

Fixpoint all_chars (p : ascii -> bool) (s : string) : bool :=
  match s with
  | EmptyString => true
  | String c s' => p c && all_chars p s'
  end.

Definition split_scheme (url : string) : string * string :=
  match span (Ascii.eqb ":") url with
  | (String c pre, String _ rest) =>
      if is_alpha c && all_chars is_scheme_char pre
      then (PyStr.lower (String c pre), rest)
      else (EmptyString, url)
  | _ => (EmptyString, url)
  end.

Definition ends_netloc (c : ascii) : bool :=
  Ascii.eqb c "/" || Ascii.eqb c "?" || Ascii.eqb c "#".

Definition sample_urlparse (url : string) : exn + ParseResult :=
  let '(scheme, rest) := split_scheme url in
  match rest with
  | String "/" (String "/" after) =>
      let '(netloc, path) := span ends_netloc after in
      inr {| scheme := scheme; netloc := netloc; path := path |}
  | _ => inr {| scheme := scheme; netloc := EmptyString; path := rest |}
  end.

(** *** Name resolution *)

Definition hosts : dict :=
  [ ("localhost", "127.0.0.1");
    ("example.com", "93.184.216.34");
    ("example.net", "93.184.216.35");
    ("intranet.corp", "10.0.0.5");
    ("printer.lan", "not-an-address") ].

Definition stream_addrinfo (ip : string) : addrinfo :=
  {| ai_family := 2; ai_socktype := 1; ai_proto := 6;
     ai_canonname := EmptyString; ai_sockaddr := (ip, 0) |}.

Definition sample_getaddrinfo (host : string) : exn + list addrinfo :=
  match dict_get host hosts with
  | Some ip => inr [stream_addrinfo ip]
  | None =>
      if String.eqb host "rebind.example"
      then inr [stream_addrinfo "93.184.216.34"; stream_addrinfo "192.168.1.1"]
      else match parse_ipv4 host with
           | Some _ => inr [stream_addrinfo host]
           | None => inl (gaierror host)
           end
  end.

#[export] Instance net : NetLib := {|
  urlparse := sample_urlparse;
  getaddrinfo := sample_getaddrinfo;
  IPAddress := ipv4;
  ip_address := parse_ipv4;
  is_loopback := v4_loopback;
  is_private := v4_private;
  is_reserved := v4_reserved;
  is_link_local := v4_link_local;
  is_multicast := v4_multicast;
|}.

(** *** Images: the text [W H pixels] *)

Definition sample_decode (data : string) : option Image :=
  match PyStr.split " " data with
  | w :: h :: rest =>
      match parse_dec w, parse_dec h with
      | Some w, Some h =>
          Some {| width := Z.of_N w; height := Z.of_N h;
                  pixels := PyStr.join " " rest |}
      | _, _ => None
      end
  | _ => None
  end.

Definition sample_encode (canvas : Canvas) (fmt : string) : exn + string :=
  if bool_decide (fmt ∈ ["JPEG"; "PNG"; "WEBP"]) then
    inr (PyStr.of_int (fst (size canvas)) +:+ " " +:+ PyStr.of_int (snd (size canvas))
         +:+ " " +:+ PyStr.join EmptyString (map (fun p => pixels (fst p)) (pasted canvas)))
  else inl (KeyError fmt).

#[export] Instance pil : ImageLib := {|
  image_decode := sample_decode;
  image_encode := sample_encode;
|}.

(** *** The worker *)

Definition page_html : string := "<html><body>hello</body></html>".

Definition shot (fmt : string) (i : string) : string := "/tmp/shot" +:+ i +:+ "." +:+ fmt.

Definition with_files (files : list (string * string)) (f : gmap string string)
  : gmap string string :=
  fold_left (fun m kv => <[fst kv := snd kv]> m) files f.

Definition sample_task (url : string) (wait : Z) (image_format : string)
    (n_screenshots : Z) (browser_dim : list Z) (f : gmap string string)
  : (exn + ScrapeResult) * gmap string string :=
  let html_headers := [("Content-Type", "text/html; charset=utf-8"); ("Server", "demo")] in
  if String.eqb url "http://example.com/" then
    (inr {| status := 200; headers := html_headers;
            content_file := Some "/tmp/page.html";
            screenshot_files := [shot image_format "0"; shot image_format "1"];
            metadata := "{}" |},
     with_files [("/tmp/page.html", page_html);
                 (shot image_format "0", "100 50 aaaa");
                 (shot image_format "1", "200 60 bbbb")] f)
  else if String.eqb url "http://example.net/" then
    (inr {| status := 200; headers := html_headers;
            content_file := Some "/tmp/page.html";
            screenshot_files := [shot image_format "0"];
            metadata := "{}" |},
     with_files [("/tmp/page.html", page_html);
                 (shot image_format "0", "100 50 aaaa")] f)
  else if String.eqb url "http://example.com/headerless" then
    (inr {| status := 200; headers := [("Server", "demo")];
            content_file := Some "/tmp/page.bin";
            screenshot_files := [shot image_format "0"; shot image_format "1"];
            metadata := "{}" |},
     with_files [("/tmp/page.bin", "payload");
                 (shot image_format "0", "100 50 aaaa");
                 (shot image_format "1", "200 60 bbbb")] f)
  else (inl (WorkerError "The operation timed out."), f).

#[export] Instance worker : WorkerModule := {|
  MAX_BROWSER_DIM := (2400, 4000);
  MIN_BROWSER_DIM := (100, 100);
  DEFAULT_BROWSER_DIM := [1280; 2000];
  DEFAULT_WAIT := 1000;
  MAX_SCREENSHOTS := 10;
  MAX_WAIT := 5000;
  DEFAULT_SCREENSHOTS := 5;
  scrape_task := sample_task;
|}.

(** *** Environment, JSON and MIME tables *)

Definition json_string (s : string) : string := Chars.dq +:+ s +:+ Chars.dq.

Definition sample_json_dumps (status : Z) (headers : dict) (metadata : string) : string :=
  "{" +:+ json_string "status" +:+ ": " +:+ PyStr.of_int status +:+ ", "
  +:+ json_string "headers" +:+ ": {"
  +:+ PyStr.join ", " (map (fun kv => json_string (fst kv) +:+ ": " +:+ json_string (snd kv))
                           headers)
  +:+ "}, " +:+ json_string "metadata" +:+ ": " +:+ metadata +:+ "}".

Definition sample_extensions (mime_type : string) : list string :=
  if String.eqb mime_type "text/html" then [".html"; ".htm"]
  else if String.eqb mime_type "image/jpeg" then [".jpg"; ".jpeg"]
  else if String.eqb mime_type "application/json" then [".json"]
  else [].

#[export] Instance runtime : Runtime := {|
  SCRAPER_API_KEYS := [];
  json_dumps := sample_json_dumps;
  guess_all_extensions := sample_extensions;
|}.

Definition request (url : string) : Request :=
  {| req_headers := [("Content-Type", "application/json")];
     json_url := Some url;
     json_wait := None;
     json_max_screenshots := None;
     json_browser_dim := None |}.

Definition idle : world := fresh_world ∅ ∅ ["k3x9"; "q7w2"; "m1n8"].

Definition page_closure : StreamClosure :=
  {| cl_boundary := boundary_literal;
     cl_status := 200;
     cl_headers := [("content-type", "text/html")];
     cl_metadata := "{}";
     cl_content_file := "/tmp/page.html";
     cl_stacked_screenshot := Some "/tmp/s.png";
     cl_image_format := "png";
     cl_screenshot_files := ["/tmp/s.png"];
     cl_cleanup_files := ["/tmp/page.html"; "/tmp/s.png"] |}.

Definition page_world : world :=
  fresh_world (with_files [("/tmp/page.html", page_html); ("/tmp/s.png", "100 50 aa")] ∅)
              ∅ [].

End Sample.

(** ** Vocabulary of the properties *)

Ltac munfold :=
  unfold result_of, world_of, mbind, M_bind, mret, M_ret, ret, lift, raise,
         try_except, try_finally, print_stderr, yield, emit, get_fs, set_fs in *.

(** A computation [respects] a relation between the world before and the
    world after when every run of it is in the relation. *)
Definition respects {A} (R : world -> world -> Prop) (m : M A) : Prop :=
  forall w, R w (snd (m w)).

(** The trace only grows, and by events that satisfy [P]. *)
Definition grows_by (P : event -> Prop) (w w' : world) : Prop :=
  exists evs, trace w' = trace w ++ evs /\ Forall P evs.

(** Deletions between two worlds: each path at most once, only paths that
    were there, gone afterwards, and no file comes into being. *)
Definition deletes_once (w w' : world) : Prop :=
  exists evs, trace w' = trace w ++ evs /\
    NoDup (unlinked_paths evs) /\
    (forall p, p ∈ unlinked_paths evs -> is_Some (fs w !! p) /\ fs w' !! p = None) /\
    (forall p, fs w !! p = None -> fs w' !! p = None).

Definition not_unlinked (e : event) : Prop :=
  match e with Unlinked _ => False | _ => True end.

Definition not_yielded (e : event) : Prop :=
  match e with Yielded _ => False | _ => True end.



(** Events by the stage that makes them. *)
Definition validator_event (e : event) : Prop :=
  match e with Resolve _ | Stderr _ => True | _ => False end.

Definition stacker_event (e : event) : Prop :=
  match e with Created _ | Saved _ => True | _ => False end.

Definition handler_event (e : event) : Prop :=
  match e with Unlinked _ | Yielded _ => False | _ => True end.

(** The protected paths stay the same. *)
Definition same_protection (w w' : world) : Prop := undeletable w' = undeletable w.

(** A computation that ends without an exception from every world. *)
Definition never_raises {A} (m : M A) : Prop :=
  forall w, exists a, fst (m w) = inr a.

(** The world with more events on its trace. *)
Definition with_events (w : world) (evs : list event) : world :=
  World (fs w) (undeletable w) (tmp_names w) (trace w ++ evs).

Section SafetyVocabulary.

Context `{NetLib}.

(** A resolved address passes when it parses and none of the five
    classifications holds; it fails otherwise. *)
Definition passes_all_checks (a : addrinfo) : Prop :=
  exists ip, ip_address (ip_str_of a) = Some ip /\
    is_loopback ip = false /\ is_private ip = false /\ is_reserved ip = false /\
    is_link_local ip = false /\ is_multicast ip = false.

Definition fails_a_check (a : addrinfo) : Prop :=
  match ip_address (ip_str_of a) with
  | None => True
  | Some ip =>
      is_loopback ip = true \/ is_private ip = true \/ is_reserved ip = true \/
      is_link_local ip = true \/ is_multicast ip = true
  end.

End SafetyVocabulary.

Section BoundsVocabulary.

Context `{WorkerModule}.

(** The bounds of section 4.2, on the values a request carries or defaults to. *)
Definition wait_in_bounds (wait : Z) : bool :=
  (0 <=? wait) && (wait <=? MAX_WAIT).

Definition dim_in_bounds (browser_dim : list Z) : bool :=
  match browser_dim with
  | bw :: bh :: _ =>
      (fst MIN_BROWSER_DIM <=? bw) && (bw <=? fst MAX_BROWSER_DIM) &&
      (snd MIN_BROWSER_DIM <=? bh) && (bh <=? snd MAX_BROWSER_DIM)
  | _ => false
  end.

Definition screenshots_in_bounds (n : Z) : bool := n <=? MAX_SCREENSHOTS.

Definition bounds_ok (req : Request) : bool :=
  wait_in_bounds (default DEFAULT_WAIT (json_wait req)) &&
  dim_in_bounds (default DEFAULT_BROWSER_DIM (json_browser_dim req)) &&
  screenshots_in_bounds (default DEFAULT_SCREENSHOTS (json_max_screenshots req)).

Definition url_present (req : Request) : bool := PyStr.truthy (json_url req).


End BoundsVocabulary.

(** The one dispatch a validated request gives rise to. *)
Definition dispatch_event (v : Validated) (fmt : string) : event :=
  Dispatch (v_url v) (v_wait v) fmt (v_n_screenshots v) (v_browser_dim v).

Definition responder_event (v : Validated) (fmt : string) (e : event) : Prop :=
  match e with
  | Dispatch _ _ _ _ _ => e = dispatch_event v fmt
  | Created _ | Saved _ | Stderr _ => True
  | _ => False
  end.

(** A request that spells out every field of the body. *)
Definition post (hs : list (string * string)) (url : string) (wait n : Z)
    (browser_dim : list Z) : Request :=
  {| req_headers := hs;
     json_url := Some url;
     json_wait := Some wait;
     json_max_screenshots := Some n;
     json_browser_dim := Some browser_dim |}.

(** Where each image of a stack goes: at the left edge, below all the
    images before it. *)
Definition placements (images : list Image) : list (Z * Z) :=
  map (fun i => (0, foldr Z.add 0 (map height (take i images))))
      (seq 0 (length images)).

(** [files] open as [images] in the world [w]. *)
Definition opens_as `{ImageLib} (w : world) (file : string) (img : Image) : Prop :=
  exists data, fs w !! file = Some data /\ image_decode data = Some img.

(** The multipart format of section 4.5. *)
Module Multipart.

Definition boundary_line (boundary : string) : string :=
  "--" +:+ boundary +:+ Chars.CRLF.

Definition header (name value : string) : string :=
  name +:+ ": " +:+ value +:+ Chars.CRLF.

Definition disposition (filename : string) : string :=
  header "Content-Disposition"
    ("attachment; name=" +:+ Chars.dq +:+ filename +:+ Chars.dq
     +:+ "; filename=" +:+ Chars.dq +:+ filename +:+ Chars.dq).

Definition info_head (boundary : string) : string :=
  boundary_line boundary
  +:+ header "Content-Type" "application/json"
  +:+ disposition "info.json"
  +:+ Chars.CRLF.

Definition binary_head (boundary filename content_type : string) : string :=
  Chars.CRLF +:+ boundary_line boundary
  +:+ disposition filename
  +:+ header "Content-Transfer-Encoding" "binary"
  +:+ header "Content-Type" content_type
  +:+ Chars.CRLF.

Definition closing (boundary : string) : string :=
  Chars.CRLF +:+ "--" +:+ boundary +:+ "--" +:+ Chars.CRLF.

(** The bytes of a file, in reads of at most 4096. *)
Definition file_chunks (data : string) : list string :=
  read_chunks (S (String.length data)) data.

(** The chunks of a complete body, in order: the info part, the main
    content, the stacked screenshot when there is one, the terminator. *)
Definition envelope (boundary json main_name content_type content fmt : string)
    (shot : option string) : list string :=
  [Multipart.info_head boundary; json]
  ++ [Multipart.binary_head boundary main_name content_type]
  ++ Multipart.file_chunks content
  ++ match shot with
     | Some data =>
         Multipart.binary_head boundary ("screenshot." +:+ fmt) ("image/" +:+ fmt)
         :: Multipart.file_chunks data
     | None => []
     end
  ++ [Multipart.closing boundary].

End Multipart.

(** The bytes a list of chunks adds up to. *)
Definition body_of (chunks : list string) : string :=
  foldr String.append EmptyString chunks.

(** The bytes of the stacked screenshot the generator will read. *)
Definition stacked_bytes (c : StreamClosure) (w : world) : option string :=
  if PyStr.truthy (cl_stacked_screenshot c)
  then fs w !! default EmptyString (cl_stacked_screenshot c)
  else None.

(** The claim that boundary tokens differ between responses, as a
    proposition about two runs of the handler. *)
Definition boundaries_differ `{NetLib} `{ImageLib} `{WorkerModule} `{Runtime}
    (req1 req2 : Request) (w1 w2 : world) : Prop :=
  forall c1 m1 b1 c2 m2 b2,
    result_of (scrape req1 w1) = inr (Streamed c1 m1 b1) ->
    result_of (scrape req2 w2) = inr (Streamed c2 m2 b2) ->
    cl_boundary b1 <> cl_boundary b2.

(** ** Vocabulary of the further properties *)

(** The text of [s] before the first [sep] (all of [s] without one). *)
Fixpoint upto (sep : ascii) (s : string) : string :=
  match s with
  | EmptyString => EmptyString
  | String c s' => if Ascii.eqb c sep then EmptyString else String c (upto sep s')
  end.

(** [sep] does not occur in [s]. *)
Fixpoint free_of (sep : ascii) (s : string) : bool :=
  match s with
  | EmptyString => true
  | String c s' => negb (Ascii.eqb c sep) && free_of sep s'
  end.

(** The events between two worlds come in two runs: first events that are
    no deletion, then events that are no chunk. *)
Definition yields_then_deletes (w w' : world) : Prop :=
  exists ys rest, trace w' = trace w ++ ys ++ rest /\
                  Forall not_unlinked ys /\ Forall not_yielded rest.

(** The path [p] is protected and present, and stays so. *)
Definition stays_protected (p : string) (w w' : world) : Prop :=
  p ∈ undeletable w -> is_Some (fs w !! p) ->
  p ∈ undeletable w' /\ is_Some (fs w' !! p).

(** A file that cannot be opened as an image. *)
Definition unopenable `{ImageLib} (w : world) (file : string) : Prop :=
  match fs w !! file with
  | None => True
  | Some data => image_decode data = None
  end.

(** How many events of a kind a list holds. *)
Definition count_events (kind : event -> bool) (evs : list event) : nat :=
  length (List.filter kind evs).

(** A file with its bytes is still there. *)
Definition keeps_file (p : string) (w w' : world) : Prop :=
  forall data, fs w !! p = Some data -> fs w' !! p = Some data.

(** Line 28: the API keys are the values of the environment variables
    whose name starts with SCRAPER_API_KEY. *)
Definition load_api_keys (environ : list (string * string)) : list string :=
  map snd (List.filter (fun kv => PyStr.startswith "SCRAPER_API_KEY" (fst kv)) environ).

(** Events that are no look-up; events that are neither a look-up nor a
    dispatch. *)
Definition no_resolve (e : event) : Prop := is_resolve e = false.

Definition quiet (e : event) : Prop := is_resolve e = false /\ is_dispatch e = false.

(** Every statement between the yields of a generator respects [R]. *)
Fixpoint steps_respect {A} (R : world -> world -> Prop) (g : Gen A) : Prop :=
  match g with
  | GRet _ => True
  | GYield _ next => steps_respect R next
  | GRun m k => respects R m /\ forall x, steps_respect R (k x)
  end.

(** No path through the generator reaches a [yield]. *)
Fixpoint no_yield {A} (g : Gen A) : Prop :=
  match g with
  | GRet _ => True
  | GYield _ _ => False
  | GRun _ k => forall x, no_yield (k x)
  end.

(** Every statement of the generator that a [yield] can follow respects
    [R]. *)
Fixpoint respects_to_yields {A} (R : world -> world -> Prop) (g : Gen A) : Prop :=
  match g with
  | GRet _ => True
  | GYield _ next => respects_to_yields R next
  | GRun m k =>
      (respects R m \/ forall x, no_yield (k x)) /\
      forall x, respects_to_yields R (k x)
  end.

(** Nothing but chunks handed over lies between two worlds. *)
Definition only_yields (w w' : world) : Prop :=
  exists chunks, w' = with_events w (map Yielded chunks).

(** [close()] finds the generator suspended at a [yield]. *)
Definition closes_at_yield `{Runtime} (more : nat) (c : StreamClosure) (w : world) : Prop :=
  fst (closed_after more (stream_program c) w) = GeneratorExit.

(** ** More concrete instances

    A runtime with API keys, a resolver and a parser that raise, a worker
    that comes back without content, and worlds with files that cannot be
    deleted, to run the further properties on. *)

Module Fixtures.

Definition keyed : Runtime := {|
  SCRAPER_API_KEYS := ["s3cr3t"; "spare"];
  json_dumps := Sample.sample_json_dumps;
  guess_all_extensions := Sample.sample_extensions;
|}.

Definition strict_urlparse (url : string) : exn + ParseResult :=
  if String.eqb url "http://[::1/" then inl (ValueError "Invalid IPv6 URL")
  else Sample.sample_urlparse url.

Definition strict_getaddrinfo (host : string) : exn + list addrinfo :=
  if String.eqb host "a..b" then inl (UnicodeError host)
  else Sample.sample_getaddrinfo host.

Definition strict_net : NetLib := {|
  urlparse := strict_urlparse;
  getaddrinfo := strict_getaddrinfo;
  IPAddress := Sample.ipv4;
  ip_address := Sample.parse_ipv4;
  is_loopback := Sample.v4_loopback;
  is_private := Sample.v4_private;
  is_reserved := Sample.v4_reserved;
  is_link_local := Sample.v4_link_local;
  is_multicast := Sample.v4_multicast;
|}.

Definition blank_task (url : string) (wait : Z) (image_format : string)
    (n_screenshots : Z) (browser_dim : list Z) (f : gmap string string)
  : (exn + ScrapeResult) * gmap string string :=
  (inr {| status := 504; headers := [];
          content_file := None;
          screenshot_files := [Sample.shot image_format "0"];
          metadata := "{}" |},
   <[Sample.shot image_format "0" := "100 50 aaaa"]> f).

Definition blank_worker : WorkerModule := {|
  MAX_BROWSER_DIM := (2400, 4000);
  MIN_BROWSER_DIM := (100, 100);
  DEFAULT_BROWSER_DIM := [1280; 2000];
  DEFAULT_WAIT := 1000;
  MAX_SCREENSHOTS := 10;
  MAX_WAIT := 5000;
  DEFAULT_SCREENSHOTS := 5;
  scrape_task := blank_task;
|}.

Definition validated (url : string) : Validated :=
  {| v_url := url; v_wait := 1000; v_n_screenshots := 5; v_browser_dim := [1280; 2000] |}.

(** The page of [Sample.page_world] with its content file protected. *)
Definition locked_world : world :=
  World (fs Sample.page_world) {[ "/tmp/page.html" ]} [] [].

(** Two raw screenshots, their stacked image, and headers without a
    content type. *)
Definition headerless_closure : StreamClosure :=
  {| cl_boundary := boundary_literal;
     cl_status := 200;
     cl_headers := [("server", "demo")];
     cl_metadata := "{}";
     cl_content_file := "/tmp/page.bin";
     cl_stacked_screenshot := Some "/tmp/stack.png";
     cl_image_format := "png";
     cl_screenshot_files := ["/tmp/a.png"; "/tmp/b.png"];
     cl_cleanup_files := ["/tmp/page.bin"; "/tmp/stack.png"] |}.

Definition headerless_world : world :=
  fresh_world
    (Sample.with_files [("/tmp/page.bin", "payload"); ("/tmp/a.png", "100 50 aa");
                        ("/tmp/b.png", "200 60 bb"); ("/tmp/stack.png", "200 110 aabb")] ∅)
    ∅ [].

Definition three_images : list Image :=
  [ {| width := 100; height := 50; pixels := "aa" |};
    {| width := 200; height := 60; pixels := "bb" |};
    {| width := 150; height := 70; pixels := "cc" |} ].

(** The closure the handler builds for the sample page with one screenshot. *)
Definition one_shot_closure : StreamClosure :=
  {| cl_boundary := boundary_literal;
     cl_status := 200;
     cl_headers := [("content-type", "text/html; charset=utf-8"); ("server", "demo")];
     cl_metadata := "{}";
     cl_content_file := "/tmp/page.html";
     cl_stacked_screenshot := Some "/tmp/shot0.jpeg";
     cl_image_format := "jpeg";
     cl_screenshot_files := ["/tmp/shot0.jpeg"];
     cl_cleanup_files := ["/tmp/page.html"; "/tmp/shot0.jpeg"] |}.

End Fixtures.

(** * Properties *)

(** ** Running the combinators *)

Lemma run_bind {A B} (m : M A) (k : A -> M B) (w : world) :
  (m ≫= k) w = match m w with
               | (inr a, w') => k a w'
               | (inl e, w') => (inl e, w')
               end.
Proof. reflexivity. Qed.

Lemma run_bind_inr {A B} (m : M A) (k : A -> M B) (w w' : world) (a : A) :
  m w = (inr a, w') -> (m ≫= k) w = k a w'.
Proof. intros E. rewrite run_bind, E. reflexivity. Qed.

Lemma run_bind_inl {A B} (m : M A) (k : A -> M B) (w w' : world) (e : exn) :
  m w = (inl e, w') -> (m ≫= k) w = (inl e, w').
Proof. intros E. rewrite run_bind, E. reflexivity. Qed.

(** What holds of every preorder on worlds: the combinators of the monad
    preserve [respects]. *)
Section Respects.

Context (R : world -> world -> Prop) `{!PreOrder R}.

Let R_refl : forall w, R w w := PreOrder_Reflexive.

Let R_trans : forall w1 w2 w3, R w1 w2 -> R w2 w3 -> R w1 w3 := PreOrder_Transitive.

Lemma respects_ret {A} (a : A) : respects R (ret a).
Proof. intros w. apply R_refl. Qed.

Lemma respects_raise {A} (e : exn) : respects R (raise e : M A).
Proof. intros w. apply R_refl. Qed.

Lemma respects_lift {A} (r : exn + A) : respects R (lift r).
Proof. destruct r; intros w; apply R_refl. Qed.

Lemma respects_get_fs : respects R get_fs.
Proof. intros w. apply R_refl. Qed.

Lemma respects_bind {A B} (m : M A) (k : A -> M B) :
  respects R m -> (forall a, respects R (k a)) -> respects R (m ≫= k).
Proof.
  intros Hm Hk w. rewrite run_bind. specialize (Hm w).
  destruct (m w) as [[e|a] w']; simpl in *; [done|].
  eapply R_trans; [exact Hm | apply Hk].
Qed.

Lemma respects_try_except {A} (sel : exn -> bool) (body : M A) (handler : exn -> M A) :
  respects R body -> (forall e, respects R (handler e)) ->
  respects R (try_except sel body handler).
Proof.
  intros Hb Hh w. unfold try_except. specialize (Hb w).
  destruct (body w) as [[e|a] w']; simpl in *; [|done].
  destruct (sel e); [|done].
  eapply R_trans; [exact Hb | apply Hh].
Qed.

Lemma respects_try_finally (body final : M unit) :
  respects R body -> respects R final -> respects R (try_finally body final).
Proof.
  intros Hb Hf w. unfold try_finally. specialize (Hb w).
  destruct (body w) as [[e|[]] w']; simpl in *.
  - specialize (Hf w'). destruct (final w') as [[e'|[]] w'']; simpl in *;
      eapply R_trans; eauto.
  - eapply R_trans; [exact Hb | apply Hf].
Qed.

Lemma respects_for_each {A} (xs : list A) (body : A -> M unit) :
  (forall x, respects R (body x)) -> respects R (for_each xs body).
Proof.
  intros Hb. induction xs as [|x rest IH]; simpl.
  - apply respects_ret.
  - apply respects_bind; [apply Hb | intros _; exact IH].
Qed.

Lemma respects_path_exists (p : string) : respects R (path_exists p).
Proof.
  unfold path_exists. apply respects_bind; [apply respects_get_fs|].
  intros f. apply respects_ret.
Qed.

Lemma respects_open_rb (p : string) : respects R (open_rb p).
Proof.
  unfold open_rb. apply respects_bind; [apply respects_get_fs|].
  intros f. destruct (f !! p); [apply respects_ret | apply respects_raise].
Qed.

Lemma respects_dict_item (k : string) (d : dict) : respects R (dict_item k d).
Proof. unfold dict_item. destruct (dict_get k d); [apply respects_ret | apply respects_raise]. Qed.

Lemma respects_list_item {A} (xs : list A) (i : nat) : respects R (list_item xs i).
Proof. unfold list_item. destruct (xs !! i); [apply respects_ret | apply respects_raise]. Qed.

End Respects.

(** ** Traces that grow *)

Lemma grows_by_refl (P : event -> Prop) (w : world) : grows_by P w w.
Proof. exists []. split; [by rewrite app_nil_r | constructor]. Qed.

Lemma grows_by_trans (P : event -> Prop) (w1 w2 w3 : world) :
  grows_by P w1 w2 -> grows_by P w2 w3 -> grows_by P w1 w3.
Proof.
  intros (e1 & E1 & F1) (e2 & E2 & F2). exists (e1 ++ e2). split.
  - by rewrite E2, E1, app_assoc.
  - by apply Forall_app.
Qed.

#[export] Instance grows_by_preorder (P : event -> Prop) : PreOrder (grows_by P).
Proof.
  split.
  - intros w. apply grows_by_refl.
  - intros w1 w2 w3. apply grows_by_trans.
Qed.

Lemma grows_by_weaken (P Q : event -> Prop) (w w' : world) :
  (forall e, P e -> Q e) -> grows_by P w w' -> grows_by Q w w'.
Proof.
  intros HPQ (evs & E & F). exists evs. split; [done|].
  eapply Forall_impl; eauto.
Qed.

Lemma respects_weaken {A} (P Q : event -> Prop) (m : M A) :
  (forall e, P e -> Q e) -> respects (grows_by P) m -> respects (grows_by Q) m.
Proof. intros HPQ Hm w. eapply grows_by_weaken; eauto. Qed.

Lemma grows_emit (P : event -> Prop) (e : event) :
  P e -> respects (grows_by P) (emit e).
Proof. intros He w. exists [e]. simpl. split; [done | by constructor]. Qed.

Lemma grows_set_fs (P : event -> Prop) (f : gmap string string) :
  respects (grows_by P) (set_fs f).
Proof. intros w. exists []. simpl. split; [by rewrite app_nil_r | constructor]. Qed.

Lemma grows_os_unlink (P : event -> Prop) (p : string) :
  P (Unlinked p) -> respects (grows_by P) (os_unlink p).
Proof.
  intros HP w. unfold os_unlink.
  destruct (fs w !! p); [|apply grows_by_refl].
  case_bool_decide; [apply grows_by_refl|].
  exists [Unlinked p]. simpl. split; [done | by constructor].
Qed.

Lemma grows_mkstemp (P : event -> Prop) (suffix : string) :
  (forall p, P (Created p)) -> respects (grows_by P) (mkstemp suffix).
Proof.
  intros HP w. unfold mkstemp.
  destruct (draw_name suffix (tmp_names w) (fs w)) as [[p rest]|]; [|apply grows_by_refl].
  exists [Created p]. simpl. split; [done | by constructor].
Qed.

(** A tactic for goals [respects R m]: split the computation along its
    combinators and leave the side conditions on the events. *)
Ltac grows :=
  repeat match goal with
    | |- PreOrder _ => apply _
    | |- forall _, respects _ _ => intros ?
    | |- respects _ (mbind _ _) => apply respects_bind
    | |- respects _ (try_except _ _ _) => apply respects_try_except
    | |- respects _ (try_finally _ _) => apply respects_try_finally
    | |- respects _ (for_each _ _) => apply respects_for_each
    | |- respects _ (ret _) => apply respects_ret
    | |- respects _ (raise _) => apply respects_raise
    | |- respects _ (lift _) => apply respects_lift
    | |- respects _ get_fs => apply respects_get_fs
    | |- respects _ (path_exists _) => apply respects_path_exists
    | |- respects _ (open_rb _) => apply respects_open_rb
    | |- respects _ (dict_item _ _) => apply respects_dict_item
    | |- respects _ (list_item _ _) => apply respects_list_item
    | |- respects (grows_by _) (set_fs _) => apply grows_set_fs
    | |- respects (grows_by _) (emit _) => apply grows_emit
    | |- respects (grows_by _) (os_unlink _) => apply grows_os_unlink
    | |- respects (grows_by _) (mkstemp _) => apply grows_mkstemp; intros ?
    end.

Ltac split_if :=
  match goal with
  | |- respects _ (if ?c then _ else _) => destruct c
  end.

(** ** C1, C4: the URL safety validator *)

Section UrlSafetyFacts.

Context `{NetLib}.

Lemma is_private_ip_false (a : addrinfo) :
  is_private_ip (ip_str_of a) = false <-> passes_all_checks a.
Proof.
  unfold is_private_ip, passes_all_checks.
  destruct (ip_address (ip_str_of a)) as [ip|].
  - rewrite !orb_false_iff. split.
    + intros ((((?&?)&?)&?)&?). exists ip. tauto.
    + intros (ip' & [= <-] & ?). tauto.
  - split; [discriminate | intros (? & ? & _); discriminate].
Qed.

Lemma is_private_ip_true (a : addrinfo) :
  is_private_ip (ip_str_of a) = true <-> fails_a_check a.
Proof.
  unfold is_private_ip, fails_a_check.
  destruct (ip_address (ip_str_of a)) as [ip|]; [|tauto].
  rewrite !orb_true_iff. tauto.
Qed.

Lemma check_addrs_result (host : string) (addrs : list addrinfo) (w : world) :
  result_of (check_addrs host addrs w)
  = inr (forallb (fun a => negb (is_private_ip (ip_str_of a))) addrs).
Proof.
  revert w. induction addrs as [|a rest IH]; intros w; [reflexivity|].
  simpl. destruct (is_private_ip (ip_str_of a)); simpl.
  - reflexivity.
  - apply IH.
Qed.

(** Past the scheme tests the verdict is a function of what the resolver
    answers for the host. *)
Lemma url_is_safe_resolving (url : string) (allowed : option (gset string))
    (parsed : ParseResult) (w : world) :
  urlparse (PyStr.strip url) = inr parsed ->
  PyStr.lower (scheme parsed) <> "file" ->
  PyStr.lower (scheme parsed) ∈ default default_allowed_schemes allowed ->
  result_of (url_is_safe url allowed w) =
    match getaddrinfo (host_of (netloc parsed)) with
    | inr addrs => inr (forallb (fun a => negb (is_private_ip (ip_str_of a))) addrs)
    | inl e => if is_gaierror e then inr false else inl e
    end.
Proof.
  intros Hparse Hfile Hin.
  unfold url_is_safe. munfold. rewrite Hparse. simpl.
  destruct (String.eqb_spec (PyStr.lower (scheme parsed)) "file") as [|_]; [done|].
  rewrite bool_decide_eq_true_2 by done. simpl.
  destruct (getaddrinfo (host_of (netloc parsed))) as [e|addrs]; simpl.
  - destruct (is_gaierror e); reflexivity.
  - apply check_addrs_result.
Qed.

(** The verdicts on a URL whose scheme is http or https: a look-up that
    fails with socket.gaierror gives the verdict unsafe; one resolved
    address that is loopback, private, reserved, link-local or multicast,
    or that does not parse, gives the verdict unsafe; the verdict is safe exactly when the host
    resolves and every resolved address passes all the checks. *)
Theorem url_is_safe_http_fail_closed (url : string) (parsed : ParseResult) (w : world) :
  urlparse (PyStr.strip url) = inr parsed ->
  PyStr.lower (scheme parsed) = "http" \/ PyStr.lower (scheme parsed) = "https" ->
  let host := host_of (netloc parsed) in
  let verdict := result_of (url_is_safe url None w) in
  (forall h, getaddrinfo host = inl (gaierror h) -> verdict = inr false) /\
  (forall addrs a, getaddrinfo host = inr addrs -> a ∈ addrs -> fails_a_check a ->
     verdict = inr false) /\
  (verdict = inr true <->
     exists addrs, getaddrinfo host = inr addrs /\
                   forall a, a ∈ addrs -> passes_all_checks a).
Proof.
  intros Hparse Hscheme host verdict.
  assert (Hv : verdict =
    match getaddrinfo host with
    | inr addrs => inr (forallb (fun a => negb (is_private_ip (ip_str_of a))) addrs)
    | inl e => if is_gaierror e then inr false else inl e
    end).
  { apply url_is_safe_resolving; [done| |].
    - destruct Hscheme as [-> | ->]; discriminate.
    - destruct Hscheme as [-> | ->]; simpl; unfold default_allowed_schemes; set_solver. }
  rewrite Hv. split; [|split].
  - intros h ->. reflexivity.
  - intros addrs a -> Hin Hbad. f_equal.
    apply not_true_is_false. intros Hall.
    rewrite forallb_forall in Hall. apply list_elem_of_In in Hin.
    specialize (Hall a Hin). apply is_private_ip_true in Hbad.
    rewrite Hbad in Hall. discriminate.
  - split.
    + destruct (getaddrinfo host) as [e|addrs].
      * destruct (is_gaierror e); discriminate.
      * intros [= Hall]. exists addrs. split; [done|].
        intros a Hin. apply is_private_ip_false.
        rewrite forallb_forall in Hall. apply list_elem_of_In in Hin.
        specialize (Hall a Hin). by apply negb_true_iff.
    + intros (addrs & -> & Hall). f_equal. apply forallb_forall.
      intros a Hin. apply negb_true_iff, is_private_ip_false, Hall.
      by apply list_elem_of_In.
Qed.

(** C4. A URL whose scheme reads file, in any letter case, is judged safe
    whatever its host and path and whatever the allow-list; nothing is
    resolved and the world is left as it was. *)
Theorem url_is_safe_file_unconditional (url : string) (allowed : option (gset string))
    (parsed : ParseResult) (w : world) :
  urlparse (PyStr.strip url) = inr parsed ->
  PyStr.lower (scheme parsed) = "file" ->
  url_is_safe url allowed w = (inr true, w).
Proof.
  intros Hparse Hfile. unfold url_is_safe. munfold.
  rewrite Hparse. simpl. rewrite Hfile. reflexivity.
Qed.

(** The validator talks to the resolver and to stderr, never to the worker. *)
Lemma check_addrs_grows (host : string) (addrs : list addrinfo) :
  respects (grows_by validator_event) (check_addrs host addrs).
Proof.
  induction addrs as [|a rest IH]; simpl.
  - grows.
  - destruct (is_private_ip (ip_str_of a)); [|exact IH].
    unfold print_stderr. grows. exact I.
Qed.

Lemma url_is_safe_grows (url : string) (allowed : option (gset string)) :
  respects (grows_by validator_event) (url_is_safe url allowed).
Proof.
  unfold url_is_safe, print_stderr. grows.
  split_if; [grows|].
  split_if; [grows; exact I|].
  grows; try exact I.
  match goal with |- respects _ (match ?x with _ => _ end) => destruct x end.
  - apply check_addrs_grows.
  - grows.
Qed.

End UrlSafetyFacts.

(** ** C7: the image stacker *)

Lemma fold_max_ge (xs : list Z) (x : Z) : x <= fold_left Z.max xs x.
Proof.
  revert x. induction xs as [|y rest IH]; intros x; simpl; [lia|].
  etransitivity; [|apply IH]. lia.
Qed.

Lemma fold_max_upper (xs : list Z) (x y : Z) : y ∈ xs -> y <= fold_left Z.max xs x.
Proof.
  revert x. induction xs as [|z rest IH]; intros x Hin; simpl.
  - by apply elem_of_nil in Hin.
  - apply elem_of_cons in Hin as [-> | Hin].
    + etransitivity; [|apply fold_max_ge]. lia.
    + by apply IH.
Qed.

Lemma fold_max_attained (xs : list Z) (x : Z) :
  fold_left Z.max xs x = x \/ fold_left Z.max xs x ∈ xs.
Proof.
  revert x. induction xs as [|z rest IH]; intros x; simpl; [by left|].
  destruct (IH (Z.max x z)) as [E | Hin].
  - rewrite E. destruct (Z.max_spec x z) as [[_ ->] | [_ ->]].
    + right. apply list_elem_of_here.
    + by left.
  - right. by apply list_elem_of_further.
Qed.

Lemma max_of_upper (xs : list Z) (y : Z) : y ∈ xs -> y <= max_of xs.
Proof.
  destruct xs as [|x rest]; simpl; intros Hin.
  - by apply elem_of_nil in Hin.
  - apply elem_of_cons in Hin as [-> | Hin];
      [apply fold_max_ge | by apply fold_max_upper].
Qed.

Lemma max_of_attained (xs : list Z) : xs <> [] -> max_of xs ∈ xs.
Proof.
  destruct xs as [|x rest]; [done|]. intros _. simpl.
  destruct (fold_max_attained rest x) as [-> | Hin].
  - apply list_elem_of_here.
  - by apply list_elem_of_further.
Qed.

Lemma fold_add_shift (xs : list Z) (a : Z) :
  fold_left Z.add xs a = a + foldr Z.add 0 xs.
Proof.
  revert a. induction xs as [|x rest IH]; intros a; simpl; [lia|].
  rewrite IH. lia.
Qed.

Lemma sum_of_foldr (xs : list Z) : sum_of xs = foldr Z.add 0 xs.
Proof. unfold sum_of. rewrite fold_add_shift. lia. Qed.

Lemma paste_below_size (c : Canvas) (y : Z) (images : list Image) :
  size (paste_below c y images) = size c /\ mode (paste_below c y images) = mode c.
Proof.
  revert c y. induction images as [|img rest IH]; intros c y; simpl; [done|].
  destruct (IH (paste c img (0, y)) (y + height img)) as [-> ->]. done.
Qed.

Lemma paste_below_pasted (c : Canvas) (y : Z) (images : list Image) :
  pasted (paste_below c y images)
  = pasted c ++ zip images
      (map (fun i => (0, y + foldr Z.add 0 (map height (take i images))))
           (seq 0 (length images))).
Proof.
  revert c y. induction images as [|img rest IH]; intros c y; simpl.
  - by rewrite app_nil_r.
  - rewrite IH. simpl. rewrite <- app_assoc. simpl. do 3 f_equal.
    + f_equal. lia.
    + rewrite <- seq_shift, map_map. apply map_ext. intros i. simpl.
      f_equal. lia.
Qed.

Lemma stacked_canvas_pasted (images : list Image) :
  pasted (stacked_canvas images) = zip images (placements images).
Proof.
  unfold stacked_canvas, placements. rewrite paste_below_pasted. simpl.
  f_equal.
Qed.

Lemma stacked_canvas_size (images : list Image) :
  size (stacked_canvas images)
  = (max_of (map width images), foldr Z.add 0 (map height images)).
Proof.
  unfold stacked_canvas.
  destruct (paste_below_size
    (Image_new "RGB" (max_of (map width images), sum_of (map height images)))
    0 images) as [-> _].
  simpl. by rewrite sum_of_foldr.
Qed.

Lemma draw_name_fresh (suffix : string) (names : list string)
    (f : gmap string string) (p : string) (rest : list string) :
  draw_name suffix names f = Some (p, rest) -> f !! p = None.
Proof.
  induction names as [|n more IH]; simpl; [discriminate|].
  destruct (f !! (tmp_prefix +:+ n +:+ suffix)) eqn:E; [exact IH|].
  intros [= <- _]. exact E.
Qed.

Lemma mkstemp_returns (suffix : string) (w w1 : world) (out : string) :
  mkstemp suffix w = (inr out, w1) ->
  fs w !! out = None /\ fs w1 = <[out := EmptyString]> (fs w).
Proof.
  unfold mkstemp.
  destruct (draw_name suffix (tmp_names w) (fs w)) as [[p rest]|] eqn:E; [|discriminate].
  intros [= <- <-]. simpl. split; [|done].
  eapply draw_name_fresh; eauto.
Qed.

Section StackerFacts.

Context `{ImageLib}.

Lemma open_all_opens (w : world) (files : list string) (images : list Image) :
  Forall2 (opens_as w) files images -> open_all files w = (inr images, w).
Proof.
  induction 1 as [|p img files images (data & Hp & Hd) _ IH]; [reflexivity|].
  simpl. unfold Image_open at 1. munfold. simpl.
  rewrite Hp, Hd. simpl. rewrite IH. reflexivity.
Qed.

(** C7. No artifact for an empty list; the input artifact itself, with the
    world untouched, for a single screenshot; for two or more, a file that
    did not exist before, holding the encoding of a canvas as wide as the
    widest image and as high as all of them together, each image pasted at
    the left edge below the images before it, in the order given.  Widths
    100, 200, 150 and heights 50, 60, 70 give 200 by 180 and the offsets
    0, 50, 110. *)
Theorem stack_images_vertically_spec (output_format : string) (w : world) :
  stack_images_vertically [] output_format w = (inr None, w) /\
  (forall only, stack_images_vertically [only] output_format w = (inr (Some only), w)) /\
  (forall files images out w1 data,
     (2 <= length files)%nat ->
     Forall2 (opens_as w) files images ->
     mkstemp ("." +:+ output_format) w = (inr out, w1) ->
     image_encode (stacked_canvas images) (PyStr.upper output_format) = inr data ->
     let r := stack_images_vertically files output_format w in
     let canvas := stacked_canvas images in
     result_of r = inr (Some out) /\
     fs w !! out = None /\
     fs (world_of r) = <[out := data]> (fs w) /\
     (forall img, img ∈ images -> width img <= fst (size canvas)) /\
     (exists img, img ∈ images /\ width img = fst (size canvas)) /\
     snd (size canvas) = foldr Z.add 0 (map height images) /\
     pasted canvas = zip images (placements images)) /\
  (forall px1 px2 px3,
     let canvas := stacked_canvas
       [ {| width := 100; height := 50; pixels := px1 |};
         {| width := 200; height := 60; pixels := px2 |};
         {| width := 150; height := 70; pixels := px3 |} ] in
     size canvas = (200, 180) /\
     map snd (pasted canvas) = [(0, 0); (0, 50); (0, 110)]).
Proof.
  split; [reflexivity|]. split; [reflexivity|]. split; [|by intros].
  intros files images out w1 data Hlen Hopen Hmk Henc r canvas.
  assert (Himages : images <> []).
  { intros ->. apply Forall2_nil_inv_r in Hopen. subst files. simpl in Hlen. lia. }
  destruct (mkstemp_returns _ _ _ _ Hmk) as [Hfresh Hfs1].
  assert (Hrun : r = (inr (Some out),
                      World (<[out := data]> (fs w)) (undeletable w1) (tmp_names w1)
                            (trace w1 ++ [Saved out]))).
  { subst r. destruct files as [|p1 [|p2 rest]]; simpl in Hlen; [lia | lia |].
    unfold stack_images_vertically.
    rewrite (run_bind_inr _ _ _ _ _ (open_all_opens _ _ _ Hopen)).
    rewrite (run_bind_inr _ _ _ _ _ Hmk).
    unfold Image_save. munfold. rewrite Henc. simpl.
    rewrite Hfs1, insert_insert_eq. reflexivity. }
  rewrite Hrun. simpl. split; [done|]. split; [done|]. split; [done|].
  subst canvas. rewrite stacked_canvas_size, stacked_canvas_pasted. simpl.
  split; [|split; [|done]].
  - intros img Hin. apply max_of_upper. apply list_elem_of_fmap. eauto.
  - assert (Hmax : max_of (map width images) ∈ map width images).
    { apply max_of_attained. by destruct images. }
    apply list_elem_of_fmap in Hmax as (img & E & Hin). eauto.
Qed.

End StackerFacts.

(** ** The handler, step by step *)

Section HandlerFacts.

Context `{NetLib} `{ImageLib} `{WorkerModule} `{Runtime}.

Lemma check_authorization_cases (hs : list (string * string)) (w : world) :
  snd (check_authorization hs w) = w /\
  forall r, result_of (check_authorization hs w) = inr (Some r) ->
            exists msg, r = JsonError 401 msg.
Proof.
  unfold check_authorization.
  destruct (0 <? length SCRAPER_API_KEYS)%nat; [|split; [done | discriminate]].
  destruct (header_get "Authorization" hs) as [auth|];
    [|split; [done | intros r [= <-]; eauto]].
  destruct (negb (PyStr.startswith "Bearer " auth));
    [split; [done | intros r [= <-]; eauto]|].
  unfold list_item. munfold.
  destruct (PyStr.split " " auth !! 1%nat) as [key|]; simpl; [|split; [done | discriminate]].
  destruct (negb (bool_decide (key ∈ SCRAPER_API_KEYS))); simpl;
    (split; [done|]); [intros r [= <-]; eauto | discriminate].
Qed.

Lemma check_browser_dim_cases (browser_dim : list Z) (w : world) :
  let run := check_browser_dim [(0%nat, "width"); (1%nat, "height")] browser_dim w in
  snd run = w /\
  (fst run = inr None <-> dim_in_bounds browser_dim = true) /\
  (forall r, fst run = inr (Some r) -> exists msg, r = JsonError 400 msg) /\
  (dim_in_bounds browser_dim = false -> (2 <= length browser_dim)%nat ->
     exists msg, fst run = inr (Some (JsonError 400 msg))).
Proof.
  unfold dim_in_bounds. simpl. unfold list_item. munfold.
  destruct browser_dim as [|bw [|bh rest]]; simpl.
  - repeat split; try discriminate. simpl. lia.
  - destruct (Z.gtb_spec bw (fst MAX_BROWSER_DIM));
    destruct (Z.ltb_spec bw (fst MIN_BROWSER_DIM)); simpl;
      repeat split; try discriminate; try (intros r [= <-]; eauto); simpl; lia.
  - destruct (Z.gtb_spec bw (fst MAX_BROWSER_DIM));
    destruct (Z.ltb_spec bw (fst MIN_BROWSER_DIM));
    destruct (Z.gtb_spec bh (snd MAX_BROWSER_DIM));
    destruct (Z.ltb_spec bh (snd MIN_BROWSER_DIM)); simpl;
    destruct (Z.leb_spec (fst MIN_BROWSER_DIM) bw);
    destruct (Z.leb_spec bw (fst MAX_BROWSER_DIM));
    destruct (Z.leb_spec (snd MIN_BROWSER_DIM) bh);
    destruct (Z.leb_spec bh (snd MAX_BROWSER_DIM)); simpl;
      try lia; repeat split; try discriminate; try done;
      try (intros r [= <-]; eauto); eauto.
Qed.


Lemma validate_request_grows (req : Request) :
  respects (grows_by validator_event) (validate_request req).
Proof.
  unfold validate_request.
  split_if; [grows|]. grows; [apply url_is_safe_grows|].
  split_if; [grows|]. split_if; [grows|]. grows.
  - intros w.
    destruct (check_browser_dim_cases
                (default DEFAULT_BROWSER_DIM (json_browser_dim req)) w) as [-> _].
    reflexivity.
  - match goal with |- respects _ (match ?x with _ => _ end) => destruct x end; [grows|].
    split_if; grows.
Qed.

(** What the validation has established when it lets a request through,
    and the only way it turns one down. *)
Lemma validate_request_cases (req : Request) (w : world) :
  (forall v, result_of (validate_request req w) = inr (inr v) ->
     url_present req = true /\ bounds_ok req = true /\
     v = {| v_url := default EmptyString (json_url req);
            v_wait := default DEFAULT_WAIT (json_wait req);
            v_n_screenshots := default DEFAULT_SCREENSHOTS (json_max_screenshots req);
            v_browser_dim := default DEFAULT_BROWSER_DIM (json_browser_dim req) |}) /\
  (forall r, result_of (validate_request req w) = inr (inl r) ->
     exists msg, r = JsonError 400 msg).
Proof.
  unfold validate_request, url_present, bounds_ok, wait_in_bounds, screenshots_in_bounds.
  set (wait := default DEFAULT_WAIT (json_wait req)).
  set (n := default DEFAULT_SCREENSHOTS (json_max_screenshots req)).
  set (dim := default DEFAULT_BROWSER_DIM (json_browser_dim req)).
  pose proof (check_browser_dim_cases dim) as Hdim. cbv zeta in Hdim.
  revert Hdim.
  generalize (check_browser_dim [(0%nat, "width"); (1%nat, "height")] dim).
  intros check Hdim.
  destruct (PyStr.truthy (json_url req)); simpl;
    [|split; [discriminate | intros r [= <-]; eauto]].
  rewrite run_bind. unfold result_of.
  destruct (url_is_safe _ None w) as [[e|[|]] w1]; simpl;
    [split; discriminate | | split; [discriminate | intros r [= <-]; eauto]].
  destruct (Z.ltb_spec wait 0); simpl;
    [split; [discriminate | intros r [= <-]; eauto]|].
  destruct (Z.gtb_spec wait MAX_WAIT); simpl;
    [split; [discriminate | intros r [= <-]; eauto]|].
  rewrite run_bind.
  destruct (Hdim w1) as (Hw & Hnone & Hsome & _).
  destruct (check w1) as [[e|[r|]] w2]; simpl in *;
    [split; discriminate | split; [discriminate | intros r' [= <-]; eauto] |].
  destruct (Z.gtb_spec n MAX_SCREENSHOTS); simpl;
    [split; [discriminate | intros r [= <-]; eauto]|].
  split; [|discriminate]. intros v [= <-].
  split; [done|]. split; [|done].
  destruct Hnone as [Hn _]. rewrite (Hn eq_refl).
  destruct (Z.leb_spec 0 wait); [|lia].
  destruct (Z.leb_spec wait MAX_WAIT); [|lia].
  destruct (Z.leb_spec n MAX_SCREENSHOTS); [|lia]. reflexivity.
Qed.

Lemma negotiate_format_cases (hs : list (string * string)) :
  match negotiate_format hs with
  | inl r => exists msg, r = JsonError 406 msg
  | inr fmt => exists accept, dict_get accept accepted_formats = Some fmt
  end.
Proof.
  unfold negotiate_format.
  destruct (dict_get _ accepted_formats) as [fmt|] eqn:E; cbv [PyStr.truthy].
  - destruct (PyStr.nonempty fmt); cbv [negb default]; eauto.
  - cbv [negb]. eauto.
Qed.

Lemma open_all_grows (P : event -> Prop) (files : list string) :
  respects (grows_by P) (open_all files).
Proof.
  induction files as [|p rest IH]; simpl; [grows|].
  grows; [|exact IH].
  unfold Image_open. grows.
  destruct (_ !! p); [|grows]. destruct (image_decode _); grows.
Qed.

Lemma stack_images_vertically_grows (files : list string) (fmt : string) :
  respects (grows_by stacker_event) (stack_images_vertically files fmt).
Proof.
  unfold stack_images_vertically.
  destruct files as [|p1 [|p2 rest]]; [grows | grows |].
  unfold Image_save. grows; try exact I. apply open_all_grows.
Qed.

Ltac run_task :=
  match goal with
  | |- context [scrape_task ?a ?b ?c ?d ?e ?f] =>
      destruct (scrape_task a b c d e f) as [[?|?] ?]
  end.

(** The events of [respond]: one dispatch, carrying the validated values
    and the negotiated format, then what the stacker does. *)
Lemma dispatch_grows (v : Validated) (fmt : string) :
  respects (grows_by (responder_event v fmt)) (dispatch v fmt).
Proof.
  unfold dispatch, run_scrape_task, print_stderr. grows; try done.
  destruct (scrape_task _ _ _ _ _ _) as [r f']. grows.
Qed.

Lemma assemble_grows (fmt : string) (res : ScrapeResult) (hs : dict) :
  respects (grows_by stacker_event) (assemble fmt res hs).
Proof.
  unfold assemble. split_if; [|grows]. grows.
  destruct (screenshot_files res); [grows|].
  apply stack_images_vertically_grows.
Qed.

Lemma stacker_event_responder (v : Validated) (fmt : string) (e : event) :
  stacker_event e -> responder_event v fmt e.
Proof. by destruct e. Qed.

Lemma respond_grows (v : Validated) (fmt : string) :
  respects (grows_by (responder_event v fmt)) (respond v fmt).
Proof.
  unfold respond. grows; [apply dispatch_grows|].
  match goal with |- respects _ (match ?x with _ => _ end) => destruct x as [|[res hs]] end;
    [grows|].
  eapply respects_weaken; [apply stacker_event_responder | apply assemble_grows].
Qed.

Lemma dispatch_dispatches (v : Validated) (fmt : string) (w : world) :
  dispatch_event v fmt ∈ trace (snd (dispatch v fmt w)).
Proof.
  unfold dispatch, run_scrape_task. munfold. simpl.
  run_task; simpl; rewrite ?elem_of_app, ?list_elem_of_singleton; tauto.
Qed.

Lemma respond_dispatches (v : Validated) (fmt : string) (w : world) :
  dispatch_event v fmt ∈ trace (world_of (respond v fmt w)).
Proof.
  unfold respond, world_of. rewrite run_bind.
  pose proof (dispatch_dispatches v fmt w) as Hd.
  destruct (dispatch v fmt w) as [[e|[failed|[res hs]]] w1]; simpl in *; try done.
  destruct (assemble_grows fmt res hs w1) as (evs & -> & _).
  apply elem_of_app. by left.
Qed.

(** The responses [respond] can build. *)
Lemma dispatch_failure (v : Validated) (fmt : string) (w : world) (r : Response) :
  result_of (dispatch v fmt w) = inr (inl r) -> exists msg, r = JsonError 500 msg.
Proof.
  unfold dispatch, run_scrape_task. munfold. simpl.
  run_task; simpl.
  - intros [= <-]. eauto.
  - discriminate.
Qed.

Lemma assemble_cases (fmt : string) (res : ScrapeResult) (hs : dict) (w : world)
    (r : Response) :
  result_of (assemble fmt res hs w) = inr r ->
  (exists msg, r = JsonError 500 msg) \/
  (exists body, r = Streamed 200 ("multipart/mixed; boundary=" +:+ boundary_literal) body /\
                cl_boundary body = boundary_literal /\ cl_image_format body = fmt).
Proof.
  unfold assemble, result_of.
  destruct (PyStr.truthy (content_file res)); [|intros [= <-]; eauto].
  rewrite run_bind.
  match goal with
  | |- context [match ?m w with _ => _ end] => destruct (m w) as [[e|st] w1]
  end; [discriminate|].
  intros [= <-]. right. eexists. split; [reflexivity|]. done.
Qed.

Lemma respond_cases (v : Validated) (fmt : string) (w : world) (r : Response) :
  result_of (respond v fmt w) = inr r ->
  (exists msg, r = JsonError 500 msg) \/
  (exists body, r = Streamed 200 ("multipart/mixed; boundary=" +:+ boundary_literal) body /\
                cl_boundary body = boundary_literal /\ cl_image_format body = fmt).
Proof.
  unfold respond, result_of. rewrite run_bind.
  pose proof (dispatch_failure v fmt w) as Hfail.
  destruct (dispatch v fmt w) as [[e|[failed|[res hs]]] w1]; simpl in *.
  - discriminate.
  - intros [= <-]. left. by apply Hfail.
  - apply assemble_cases.
Qed.

(** Every response of the handler, by the stage that produced it. *)
Lemma scrape_cases (req : Request) (w : world) (r : Response) :
  result_of (scrape req w) = inr r ->
  (exists msg, r = JsonError 401 msg) \/
  (exists msg, r = JsonError 400 msg) \/
  (exists msg, r = JsonError 406 msg /\ negotiate_format (req_headers req) = inl r) \/
  (exists msg, r = JsonError 500 msg) \/
  (exists body, r = Streamed 200 ("multipart/mixed; boundary=" +:+ boundary_literal) body /\
                cl_boundary body = boundary_literal).
Proof.
  unfold scrape, result_of. rewrite run_bind.
  destruct (check_authorization_cases (req_headers req) w) as [Hw Hauth].
  destruct (check_authorization (req_headers req) w) as [[e|[denied|]] w0];
    simpl in *; [discriminate | intros [= <-]; left; by apply Hauth |].
  rewrite run_bind.
  destruct (validate_request_cases req w0) as [_ Hbad].
  destruct (validate_request req w0) as [[e|[bad|v]] w1]; simpl in *;
    [discriminate | intros [= <-]; right; left; by apply Hbad |].
  pose proof (negotiate_format_cases (req_headers req)) as Hneg.
  destruct (negotiate_format (req_headers req)) as [no|fmt].
  - intros [= <-]. destruct Hneg as [msg ->]. right; right; left. eauto.
  - intros Hr. apply respond_cases in Hr as [?|(body & ? & ? & _)]; eauto 10.
Qed.

#[local] Arguments check_browser_dim : simpl never.

Ltac zbool :=
  repeat match goal with
    | |- context [Z.leb ?a ?b] => destruct (Z.leb_spec a b)
    end;
  simpl; try reflexivity; try lia.

Lemma scrape_authorized (req : Request) (w : world) :
  result_of (check_authorization (req_headers req) w) = inr None ->
  scrape req w =
    (checked ← validate_request req;
     match checked with
     | inl r => ret r
     | inr v =>
         match negotiate_format (req_headers req) with
         | inl r => ret r
         | inr image_format => respond v image_format
         end
     end) w.
Proof.
  intros Hauth. unfold scrape. rewrite run_bind.
  destruct (check_authorization_cases (req_headers req) w) as [Hw _].
  destruct (check_authorization (req_headers req) w) as [r w0].
  simpl in *. subst w0 r. reflexivity.
Qed.

Lemma scrape_rejects (req : Request) (w : world) (r : Response) :
  result_of (check_authorization (req_headers req) w) = inr None ->
  result_of (validate_request req w) = inr (inl r) ->
  result_of (scrape req w) = inr r.
Proof.
  intros Hauth Hval. rewrite scrape_authorized by done.
  unfold result_of in *. rewrite run_bind.
  destruct (validate_request req w) as [x w1]. simpl in Hval. subst x. reflexivity.
Qed.

Lemma scrape_accepts (req : Request) (w : world) (v : Validated) :
  result_of (check_authorization (req_headers req) w) = inr None ->
  result_of (validate_request req w) = inr (inr v) ->
  forall msg, result_of (scrape req w) <> inr (JsonError 400 msg).
Proof.
  intros Hauth Hval msg. rewrite scrape_authorized by done.
  unfold result_of in *. rewrite run_bind.
  destruct (validate_request req w) as [x w1]. simpl in Hval. subst x.
  pose proof (negotiate_format_cases (req_headers req)) as Hneg.
  destruct (negotiate_format (req_headers req)) as [no|fmt].
  - destruct Hneg as [m ->]. discriminate.
  - intros Hr. apply respond_cases in Hr as [(m & [=]) | (body & [=] & _)].
Qed.

(** With the URL present and judged safe, the validation of a request that
    spells out its fields is decided by the bounds alone. *)
Lemma validate_post_bad_wait (hs : list (string * string)) (url : string)
    (wait n : Z) (dim : list Z) (w : world) :
  PyStr.nonempty url = true ->
  result_of (url_is_safe url None w) = inr true ->
  wait_in_bounds wait = false ->
  exists msg, result_of (validate_request (post hs url wait n dim) w)
              = inr (inl (JsonError 400 msg)).
Proof.
  intros Hurl Hsafe Hwait. unfold validate_request, result_of in *. simpl.
  rewrite Hurl. simpl. rewrite run_bind.
  destruct (url_is_safe url None w) as [x w1]. simpl in Hsafe. subst x. simpl.
  unfold wait_in_bounds in Hwait.
  destruct (Z.ltb_spec wait 0); simpl; [eauto|].
  destruct (Z.gtb_spec wait MAX_WAIT); simpl; [eauto|].
  destruct (Z.leb_spec 0 wait); [|lia].
  destruct (Z.leb_spec wait MAX_WAIT); [discriminate | lia].
Qed.

Lemma validate_post_decided (hs : list (string * string)) (url : string)
    (wait n : Z) (dim : list Z) (w : world) :
  PyStr.nonempty url = true ->
  result_of (url_is_safe url None w) = inr true ->
  (2 <= length dim)%nat ->
  let req := post hs url wait n dim in
  if bounds_ok req
  then result_of (validate_request req w)
       = inr (inr {| v_url := url; v_wait := wait;
                     v_n_screenshots := n; v_browser_dim := dim |})
  else exists msg, result_of (validate_request req w) = inr (inl (JsonError 400 msg)).
Proof.
  intros Hurl Hsafe Hlen req.
  destruct (wait_in_bounds wait) eqn:Hwait.
  2:{ unfold bounds_ok. simpl. rewrite Hwait. simpl.
      by apply validate_post_bad_wait. }
  unfold bounds_ok, req. simpl. rewrite Hwait. simpl.
  unfold validate_request, result_of in *. simpl.
  pose proof (check_browser_dim_cases dim) as Hdim. cbv zeta in Hdim. revert Hdim.
  generalize (check_browser_dim [(0%nat, "width"); (1%nat, "height")] dim).
  intros check Hdim.
  rewrite Hurl. simpl. rewrite run_bind.
  destruct (url_is_safe url None w) as [x w1]. simpl in Hsafe. subst x. simpl.
  unfold wait_in_bounds in Hwait. apply andb_true_iff in Hwait as [H0w Hwm].
  apply Z.leb_le in H0w, Hwm.
  destruct (Z.ltb_spec wait 0); [lia|].
  destruct (Z.gtb_spec wait MAX_WAIT); [lia|]. simpl.
  rewrite run_bind.
  destruct (Hdim w1) as (Hw & Hnone & _ & Hbad).
  destruct (dim_in_bounds dim) eqn:Hd; simpl.
  - destruct Hnone as [_ Hn]. specialize (Hn eq_refl).
    destruct (check w1) as [x w2]. simpl in Hn. subst x. simpl.
    unfold screenshots_in_bounds.
    destruct (Z.gtb_spec n MAX_SCREENSHOTS); destruct (Z.leb_spec n MAX_SCREENSHOTS);
      simpl; try lia; eauto.
  - destruct (Hbad eq_refl Hlen) as [msg Hm].
    destruct (check w1) as [x w2]. simpl in Hm. subst x. simpl. eauto.
Qed.

(** C6. With the request authorized and its URL present and judged safe,
    and with bounds that leave room (0 <= MAX_WAIT, minimum <= maximum on
    each axis): wait = -1 and wait = MAX_WAIT + 1 are answered 400 while
    wait = 0 and wait = MAX_WAIT pass the validation; a browser_dim axis one
    below its minimum or one above its maximum is answered 400 while the
    values at the bounds pass; max_screenshots = MAX_SCREENSHOTS + 1 is
    answered 400 while MAX_SCREENSHOTS passes.  A request passes when the
    validation hands on its values and the handler does not answer 400. *)
Theorem validation_bounds_inclusive (hs : list (string * string)) (url : string)
    (w : world) :
  result_of (check_authorization hs w) = inr None ->
  PyStr.nonempty url = true ->
  result_of (url_is_safe url None w) = inr true ->
  0 <= MAX_WAIT ->
  fst MIN_BROWSER_DIM <= fst MAX_BROWSER_DIM ->
  snd MIN_BROWSER_DIM <= snd MAX_BROWSER_DIM ->
  let rejected req := exists msg, result_of (scrape req w) = inr (JsonError 400 msg) in
  let passes req :=
    (exists v, result_of (validate_request req w) = inr (inr v)) /\
    (forall msg, result_of (scrape req w) <> inr (JsonError 400 msg)) in
  (forall n dim,
     rejected (post hs url (-1) n dim) /\ rejected (post hs url (MAX_WAIT + 1) n dim)) /\
  (forall n dim, screenshots_in_bounds n = true -> dim_in_bounds dim = true ->
     passes (post hs url 0 n dim) /\ passes (post hs url MAX_WAIT n dim)) /\
  (forall wait n bw bh,
     rejected (post hs url wait n [fst MIN_BROWSER_DIM - 1; bh]) /\
     rejected (post hs url wait n [fst MAX_BROWSER_DIM + 1; bh]) /\
     rejected (post hs url wait n [bw; snd MIN_BROWSER_DIM - 1]) /\
     rejected (post hs url wait n [bw; snd MAX_BROWSER_DIM + 1])) /\
  (forall wait n bw bh,
     wait_in_bounds wait = true -> screenshots_in_bounds n = true ->
     bw = fst MIN_BROWSER_DIM \/ bw = fst MAX_BROWSER_DIM ->
     bh = snd MIN_BROWSER_DIM \/ bh = snd MAX_BROWSER_DIM ->
     passes (post hs url wait n [bw; bh])) /\
  (forall wait dim, (2 <= length dim)%nat ->
     rejected (post hs url wait (MAX_SCREENSHOTS + 1) dim)) /\
  (forall wait dim, wait_in_bounds wait = true -> dim_in_bounds dim = true ->
     passes (post hs url wait MAX_SCREENSHOTS dim)).
Proof.
  intros Hauth Hurl Hsafe Hwait Hwidth Hheight rejected passes.
  assert (Hreject : forall wait n dim,
            (2 <= length dim)%nat -> bounds_ok (post hs url wait n dim) = false ->
            rejected (post hs url wait n dim)).
  { intros wait n dim Hlen Hno.
    pose proof (validate_post_decided hs url wait n dim w Hurl Hsafe Hlen) as Hd.
    cbv zeta in Hd. rewrite Hno in Hd. destruct Hd as [msg Hd].
    exists msg. by apply scrape_rejects. }
  assert (Hpass : forall wait n dim,
            bounds_ok (post hs url wait n dim) = true ->
            passes (post hs url wait n dim)).
  { intros wait n dim Hok.
    assert (Hlen : (2 <= length dim)%nat).
    { unfold bounds_ok in Hok. simpl in Hok.
      apply andb_true_iff in Hok as [Hok _]. apply andb_true_iff in Hok as [_ Hok].
      destruct dim as [|? [|? ?]]; simpl in *; try discriminate; lia. }
    pose proof (validate_post_decided hs url wait n dim w Hurl Hsafe Hlen) as Hd.
    cbv zeta in Hd. rewrite Hok in Hd.
    split; [eauto|]. eapply scrape_accepts; eauto. }
  assert (Hbadwait : forall wait n dim, wait_in_bounds wait = false ->
            rejected (post hs url wait n dim)).
  { intros wait n dim Hno.
    destruct (validate_post_bad_wait hs url wait n dim w Hurl Hsafe Hno) as [msg Hd].
    exists msg. by apply scrape_rejects. }
  split; [|split; [|split; [|split; [|split]]]].
  - intros n dim. split; apply Hbadwait; unfold wait_in_bounds; zbool.
  - intros n dim Hn Hd.
    split; apply Hpass; unfold bounds_ok; simpl; rewrite Hn, Hd;
      unfold wait_in_bounds; zbool.
  - intros wait n bw bh.
    repeat split; (apply Hreject; [simpl; lia|]); unfold bounds_ok; simpl;
      destruct (wait_in_bounds wait), (screenshots_in_bounds n); simpl; zbool.
  - intros wait n bw bh Hw Hn Hbw Hbh.
    apply Hpass. unfold bounds_ok. simpl. rewrite Hw, Hn.
    destruct Hbw, Hbh; subst; zbool.
  - intros wait dim Hlen. apply Hreject; [done|]. unfold bounds_ok. simpl.
    destruct (wait_in_bounds wait), (dim_in_bounds dim); simpl;
      unfold screenshots_in_bounds; zbool.
  - intros wait dim Hw Hd. apply Hpass. unfold bounds_ok. simpl. rewrite Hw, Hd.
    unfold screenshots_in_bounds. zbool.
Qed.


(** C5 (amended). Every streamed response carries the same boundary
    token, the literal of the source, in its body and in its mimetype. *)
Theorem boundary_is_the_literal (req : Request) (w : world) (code : Z)
    (mimetype : string) (body : StreamClosure) :
  result_of (scrape req w) = inr (Streamed code mimetype body) ->
  cl_boundary body = "Boundary712sAM12MVaJff23NXJ" /\
  mimetype = "multipart/mixed; boundary=Boundary712sAM12MVaJff23NXJ".
Proof.
  intros Hr.
  apply scrape_cases in Hr
    as [(m & [=]) | [(m & [=]) | [(m & [=] & _) | [(m & [=]) | (b & [= _ -> <-] & Hb)]]]].
  split; [exact Hb | reflexivity].
Qed.

(** C10. A request without an Accept header is never answered 406: the
    format negotiated is jpeg, every dispatch the handler makes asks for
    jpeg, and a request that is authorized and passes the validation is
    dispatched to the worker. *)
Theorem missing_accept_defaults_to_jpeg (req : Request) (w : world) :
  header_get "Accept" (req_headers req) = None ->
  negotiate_format (req_headers req) = inr "jpeg" /\
  (forall r, result_of (scrape req w) = inr r -> response_code r <> 406) /\
  (forall url wait fmt n dim,
     Dispatch url wait fmt n dim ∈ trace (world_of (scrape req w)) ->
     Dispatch url wait fmt n dim ∈ trace w \/ fmt = "jpeg") /\
  (forall v, result_of (check_authorization (req_headers req) w) = inr None ->
     result_of (validate_request req w) = inr (inr v) ->
     dispatch_event v "jpeg" ∈ trace (world_of (scrape req w))).
Proof.
  intros Hnone.
  assert (Hneg : negotiate_format (req_headers req) = inr "jpeg").
  { unfold negotiate_format. rewrite Hnone. reflexivity. }
  split; [exact Hneg|]. split; [|split].
  - intros r Hr.
    apply scrape_cases in Hr
      as [(m & ->) | [(m & ->) | [(m & -> & Hno) | [(m & ->) | (b & -> & _)]]]];
      simpl; try lia.
    rewrite Hneg in Hno. discriminate.
  - intros url wait fmt n dim.
    unfold scrape, world_of. rewrite run_bind.
    destruct (check_authorization_cases (req_headers req) w) as [Hw _].
    destruct (check_authorization (req_headers req) w) as [[e|[denied|]] w0];
      simpl in *; subst w0; try tauto.
    rewrite run_bind.
    destruct (validate_request_grows req w) as (evs & Hevs & Hnodisp).
    destruct (validate_request req w) as [[e|[bad|v]] w1]; simpl in *.
    1,2: rewrite Hevs, elem_of_app; intros [?|Hin]; [tauto|];
         rewrite Forall_forall in Hnodisp; by apply Hnodisp in Hin.
    rewrite Hneg.
    destruct (respond_grows v "jpeg" w1) as (evs' & -> & Hresp).
    rewrite Hevs, !elem_of_app. intros [[?|Hin]|Hin]; [tauto| |].
    + rewrite Forall_forall in Hnodisp. by apply Hnodisp in Hin.
    + rewrite Forall_forall in Hresp. apply Hresp in Hin.
      injection Hin as _ _ -> _ _. by right.
  - intros v Hauth Hval. rewrite scrape_authorized by done.
    unfold world_of, result_of in *. rewrite run_bind.
    destruct (validate_request req w) as [x w1]. simpl in Hval. subst x.
    rewrite Hneg. apply respond_dispatches.
Qed.

End HandlerFacts.

(** ** The generator: deletions *)

Lemma unlinked_paths_app (a b : list event) :
  unlinked_paths (a ++ b) = unlinked_paths a ++ unlinked_paths b.
Proof. apply omap_app. Qed.

Lemma yielded_chunks_app (a b : list event) :
  yielded_chunks (a ++ b) = yielded_chunks a ++ yielded_chunks b.
Proof. apply omap_app. Qed.

Lemma unlinked_paths_none (evs : list event) :
  Forall not_unlinked evs -> unlinked_paths evs = [].
Proof.
  induction 1 as [|e evs He _ IH]; [reflexivity|].
  destruct e; simpl in *; try done.
Qed.

Lemma yielded_chunks_none (evs : list event) :
  Forall not_yielded evs -> yielded_chunks evs = [].
Proof.
  induction 1 as [|e evs He _ IH]; [reflexivity|].
  destruct e; simpl in *; try done.
Qed.

Lemma deletes_once_refl (w : world) : deletes_once w w.
Proof.
  exists []. rewrite app_nil_r. split; [done|]. split; [constructor|].
  split; [|done]. intros p Hp. by apply elem_of_nil in Hp.
Qed.

Lemma deletes_once_trans (w1 w2 w3 : world) :
  deletes_once w1 w2 -> deletes_once w2 w3 -> deletes_once w1 w3.
Proof.
  intros (e1 & E1 & N1 & D1 & K1) (e2 & E2 & N2 & D2 & K2).
  exists (e1 ++ e2). rewrite unlinked_paths_app. split; [|split; [|split]].
  - by rewrite E2, E1, app_assoc.
  - apply NoDup_app. repeat split; [done| |done].
    intros p Hp1 Hp2. destruct (D1 p Hp1) as [_ Hgone].
    destruct (D2 p Hp2) as [[x Hx] _]. congruence.
  - intros p Hp. apply elem_of_app in Hp as [Hp|Hp].
    + split; [by apply D1 | apply K2; by apply D1].
    + split; [|by apply D2].
      destruct (D2 p Hp) as [Hsome _].
      destruct (fs w1 !! p) eqn:E; [done|].
      apply K1 in E. rewrite E in Hsome. by destruct Hsome.
  - intros p Hp. by apply K2, K1.
Qed.

#[export] Instance deletes_once_preorder : PreOrder deletes_once.
Proof.
  split.
  - intros w. apply deletes_once_refl.
  - intros w1 w2 w3. apply deletes_once_trans.
Qed.

Lemma deletes_emit (e : event) : not_unlinked e -> respects deletes_once (emit e).
Proof.
  intros He w. exists [e].
  assert (Hnone : unlinked_paths [e] = []) by (by destruct e).
  rewrite Hnone. split; [done|]. split; [constructor|].
  split; [|done]. intros p Hp. by apply elem_of_nil in Hp.
Qed.

Lemma deletes_os_unlink (p : string) : respects deletes_once (os_unlink p).
Proof.
  intros w. unfold os_unlink.
  destruct (fs w !! p) as [data|] eqn:E; [|apply deletes_once_refl].
  case_bool_decide; [apply deletes_once_refl|].
  exists [Unlinked p]. simpl. split; [done|]. split; [apply NoDup_singleton|].
  split.
  - intros q Hq. apply list_elem_of_singleton in Hq as ->.
    split; [by rewrite E | apply lookup_delete_eq].
  - intros q Hq. apply lookup_delete_None. by right.
Qed.

Ltac follows :=
  repeat match goal with
    | |- respects deletes_once (emit _) => apply deletes_emit
    | |- respects deletes_once (os_unlink _) => apply deletes_os_unlink
    | |- respects _ (if ?c then _ else _) => destruct c
    | _ => progress grows
    end.


Lemma never_raises_for_each {A} (xs : list A) (body : A -> M unit) :
  (forall x, never_raises (body x)) -> never_raises (for_each xs body).
Proof.
  intros Hb. induction xs as [|x rest IH]; intros w; simpl; [by exists tt|].
  rewrite run_bind. destruct (Hb x w) as [[] Hx].
  destruct (body x w) as [r w1]. simpl in Hx. subst r. apply IH.
Qed.

Lemma never_raises_caught {A} (body : M A) (handler : exn -> M A) :
  (forall e, never_raises (handler e)) ->
  never_raises (try_except any_Exception body handler).
Proof.
  intros Hh w. unfold try_except.
  destruct (body w) as [[e|a] w1]; simpl; [apply Hh | eauto].
Qed.

Lemma never_raises_print (msg : string) : never_raises (print_stderr msg).
Proof. intros w. by exists tt. Qed.

Section StreamFacts.

Context `{Runtime}.

Lemma stream_never_raises (c : StreamClosure) : never_raises (stream c).
Proof.
  intros w. unfold stream, try_finally.
  destruct (never_raises_caught (stream_body c)
              (fun e => print_stderr ("Error during streaming: " +:+ exn_str e))
              (fun e => never_raises_print _) w) as [[] Hb].
  destruct (try_except _ _ _ w) as [r w1]. simpl in Hb. subst r.
  apply never_raises_for_each. intros p. unfold guarded_unlink.
  apply never_raises_caught.
  intros e. apply never_raises_print.
Qed.

Lemma yield_file_respects (R : world -> world -> Prop) `{!PreOrder R} (p : string) :
  (forall chunk, respects R (yield chunk)) -> respects R (yield_file p).
Proof. intros Hy. unfold yield_file. grows. apply Hy. Qed.


End StreamFacts.

Section ServeFacts.

Context `{NetLib} `{ImageLib} `{WorkerModule} `{Runtime}.

(** The handler itself neither deletes nor streams. *)
Lemma scrape_handler_events (req : Request) :
  respects (grows_by handler_event) (scrape req).
Proof.
  intros w. unfold scrape. rewrite run_bind.
  destruct (check_authorization_cases (req_headers req) w) as [Hw _].
  destruct (check_authorization (req_headers req) w) as [[e|[denied|]] w0];
    simpl in *; subst w0; try apply grows_by_refl.
  rewrite run_bind.
  assert (Hval : grows_by handler_event w (snd (validate_request req w))).
  { eapply grows_by_weaken; [|apply validate_request_grows]. intros e. by destruct e. }
  destruct (validate_request req w) as [[e|[bad|v]] w1]; simpl in *; try done.
  destruct (negotiate_format (req_headers req)) as [no|fmt]; [done|].
  eapply grows_by_trans; [exact Hval|].
  eapply grows_by_weaken; [|apply (respond_grows v fmt)].
  intros e. by destruct e.
Qed.

End ServeFacts.

(** ** The generator: what it streams *)

Lemma append_assoc (a b c : string) : (a +:+ b) +:+ c = a +:+ (b +:+ c).
Proof.
  induction a as [|x a IH]; [reflexivity|].
  change (String x ((a +:+ b) +:+ c) = String x (a +:+ (b +:+ c))).
  by rewrite IH.
Qed.

Lemma append_empty (a : string) : a +:+ EmptyString = a.
Proof.
  induction a as [|x a IH]; [reflexivity|].
  change (String x (a +:+ EmptyString) = String x a). by rewrite IH.
Qed.

Lemma take_drop_bytes (n : nat) (s : string) :
  take_bytes n s +:+ drop_bytes n s = s.
Proof.
  revert s. induction n as [|n IH]; intros [|c s]; try reflexivity.
  change (String c (take_bytes n s +:+ drop_bytes n s) = String c s).
  by rewrite IH.
Qed.

Lemma drop_bytes_shorter (n : nat) (c : ascii) (s : string) :
  (String.length (drop_bytes (S n) (String c s)) <= String.length s)%nat.
Proof.
  simpl. revert s. induction n as [|n IH]; intros s; simpl; [lia|].
  destruct s as [|c' s]; simpl; [lia|]. etransitivity; [apply IH | lia].
Qed.

Lemma read_chunks_unfold (fuel : nat) (rest : string) :
  read_chunks (S fuel) rest =
    if PyStr.nonempty (take_bytes CHUNK rest)
    then take_bytes CHUNK rest :: read_chunks fuel (drop_bytes CHUNK rest)
    else [].
Proof. reflexivity. Qed.

(** Enough reads are allowed: the chunks make up the file. *)
Lemma read_chunks_whole (fuel : nat) (data : string) :
  (String.length data < fuel)%nat -> body_of (read_chunks fuel data) = data.
Proof.
  assert (HC : CHUNK = S (pred CHUNK)) by reflexivity.
  revert data. induction fuel as [|fuel IH]; intros data Hlen; [lia|].
  rewrite read_chunks_unfold.
  destruct data as [|c s]; [reflexivity|].
  rewrite HC.
  change (body_of (take_bytes (S (pred CHUNK)) (String c s)
                   :: read_chunks fuel (drop_bytes (S (pred CHUNK)) (String c s)))
          = String c s).
  unfold body_of. cbn [foldr].
  fold (body_of (read_chunks fuel (drop_bytes (S (pred CHUNK)) (String c s)))).
  rewrite IH; [apply take_drop_bytes|].
  pose proof (drop_bytes_shorter (pred CHUNK) c s) as Hd.
  change (String.length (String c s)) with (S (String.length s)) in Hlen. lia.
Qed.

Lemma file_chunks_whole (data : string) : body_of (Multipart.file_chunks data) = data.
Proof. apply read_chunks_whole. lia. Qed.

Lemma body_of_app (a b : list string) : body_of (a ++ b) = body_of a +:+ body_of b.
Proof.
  induction a as [|x a IH]; simpl; [reflexivity|].
  by rewrite IH, append_assoc.
Qed.

Lemma yielded_chunks_map (chunks : list string) :
  yielded_chunks (map Yielded chunks) = chunks.
Proof. induction chunks as [|x l IH]; simpl; [reflexivity | by f_equal]. Qed.

Lemma for_each_yield (chunks : list string) (w : world) :
  for_each chunks yield w = (inr tt, with_events w (map Yielded chunks)).
Proof.
  revert w. induction chunks as [|ch rest IH]; intros w; simpl.
  - unfold with_events. simpl. rewrite app_nil_r. by destruct w.
  - rewrite run_bind. unfold yield at 1, emit. rewrite IH.
    unfold with_events. simpl. by rewrite <- app_assoc.
Qed.

Lemma yield_file_runs (p data : string) (w : world) :
  fs w !! p = Some data ->
  yield_file p w = (inr tt, with_events w (map Yielded (Multipart.file_chunks data))).
Proof.
  intros Hp. unfold yield_file, open_rb. rewrite !run_bind. simpl.
  rewrite Hp. simpl. apply for_each_yield.
Qed.

Lemma with_events_twice (w : world) (a b : list event) :
  with_events (with_events w a) b = with_events w (a ++ b).
Proof. unfold with_events. simpl. by rewrite <- app_assoc. Qed.

Lemma yield_runs (chunk : string) (w : world) :
  yield chunk w = (inr tt, with_events w [Yielded chunk]).
Proof. reflexivity. Qed.

Section StreamOrder.

Context `{Runtime}.

Lemma info_head_text (boundary : string) :
  "--" +:+ boundary +:+ Chars.CRLF
  +:+ "Content-Type: application/json" +:+ Chars.CRLF
  +:+ content_disposition "info.json" +:+ Chars.CRLF
  = Multipart.info_head boundary.
Proof.
  unfold Multipart.info_head, Multipart.boundary_line, Multipart.disposition,
    Multipart.header, content_disposition.
  rewrite !append_assoc. reflexivity.
Qed.

Lemma binary_head_text (boundary filename content_type : string) :
  Chars.CRLF +:+ "--" +:+ boundary +:+ Chars.CRLF
  +:+ content_disposition filename
  +:+ "Content-Transfer-Encoding: binary" +:+ Chars.CRLF
  +:+ "Content-Type: " +:+ content_type +:+ Chars.CRLF +:+ Chars.CRLF
  = Multipart.binary_head boundary filename content_type.
Proof.
  unfold Multipart.binary_head, Multipart.boundary_line, Multipart.disposition,
    Multipart.header, content_disposition.
  rewrite !append_assoc. reflexivity.
Qed.

Lemma image_head_text (boundary filename fmt : string) :
  Chars.CRLF +:+ "--" +:+ boundary +:+ Chars.CRLF
  +:+ content_disposition filename
  +:+ "Content-Transfer-Encoding: binary" +:+ Chars.CRLF
  +:+ "Content-Type: image/" +:+ fmt +:+ Chars.CRLF +:+ Chars.CRLF
  = Multipart.binary_head boundary filename ("image/" +:+ fmt).
Proof.
  unfold Multipart.binary_head, Multipart.boundary_line, Multipart.disposition,
    Multipart.header, content_disposition.
  rewrite !append_assoc. reflexivity.
Qed.

Lemma stream_body_runs (c : StreamClosure) (w : world) (content_type content : string) :
  dict_get "content-type" (cl_headers c) = Some content_type ->
  fs w !! cl_content_file c = Some content ->
  (PyStr.truthy (cl_stacked_screenshot c) = true -> is_Some (stacked_bytes c w)) ->
  stream_body c w =
    for_each (cl_screenshot_files c) unlink_if_exists
      (with_events w (map Yielded
         (Multipart.envelope (cl_boundary c)
            (json_dumps (cl_status c) (cl_headers c) (cl_metadata c))
            ("main" +:+ get_ext_from_content_type content_type)
            content_type content (cl_image_format c) (stacked_bytes c w)))).
Proof.
  intros Hct Hcontent Hshot. unfold stream_body.
  rewrite run_bind, yield_runs, info_head_text.
  rewrite run_bind, yield_runs, with_events_twice.
  rewrite run_bind. unfold dict_item. rewrite Hct. cbn [ret mret M_ret].
  rewrite run_bind, yield_runs, with_events_twice, binary_head_text.
  rewrite run_bind, (yield_file_runs _ content) by exact Hcontent.
  rewrite with_events_twice.
  rewrite run_bind.
  unfold Multipart.envelope, stacked_bytes in *.
  destruct (PyStr.truthy (cl_stacked_screenshot c)).
  - destruct (Hshot eq_refl) as [shot Hs]. rewrite Hs.
    rewrite run_bind, yield_runs, with_events_twice, image_head_text.
    rewrite (yield_file_runs _ shot) by exact Hs.
    rewrite with_events_twice.
    rewrite run_bind, yield_runs, with_events_twice.
    do 2 f_equal. rewrite !map_app. simpl. rewrite <- ?app_assoc. reflexivity.
  - cbn [ret mret M_ret].
    rewrite run_bind, yield_runs, with_events_twice.
    do 2 f_equal. rewrite !map_app. simpl. rewrite <- ?app_assoc. reflexivity.
Qed.

(** When the result headers carry a content type and the artifacts
    can be read, the generator yields, in this order and nothing else: the
    head of the part info.json and the JSON document; the head of the main
    content part and the content in chunks; if there is a stacked
    screenshot, the head of its part and its bytes in chunks; the closing
    boundary marker.  Each head starts with the boundary line and carries
    the Content-Disposition attachment header with name and filename. *)
Theorem stream_parts_in_order (c : StreamClosure) (w : world)
    (content_type content : string) :
  dict_get "content-type" (cl_headers c) = Some content_type ->
  fs w !! cl_content_file c = Some content ->
  (PyStr.truthy (cl_stacked_screenshot c) = true -> is_Some (stacked_bytes c w)) ->
  let boundary := cl_boundary c in
  let json := json_dumps (cl_status c) (cl_headers c) (cl_metadata c) in
  let main_name := "main" +:+ get_ext_from_content_type content_type in
  let shot_name := "screenshot." +:+ cl_image_format c in
  let shot_type := "image/" +:+ cl_image_format c in
  exists evs,
    trace (world_of (stream c w)) = trace w ++ evs /\
    yielded_chunks evs =
      Multipart.envelope boundary json main_name content_type content
        (cl_image_format c) (stacked_bytes c w) /\
    body_of (yielded_chunks evs) =
      Multipart.info_head boundary +:+ json
      +:+ Multipart.binary_head boundary main_name content_type +:+ content
      +:+ match stacked_bytes c w with
          | Some shot => Multipart.binary_head boundary shot_name shot_type +:+ shot
          | None => EmptyString
          end
      +:+ Multipart.closing boundary.
Proof.
  intros Hct Hcontent Hshot boundary json main_name shot_name shot_type.
  set (parts := Multipart.envelope boundary json main_name content_type content
                  (cl_image_format c) (stacked_bytes c w)).
  set (after := try_finally
                  (try_except any_Exception
                     (for_each (cl_screenshot_files c) unlink_if_exists)
                     (fun e => print_stderr ("Error during streaming: " +:+ exn_str e)))
                  (stream_cleanup c)).
  assert (Hrun : stream c w = after (with_events w (map Yielded parts))).
  { unfold stream, after, try_finally, try_except.
    by rewrite (stream_body_runs c w content_type content). }
  assert (Hquiet : respects (grows_by not_yielded) after).
  { unfold after, stream_cleanup, guarded_unlink, unlink_if_exists, print_stderr.
    grows; try exact I; split_if; grows; exact I. }
  destruct (Hquiet (with_events w (map Yielded parts))) as (evs & E & F).
  exists (map Yielded parts ++ evs).
  assert (Hchunks : yielded_chunks (map Yielded parts ++ evs) = parts).
  { rewrite yielded_chunks_app, (yielded_chunks_none evs), app_nil_r by done.
    apply yielded_chunks_map. }
  split; [|split].
  - unfold world_of. rewrite Hrun, E. unfold with_events. cbn [trace].
    by rewrite app_assoc.
  - exact Hchunks.
  - rewrite Hchunks. unfold parts, Multipart.envelope.
    rewrite !body_of_app, file_chunks_whole.
    destruct (stacked_bytes c w) as [shot|].
    + change (body_of (?x :: ?l)) with (x +:+ body_of l).
      rewrite file_chunks_whole. unfold body_of. simpl.
      rewrite ?append_assoc, ?append_empty. reflexivity.
    + unfold body_of. simpl. rewrite ?append_assoc, ?append_empty. reflexivity.
Qed.

End StreamOrder.

(** ** The generator: what the cleanup reaches *)

#[export] Instance same_protection_preorder : PreOrder same_protection.
Proof.
  split.
  - intros w. reflexivity.
  - intros w1 w2 w3 E1 E2. unfold same_protection in *. congruence.
Qed.

Lemma protection_emit (e : event) : respects same_protection (emit e).
Proof. intros w. reflexivity. Qed.

Lemma protection_os_unlink (p : string) : respects same_protection (os_unlink p).
Proof.
  intros w. unfold os_unlink. destruct (fs w !! p); [|reflexivity].
  case_bool_decide; reflexivity.
Qed.

Ltac protects :=
  repeat match goal with
    | |- respects same_protection (emit _) => apply protection_emit
    | |- respects same_protection (os_unlink _) => apply protection_os_unlink
    | |- respects _ (if ?c then _ else _) => destruct c
    | _ => progress grows
    end.

Lemma unlink_if_exists_removes (p : string) (w : world) :
  p ∉ undeletable w -> fs (snd (unlink_if_exists p w)) !! p = None.
Proof.
  intros Hfree. unfold unlink_if_exists, path_exists, os_unlink. munfold. simpl.
  case_bool_decide as Hthere; simpl.
  - destruct Hthere as [data Hdata]. rewrite Hdata.
    rewrite bool_decide_eq_false_2 by done. simpl. apply lookup_delete_eq.
  - destruct (fs w !! p) eqn:E; [|done]. exfalso. apply Hthere. eauto.
Qed.

Section CleanupFacts.

Context `{Runtime}.

Lemma guarded_unlink_removes (p : string) (w : world) :
  p ∉ undeletable w -> fs (snd (guarded_unlink p w)) !! p = None.
Proof.
  intros Hfree. pose proof (unlink_if_exists_removes p w Hfree) as Hgone.
  unfold guarded_unlink, try_except.
  destruct (unlink_if_exists p w) as [[e|[]] w1]; simpl in *; done.
Qed.

Lemma guarded_unlink_deletes_once (p : string) : respects deletes_once (guarded_unlink p).
Proof. unfold guarded_unlink, unlink_if_exists, print_stderr. follows; done. Qed.

Lemma guarded_unlink_protection (p : string) : respects same_protection (guarded_unlink p).
Proof. unfold guarded_unlink, unlink_if_exists, print_stderr. protects. Qed.

Lemma cleanup_loop_removes (files : list string) (w : world) (p : string) :
  p ∈ files -> p ∉ undeletable w ->
  fs (snd (for_each files guarded_unlink w)) !! p = None.
Proof.
  revert w. induction files as [|q rest IH]; intros w Hin Hfree.
  - by apply elem_of_nil in Hin.
  - simpl. rewrite run_bind.
    pose proof (guarded_unlink_removes q w) as Hq.
    pose proof (guarded_unlink_protection q w) as Hprot.
    destruct (guarded_unlink q w) as [[e|[]] w1] eqn:Hrun; simpl in *.
    + apply elem_of_cons in Hin as [-> | Hin]; [by apply Hq|].
      destruct (decide (p = q)) as [-> | Hne]; [by apply Hq|].
      (* the loop stops only on an exception, and the guard lets none out *)
      exfalso. unfold guarded_unlink, try_except in Hrun.
      destruct (unlink_if_exists q w) as [[e'|[]] w2]; simpl in Hrun; discriminate.
    + destruct (decide (p = q)) as [-> | Hne].
      * destruct (respects_for_each deletes_once rest guarded_unlink
                    guarded_unlink_deletes_once w1) as (_ & _ & _ & _ & Hkeep).
        apply Hkeep. by apply Hq.
      * apply elem_of_cons in Hin as [? | Hin]; [done|].
        apply IH; [done|]. unfold same_protection in Hprot. by rewrite Hprot.
Qed.

(** After the generator has run, by whatever path, every file of
    [cleanup_files] that can be deleted is gone. *)
Lemma stream_removes_cleanup_files (c : StreamClosure) (w : world) (p : string) :
  p ∈ cl_cleanup_files c -> p ∉ undeletable w ->
  fs (world_of (stream c w)) !! p = None.
Proof.
  intros Hin Hfree. unfold stream, world_of, try_finally.
  set (body := try_except any_Exception (stream_body c) _).
  assert (Hprot : respects same_protection body).
  { unfold body, stream_body, yield_file, unlink_if_exists, print_stderr, yield.
    protects. }
  assert (Hok : never_raises body).
  { apply never_raises_caught. intros e. apply never_raises_print. }
  specialize (Hprot w). destruct (Hok w) as [[] Hr].
  destruct (body w) as [r w1]. simpl in Hr, Hprot. subst r.
  apply (cleanup_loop_removes (cl_cleanup_files c) w1 p Hin).
  unfold same_protection in Hprot. by rewrite Hprot.
Qed.

End CleanupFacts.

(** * Further properties *)

(** ** Splitting at a separator *)

Lemma split_head (sep : ascii) (s : string) :
  exists fields, PyStr.split sep s = upto sep s :: fields.
Proof.
  induction s as [|c s [fields IH]]; simpl; [by exists []|].
  destruct (Ascii.eqb c sep); [eauto|]. rewrite IH. eauto.
Qed.

Lemma upto_free (sep : ascii) (s : string) : free_of sep (upto sep s) = true.
Proof.
  induction s as [|c s IH]; simpl; [reflexivity|].
  destruct (Ascii.eqb c sep) eqn:E; simpl; [reflexivity|]. by rewrite E, IH.
Qed.

Lemma upto_whole (sep : ascii) (s : string) : free_of sep s = true -> upto sep s = s.
Proof.
  induction s as [|c s IH]; simpl; [reflexivity|].
  destruct (Ascii.eqb c sep); simpl; [discriminate|]. intros Hs. by rewrite IH.
Qed.

Lemma upto_append (sep : ascii) (a b : string) :
  free_of sep a = true -> upto sep (a +:+ String sep b) = a.
Proof.
  induction a as [|c a IH]; intros Ha.
  - change (upto sep (String sep b) = EmptyString). simpl.
    by rewrite Ascii.eqb_refl.
  - change (upto sep (String c (a +:+ String sep b)) = String c a).
    simpl in *. destruct (Ascii.eqb c sep); simpl in *; [discriminate|].
    by rewrite IH.
Qed.

Lemma upto_rest (sep : ascii) (s : string) :
  s = upto sep s \/ exists rest, s = upto sep s +:+ String sep rest.
Proof.
  induction s as [|c s IH]; simpl; [by left|].
  destruct (Ascii.eqb_spec c sep) as [->|Hne].
  - right. by exists s.
  - destruct IH as [IH | [rest IH]].
    + left. by rewrite <- IH.
    + right. exists rest.
      change (String c s = String c (upto sep s +:+ String sep rest)). by rewrite <- IH.
Qed.

Lemma startswith_prefix (p s : string) :
  PyStr.startswith p s = true <-> exists rest, s = p +:+ rest.
Proof.
  revert s. induction p as [|a p IH]; intros s; simpl.
  - split; [intros _; by exists s | done].
  - destruct s as [|b s].
    + split; [discriminate | intros [rest Hr]; discriminate].
    + rewrite andb_true_iff, IH. split.
      * intros [Hab [rest ->]]. apply Ascii.eqb_eq in Hab as ->. by exists rest.
      * intros [rest Hr].
        change (String b s = String a (p +:+ rest)) in Hr.
        injection Hr as -> ->. split; [apply Ascii.eqb_refl | by exists rest].
Qed.

(** X5. The host the validator resolves is the netloc up to its first
    colon: it holds no colon, and the netloc is either that host or the
    host, a colon and a remainder. *)
Theorem host_of_is_netloc_before_colon (netloc : string) :
  host_of netloc = upto ":" netloc /\
  free_of ":" (host_of netloc) = true /\
  (netloc = host_of netloc \/ exists rest, netloc = host_of netloc +:+ String ":" rest).
Proof.
  assert (E : host_of netloc = upto ":" netloc).
  { unfold host_of. destruct (split_head ":" netloc) as [fields ->]. reflexivity. }
  rewrite E. split; [reflexivity|]. split; [apply upto_free | apply upto_rest].
Qed.

Section MoreHandlerFacts.

Context `{NetLib} `{ImageLib} `{WorkerModule} `{Runtime}.

(** X20. The extension of a content type does not depend on what follows
    its first semicolon: parameters such as a charset are ignored. *)
Theorem get_ext_ignores_parameters (mime params : string) :
  free_of ";" mime = true ->
  get_ext_from_content_type (mime +:+ String ";" params)
  = get_ext_from_content_type mime.
Proof.
  intros Hfree. unfold get_ext_from_content_type.
  destruct (split_head ";" (mime +:+ String ";" params)) as [f1 ->].
  destruct (split_head ";" mime) as [f2 ->].
  by rewrite upto_append, upto_whole.
Qed.

(** X1. The authorization check never raises and never touches the
    world.  It lets a request through exactly when no key is configured, or
    the Authorization header starts with "Bearer " and the text between
    that and the next space is a configured key; otherwise it answers 401. *)
Theorem check_authorization_decides (hs : list (string * string)) (w : world) :
  snd (check_authorization hs w) = w /\
  (result_of (check_authorization hs w) = inr None \/
   exists msg, result_of (check_authorization hs w) = inr (Some (JsonError 401 msg))) /\
  (result_of (check_authorization hs w) = inr None <->
   SCRAPER_API_KEYS = [] \/
   exists rest, header_get "Authorization" hs = Some ("Bearer " +:+ rest) /\
                upto " " rest ∈ SCRAPER_API_KEYS).
Proof.
  unfold check_authorization, result_of.
  destruct SCRAPER_API_KEYS as [|k0 keys] eqn:Hkeys.
  { simpl. split; [done|]. split; [by left|]. split; [by left | done]. }
  change (0 <? length (k0 :: keys))%nat with true. cbv iota.
  assert (Hnil : forall P : Prop, (k0 :: keys = [] \/ P) <-> P).
  { intros P. split; [intros [?|?]; [discriminate | done] | by right]. }
  rewrite Hnil.
  destruct (header_get "Authorization" hs) as [auth|].
  2:{ split; [done|]. split; [right; eauto|].
      split; [discriminate | intros (rest & ? & _); discriminate]. }
  destruct (PyStr.startswith "Bearer " auth) eqn:Hstart; simpl.
  2:{ split; [done|]. split; [right; eauto|].
      split; [discriminate|]. intros (rest & [= ->] & _).
      assert (PyStr.startswith "Bearer " ("Bearer " +:+ rest) = true)
        by (apply startswith_prefix; eauto).
      congruence. }
  apply startswith_prefix in Hstart as [rest ->].
  destruct (split_head " " rest) as [fields Hsplit].
  assert (Hkey : PyStr.split " " ("Bearer " +:+ rest) !! 1%nat = Some (upto " " rest)).
  { change ("Bearer " +:+ rest)
      with (String "B" (String "e" (String "a" (String "r" (String "e"
             (String "r" (String " " rest))))))).
    simpl. rewrite Hsplit. reflexivity. }
  unfold list_item. munfold. rewrite Hkey. simpl.
  case_bool_decide as Hin; simpl.
  - split; [done|]. split; [by left|]. split; [intros _; eauto | done].
  - split; [done|]. split; [right; eauto|].
    split; [discriminate|]. intros (rest' & [= Hr] & Hin').
    change (rest = rest') in Hr. by subst rest'.
Qed.

(** X2. A request the authorization check turns down is answered with
    that 401 before anything else happens: no look-up, no dispatch, no
    event at all, the world is as it was. *)
Theorem unauthorized_request_stops_at_once (req : Request) (w : world) (r : Response) :
  result_of (check_authorization (req_headers req) w) = inr (Some r) ->
  scrape req w = (inr r, w) /\ response_code r = 401.
Proof.
  intros Hauth.
  destruct (check_authorization_cases (req_headers req) w) as [Hw H401].
  destruct (H401 r Hauth) as [msg ->].
  unfold scrape. rewrite run_bind. unfold result_of in Hauth.
  destruct (check_authorization (req_headers req) w) as [x w0].
  simpl in *. subst. done.
Qed.

End MoreHandlerFacts.

(** ** The validator: what else it does *)

Section MoreUrlSafetyFacts.

Context `{NetLib}.

(** X3. A scheme that is neither file nor on the allow-list is turned
    down without any look-up: the verdict is unsafe and the one thing that
    happens is the line on stderr. *)
Theorem url_is_safe_rejects_other_schemes (url : string) (allowed : option (gset string))
    (parsed : ParseResult) (w : world) :
  urlparse (PyStr.strip url) = inr parsed ->
  PyStr.lower (scheme parsed) <> "file" ->
  PyStr.lower (scheme parsed) ∉ default default_allowed_schemes allowed ->
  url_is_safe url allowed w =
    (inr false,
     with_events w [Stderr ("URL blocked: scheme '" +:+ PyStr.lower (scheme parsed)
                            +:+ "' is not allowed.")]).
Proof.
  intros Hparse Hfile Hout. unfold url_is_safe. munfold. rewrite Hparse. simpl.
  destruct (String.eqb_spec (PyStr.lower (scheme parsed)) "file") as [|_]; [done|].
  rewrite bool_decide_eq_false_2 by done. reflexivity.
Qed.

(** X4. Only socket.gaierror is turned into a verdict.  An exception of
    the URL parser leaves the validator as it is, with nothing done; any
    other exception of the resolver leaves it after the look-up.  In both
    cases there is no verdict, so the URL is not taken for safe. *)
Theorem url_is_safe_propagates_other_errors (url : string)
    (allowed : option (gset string)) (w : world) :
  (forall e, urlparse (PyStr.strip url) = inl e ->
     url_is_safe url allowed w = (inl e, w)) /\
  (forall parsed e,
     urlparse (PyStr.strip url) = inr parsed ->
     PyStr.lower (scheme parsed) <> "file" ->
     PyStr.lower (scheme parsed) ∈ default default_allowed_schemes allowed ->
     getaddrinfo (host_of (netloc parsed)) = inl e ->
     is_gaierror e = false ->
     url_is_safe url allowed w
     = (inl e, with_events w [Resolve (host_of (netloc parsed))])).
Proof.
  split.
  - intros e Hparse. unfold url_is_safe. munfold. by rewrite Hparse.
  - intros parsed e Hparse Hfile Hin Hres Hother.
    unfold url_is_safe. munfold. rewrite Hparse. simpl.
    destruct (String.eqb_spec (PyStr.lower (scheme parsed)) "file") as [|_]; [done|].
    rewrite bool_decide_eq_true_2 by done. simpl.
    rewrite Hres. simpl. rewrite Hother. reflexivity.
Qed.

End MoreUrlSafetyFacts.

(** ** The handler: gates and failures *)

Lemma dict_get_None (k : string) (d : dict) : k ∉ map fst d -> dict_get k d = None.
Proof.
  induction d as [|[k' v] d IH]; simpl; [done|]. intros Hout.
  destruct (String.eqb_spec k k') as [->|Hne].
  - exfalso. apply Hout. apply list_elem_of_here.
  - apply IH. intros Hin. apply Hout. by apply list_elem_of_further.
Qed.

Lemma dict_get_Some_in (k v : string) (d : dict) : dict_get k d = Some v -> (k, v) ∈ d.
Proof.
  induction d as [|[k' v'] d IH]; simpl; [discriminate|].
  destruct (String.eqb_spec k k') as [->|Hne].
  - intros [= ->]. apply list_elem_of_here.
  - intros Hd. apply list_elem_of_further. by apply IH.
Qed.

Lemma negotiated_format_known (hs : list (string * string)) (fmt : string) :
  negotiate_format hs = inr fmt -> fmt ∈ ["webp"; "png"; "jpeg"].
Proof.
  unfold negotiate_format.
  destruct (dict_get _ accepted_formats) as [f|] eqn:E; cbv [PyStr.truthy negb].
  - destruct (PyStr.nonempty f); [|discriminate].
    cbv [default]. simpl. intros [= <-].
    apply dict_get_Some_in in E. unfold accepted_formats in E.
    repeat (apply elem_of_cons in E as [[= _ ->]|E]; [set_solver|]).
    by apply elem_of_nil in E.
  - discriminate.
Qed.

(** X7. The Accept header is matched as a whole against five values.
    Whatever format comes out is webp, png or jpeg; a header value that is
    none of the five is answered 406 with a message that quotes the value
    and lists the five. *)
Theorem negotiate_format_outcomes (hs : list (string * string)) :
  (forall fmt, negotiate_format hs = inr fmt -> fmt ∈ ["webp"; "png"; "jpeg"]) /\
  (forall accept,
     header_get "Accept" hs = Some accept ->
     accept ∉ ["image/webp"; "image/png"; "image/jpeg"; "image/*"; "*/*"] ->
     negotiate_format hs =
       inl (JsonError 406
              ("Unsupported image format in Accept header (" +:+ accept
               +:+ "). Supported Accept header values are: "
               +:+ "image/webp, image/png, image/jpeg, image/*, */*"))).
Proof.
  split; [apply negotiated_format_known|].
  intros accept Hget Hout. unfold negotiate_format. rewrite Hget.
  change (default "image/jpeg" (Some accept)) with accept.
  rewrite (dict_get_None accept accepted_formats) by exact Hout.
  reflexivity.
Qed.

Section GateFacts.

Context `{NetLib} `{ImageLib} `{WorkerModule} `{Runtime}.

Lemma validate_request_safe (req : Request) (w : world) (v : Validated) :
  result_of (validate_request req w) = inr (inr v) ->
  result_of (url_is_safe (default EmptyString (json_url req)) None w) = inr true.
Proof.
  unfold validate_request, result_of.
  destruct (negb (PyStr.truthy (json_url req))); [discriminate|].
  rewrite run_bind.
  destruct (url_is_safe _ None w) as [[e|[|]] w1]; simpl; [discriminate|done|discriminate].
Qed.

(** X6. The worker is reached only through the safety check: if the
    handler dispatches, or answers with a streamed response, then the url is
    present and the validator returned True for it in the world the request
    arrived in. *)
Theorem dispatch_requires_safe_verdict (req : Request) (w : world) (evs : list event) :
  trace (world_of (scrape req w)) = trace w ++ evs ->
  Exists (fun e => is_dispatch e = true) evs \/
  (exists code mt body, result_of (scrape req w) = inr (Streamed code mt body)) ->
  url_present req = true /\
  result_of (url_is_safe (default EmptyString (json_url req)) None w) = inr true.
Proof.
  unfold scrape, world_of, result_of. rewrite run_bind.
  destruct (check_authorization_cases (req_headers req) w) as [Hw H401].
  destruct (check_authorization (req_headers req) w) as [[e|[denied|]] w0];
    simpl in *; subst w0.
  - intros Hevs [Hd | (? & ? & ? & [=])].
    apply (f_equal length) in Hevs. rewrite length_app in Hevs.
    destruct evs; [by apply Exists_nil in Hd | simpl in Hevs; lia].
  - destruct (H401 denied eq_refl) as [msg ->].
    intros Hevs [Hd | (? & ? & ? & [=])].
    apply (f_equal length) in Hevs. rewrite length_app in Hevs.
    destruct evs; [by apply Exists_nil in Hd | simpl in Hevs; lia].
  - rewrite run_bind.
    destruct (validate_request_grows req w) as (evs1 & E1 & F1).
    pose proof (validate_request_cases req w) as [Hok H400].
    pose proof (validate_request_safe req w) as Hsafe.
    unfold result_of in *.
    destruct (validate_request req w) as [[e|[bad|v]] w1]; simpl in *.
    1,2: intros Hevs [Hd | (c & m & b & Hr)];
         [ rewrite E1 in Hevs; apply app_inv_head in Hevs; subst evs1;
           apply Exists_exists in Hd as (d & Hin & Hd);
           rewrite Forall_forall in F1; apply F1 in Hin; by destruct d
         | try discriminate ].
    + destruct (H400 bad eq_refl) as [msg ->]. discriminate.
    + intros _ _. destruct (Hok v eq_refl) as (Hurl & _ & _).
      split; [done | by eapply Hsafe].
Qed.

(** X27. An exception of the validator ends the handler: the request is
    answered by the exception (a 500 of the framework), the world is the one
    the validator left, and nothing is dispatched. *)
Theorem scrape_propagates_validator_error (req : Request) (w : world) (e : exn) :
  result_of (check_authorization (req_headers req) w) = inr None ->
  url_present req = true ->
  result_of (url_is_safe (default EmptyString (json_url req)) None w) = inl e ->
  scrape req w = (inl e, snd (url_is_safe (default EmptyString (json_url req)) None w)).
Proof.
  intros Hauth Hurl Hraise. rewrite scrape_authorized by done.
  rewrite run_bind. unfold validate_request. unfold url_present in Hurl.
  rewrite Hurl. cbv [negb]. rewrite run_bind. unfold result_of in Hraise.
  destruct (url_is_safe _ None w) as [x w1]. simpl in *. by subst x.
Qed.

(** X8. Whatever exception the worker call raises, the client gets the
    same 500 with a fixed text; the text of the exception goes to stderr
    only.  Nothing is stacked, deleted or streamed. *)
Theorem worker_failure_is_coarse (v : Validated) (fmt : string) (w : world)
    (e : exn) (files : gmap string string) :
  scrape_task (v_url v) (v_wait v) fmt (v_n_screenshots v) (v_browser_dim v) (fs w)
    = (inl e, files) ->
  respond v fmt w =
    (inr (JsonError 500 "Scraping process failed"),
     World files (undeletable w) (tmp_names w)
           (trace w ++ [dispatch_event v fmt;
                        Stderr ("Exception raised from scraping process: "
                                +:+ exn_str e)])).
Proof.
  intros Htask. unfold respond, dispatch, run_scrape_task. munfold. simpl.
  rewrite Htask. simpl. by rewrite <- app_assoc.
Qed.

(** X9. A worker result without a content file is answered 500 with the
    generic text.  The handler stops there: nothing is stacked and nothing
    is deleted, so the files the worker wrote, its screenshots among them,
    stay where they are. *)
Theorem result_without_content_is_generic_failure (v : Validated) (fmt : string)
    (w : world) (res : ScrapeResult) (files : gmap string string) :
  scrape_task (v_url v) (v_wait v) fmt (v_n_screenshots v) (v_browser_dim v) (fs w)
    = (inr res, files) ->
  PyStr.truthy (content_file res) = false ->
  respond v fmt w =
    (inr (JsonError 500 "This is a generic error message; sorry about that."),
     World files (undeletable w) (tmp_names w) (trace w ++ [dispatch_event v fmt])).
Proof.
  intros Htask Hnone. unfold respond, dispatch, run_scrape_task, assemble. munfold.
  simpl. rewrite Htask. simpl. rewrite Hnone. reflexivity.
Qed.

(** X10. The handler function deletes no file and yields no chunk: every
    deletion and every byte of a body belong to the generator.  A response
    that is not streamed therefore leaves every file on disk. *)
Theorem handler_deletes_and_streams_nothing (req : Request) (w : world) :
  exists evs, trace (world_of (scrape req w)) = trace w ++ evs /\
              unlinked_paths evs = [] /\ yielded_chunks evs = [].
Proof.
  destruct (scrape_handler_events req w) as (evs & E & F).
  exists evs. split; [exact E|]. split.
  - apply unlinked_paths_none. eapply Forall_impl; [exact F|]. intros e. by destruct e.
  - apply yielded_chunks_none. eapply Forall_impl; [exact F|]. intros e. by destruct e.
Qed.

End GateFacts.

(** ** Result headers: lower-cased keys *)

Lemma lower_char_idempotent (c : ascii) :
  PyStr.lower_char (PyStr.lower_char c) = PyStr.lower_char c.
Proof. destruct c as [[] [] [] [] [] [] [] []]; reflexivity. Qed.

Lemma lower_idempotent (s : string) : PyStr.lower (PyStr.lower s) = PyStr.lower s.
Proof.
  induction s as [|c s IH]; [reflexivity|].
  change (String (PyStr.lower_char (PyStr.lower_char c)) (PyStr.lower (PyStr.lower s))
          = String (PyStr.lower_char c) (PyStr.lower s)).
  by rewrite lower_char_idempotent, IH.
Qed.

Lemma dict_get_set (q k v : string) (d : dict) :
  dict_get q (dict_set k v d) = if String.eqb q k then Some v else dict_get q d.
Proof.
  induction d as [|[k' v'] d IH]; simpl.
  - destruct (String.eqb q k); reflexivity.
  - destruct (String.eqb_spec k k') as [<-|Hne]; simpl.
    + destruct (String.eqb q k); reflexivity.
    + rewrite IH. destruct (String.eqb_spec q k') as [->|_]; [|reflexivity].
      destruct (String.eqb_spec k' k) as [->|_]; [done | reflexivity].
Qed.

Lemma dict_set_keys (k v : string) (d : dict) :
  map fst (dict_set k v d) = map fst d /\ k ∈ map fst d \/
  map fst (dict_set k v d) = map fst d ++ [k] /\ k ∉ map fst d.
Proof.
  induction d as [|[k' v'] d IH]; simpl.
  - right. split; [done|]. apply not_elem_of_nil.
  - destruct (String.eqb_spec k k') as [<-|Hne]; simpl.
    + left. split; [done | apply list_elem_of_here].
    + destruct IH as [[E Hin] | [E Hout]].
      * left. split; [by rewrite E | by apply list_elem_of_further].
      * right. split; [by rewrite E|].
        intros Hin. apply elem_of_cons in Hin as [?|?]; done.
Qed.

Lemma lowercase_keys_snoc (hs : dict) (k v : string) :
  lowercase_keys (hs ++ [(k, v)]) = dict_set (PyStr.lower k) v (lowercase_keys hs).
Proof. unfold lowercase_keys. by rewrite fold_left_app. Qed.

Lemma lowercase_keys_are_lower (hs : dict) (q : string) :
  q ∈ map fst (lowercase_keys hs) -> PyStr.lower q = q.
Proof.
  revert q. induction hs as [|[k v] hs IH] using rev_ind;
    [intros k Hk; by apply elem_of_nil in Hk|].
  intros q. rewrite lowercase_keys_snoc.
  destruct (dict_set_keys (PyStr.lower k) v (lowercase_keys hs)) as [[-> _] | [-> _]].
  - apply IH.
  - intros Hq. apply elem_of_app in Hq as [Hq | Hq]; [by apply IH|].
    apply list_elem_of_singleton in Hq as ->. apply lower_idempotent.
Qed.

(** X11. The headers of a result are re-keyed in lower case: every key of
    the new dictionary is lower case and occurs once; a later header
    replaces an earlier one whose name differs only in case; and every
    header of the result can be found under its lower-cased name. *)
Theorem lowercase_keys_lookup (hs : dict) :
  (forall k, k ∈ map fst (lowercase_keys hs) -> PyStr.lower k = k) /\
  NoDup (map fst (lowercase_keys hs)) /\
  (forall k v q,
     dict_get q (lowercase_keys (hs ++ [(k, v)]))
     = if String.eqb q (PyStr.lower k) then Some v
       else dict_get q (lowercase_keys hs)) /\
  (forall k v, (k, v) ∈ hs -> is_Some (dict_get (PyStr.lower k) (lowercase_keys hs))).
Proof.
  assert (Hsnoc : forall hs k v q,
            dict_get q (lowercase_keys (hs ++ [(k, v)]))
            = if String.eqb q (PyStr.lower k) then Some v
              else dict_get q (lowercase_keys hs)).
  { intros hs0 k v q. by rewrite lowercase_keys_snoc, dict_get_set. }
  split; [apply lowercase_keys_are_lower|]. split; [|split; [apply Hsnoc|]].
  - induction hs as [|[k v] hs IH] using rev_ind; [constructor|].
    rewrite lowercase_keys_snoc.
    destruct (dict_set_keys (PyStr.lower k) v (lowercase_keys hs))
      as [[-> _] | [-> Hout]]; [exact IH|].
    apply NoDup_app. split; [exact IH|]. split; [|apply NoDup_singleton].
    intros q Hq Hq'. apply list_elem_of_singleton in Hq' as ->. done.
  - induction hs as [|[k' v'] hs IH] using rev_ind;
      [intros k v Hin; by apply elem_of_nil in Hin|].
    intros k v Hin. rewrite Hsnoc.
    destruct (String.eqb_spec (PyStr.lower k) (PyStr.lower k')); [eauto|].
    apply elem_of_app in Hin as [Hin | Hin]; [by eapply IH|].
    apply list_elem_of_singleton in Hin as [= -> ->]. done.
Qed.

(** ** Reading a file in chunks *)

Lemma take_bytes_length (n : nat) (s : string) :
  (String.length (take_bytes n s) <= n)%nat.
Proof.
  revert s. induction n as [|n IH]; intros [|c s]; simpl; try lia.
  specialize (IH s). lia.
Qed.

Lemma read_chunks_sizes (fuel : nat) (data : string) :
  Forall (fun chunk => (1 <= String.length chunk <= CHUNK)%nat) (read_chunks fuel data).
Proof.
  revert data. induction fuel as [|fuel IH]; intros data; [constructor|].
  rewrite read_chunks_unfold.
  destruct (take_bytes CHUNK data) as [|c s] eqn:E; simpl; [constructor|].
  constructor; [|apply IH].
  pose proof (take_bytes_length CHUNK data) as Hlen. rewrite E in Hlen.
  simpl in *. lia.
Qed.

(** X16. A file is streamed in reads of at most 4096 bytes: no chunk is
    empty, none is longer than 4096, an empty file gives no chunk, and the
    chunks put together are the file. *)
Theorem file_chunks_bounded (data : string) :
  Forall (fun chunk => (1 <= String.length chunk <= 4096)%nat)
         (Multipart.file_chunks data) /\
  body_of (Multipart.file_chunks data) = data /\
  (data = EmptyString <-> Multipart.file_chunks data = []).
Proof.
  split; [apply read_chunks_sizes|]. split; [apply file_chunks_whole|].
  unfold Multipart.file_chunks. rewrite read_chunks_unfold. split.
  - intros ->. reflexivity.
  - destruct data as [|c s]; [done|].
    assert (HC : CHUNK = S (pred CHUNK)) by reflexivity. rewrite HC.
    change (PyStr.nonempty (take_bytes (S (pred CHUNK)) (String c s))) with true.
    discriminate.
Qed.

(** ** The generator: order of yields and deletions *)

Lemma early_is_phased (w w' : world) :
  grows_by not_unlinked w w' -> yields_then_deletes w w'.
Proof.
  intros (ys & E & F). exists ys, []. rewrite app_nil_r. by repeat split.
Qed.

Lemma late_is_phased (w w' : world) :
  grows_by not_yielded w w' -> yields_then_deletes w w'.
Proof. intros (rest & E & F). exists [], rest. by repeat split. Qed.

Lemma early_then_phased (w1 w2 w3 : world) :
  grows_by not_unlinked w1 w2 -> yields_then_deletes w2 w3 -> yields_then_deletes w1 w3.
Proof.
  intros (ys1 & E1 & F1) (ys & rest & E & Fy & Fr).
  exists (ys1 ++ ys), rest. split; [|split; [by apply Forall_app | done]].
  by rewrite E, E1, <- !app_assoc.
Qed.

Lemma phased_then_late (w1 w2 w3 : world) :
  yields_then_deletes w1 w2 -> grows_by not_yielded w2 w3 -> yields_then_deletes w1 w3.
Proof.
  intros (ys & rest & E & Fy & Fr) (rest' & E' & F').
  exists ys, (rest ++ rest'). split; [|split; [done | by apply Forall_app]].
  by rewrite E', E, <- !app_assoc.
Qed.

Lemma phased_bind_early {A B} (m : M A) (k : A -> M B) :
  respects (grows_by not_unlinked) m ->
  (forall a, respects yields_then_deletes (k a)) ->
  respects yields_then_deletes (m ≫= k).
Proof.
  intros Hm Hk w. rewrite run_bind. specialize (Hm w).
  destruct (m w) as [[e|a] w1]; simpl in *; [by apply early_is_phased|].
  eapply early_then_phased; [exact Hm | apply Hk].
Qed.

Lemma phased_try_except {A} (body : M A) (handler : exn -> M A) (sel : exn -> bool) :
  respects yields_then_deletes body ->
  (forall e, respects (grows_by not_yielded) (handler e)) ->
  respects yields_then_deletes (try_except sel body handler).
Proof.
  intros Hb Hh w. unfold try_except. specialize (Hb w).
  destruct (body w) as [[e|a] w1]; simpl in *; [|done].
  destruct (sel e); [|done]. eapply phased_then_late; [exact Hb | apply Hh].
Qed.

Lemma phased_try_finally (body final : M unit) :
  respects yields_then_deletes body ->
  respects (grows_by not_yielded) final ->
  respects yields_then_deletes (try_finally body final).
Proof.
  intros Hb Hf w. unfold try_finally. specialize (Hb w).
  destruct (body w) as [[e|[]] w1]; simpl in *.
  - specialize (Hf w1). destruct (final w1) as [[e'|[]] w2]; simpl in *;
      eapply phased_then_late; eauto.
  - eapply phased_then_late; [exact Hb | apply Hf].
Qed.

Lemma unlink_if_exists_late (p : string) :
  respects (grows_by not_yielded) (unlink_if_exists p).
Proof. unfold unlink_if_exists. grows. split_if; grows. exact I. Qed.

Lemma guarded_unlink_late (p : string) :
  respects (grows_by not_yielded) (guarded_unlink p).
Proof.
  unfold guarded_unlink, print_stderr. grows; [apply unlink_if_exists_late | exact I].
Qed.

Lemma yield_early (chunk : string) : respects (grows_by not_unlinked) (yield chunk).
Proof. unfold yield. grows. exact I. Qed.

Section StreamPhases.

Context `{Runtime}.

Lemma stream_body_phased (c : StreamClosure) :
  respects yields_then_deletes (stream_body c).
Proof.
  unfold stream_body.
  apply phased_bind_early; [apply yield_early | intros _].
  apply phased_bind_early; [apply yield_early | intros _].
  apply phased_bind_early; [grows | intros content_type].
  apply phased_bind_early; [apply yield_early | intros _].
  apply phased_bind_early;
    [apply yield_file_respects; [apply _ | apply yield_early] | intros _].
  apply phased_bind_early.
  { split_if; [|grows]. grows; [apply yield_early|].
    apply yield_file_respects; [apply _ | apply yield_early]. }
  intros _.
  apply phased_bind_early; [apply yield_early | intros _].
  intros w. apply late_is_phased.
  apply (respects_for_each (grows_by not_yielded) _ _ unlink_if_exists_late).
Qed.

(** X14. In every run of the generator, whether it completes or fails,
    all deletions come after the last chunk was yielded: its events are a
    run without deletions followed by a run without chunks. *)
Theorem stream_deletes_after_yielding (c : StreamClosure) (w : world) :
  exists ys rest,
    trace (world_of (stream c w)) = trace w ++ ys ++ rest /\
    unlinked_paths ys = [] /\ yielded_chunks rest = [].
Proof.
  assert (Hphased : respects yields_then_deletes (stream c)).
  { unfold stream. apply phased_try_finally.
    - apply phased_try_except; [apply stream_body_phased|].
      intros e. unfold print_stderr. grows. exact I.
    - unfold stream_cleanup.
      apply (respects_for_each (grows_by not_yielded) _ _ guarded_unlink_late). }
  destruct (Hphased w) as (ys & rest & E & Fy & Fr).
  exists ys, rest. split; [exact E|].
  split; [by apply unlinked_paths_none | by apply yielded_chunks_none].
Qed.

Lemma stream_truncated_runs (c : StreamClosure) (w : world) :
  dict_get "content-type" (cl_headers c) = None ->
  stream c w =
    stream_cleanup c
      (with_events w
         [Yielded (Multipart.info_head (cl_boundary c));
          Yielded (json_dumps (cl_status c) (cl_headers c) (cl_metadata c));
          Stderr "Error during streaming: 'content-type'"]).
Proof.
  intros Hnone. unfold stream, try_finally, try_except, stream_body.
  rewrite run_bind, yield_runs, info_head_text.
  rewrite run_bind, yield_runs, with_events_twice.
  rewrite run_bind. unfold dict_item. rewrite Hnone.
  unfold raise, print_stderr, emit, any_Exception, with_events.
  cbn [fst snd fs undeletable tmp_names trace exn_str].
  rewrite <- !app_assoc. reflexivity.
Qed.

(** X15. Without a content-type among the result headers the body is cut
    short after the JSON part: two chunks are yielded, the head of the info
    part and the JSON document, then neither a main part nor a closing
    marker; the KeyError is logged and the generator ends normally. *)
Theorem stream_without_content_type_is_truncated (c : StreamClosure) (w : world) :
  dict_get "content-type" (cl_headers c) = None ->
  result_of (stream c w) = inr tt /\
  exists evs,
    trace (world_of (stream c w)) = trace w ++ evs /\
    yielded_chunks evs =
      [Multipart.info_head (cl_boundary c);
       json_dumps (cl_status c) (cl_headers c) (cl_metadata c)] /\
    Stderr "Error during streaming: 'content-type'" ∈ evs.
Proof.
  intros Hnone.
  split; [destruct (stream_never_raises c w) as [[] Hr]; exact Hr|].
  set (said := [Yielded (Multipart.info_head (cl_boundary c));
                Yielded (json_dumps (cl_status c) (cl_headers c) (cl_metadata c));
                Stderr "Error during streaming: 'content-type'"]).
  assert (Hlate : respects (grows_by not_yielded) (stream_cleanup c)).
  { unfold stream_cleanup.
    apply (respects_for_each (grows_by not_yielded) _ _ guarded_unlink_late). }
  destruct (Hlate (with_events w said)) as (rest & E & F).
  exists (said ++ rest). split; [|split].
  - unfold world_of. rewrite (stream_truncated_runs c w Hnone). fold said.
    rewrite E. unfold with_events. cbn [trace]. by rewrite app_assoc.
  - rewrite yielded_chunks_app, (yielded_chunks_none rest) by done. reflexivity.
  - apply elem_of_app. left. unfold said.
    do 2 apply list_elem_of_further. apply list_elem_of_here.
Qed.

End StreamPhases.

(** ** The generator: what is left on disk *)

Lemma unlink_if_exists_deletable (p : string) (w : world) :
  p ∉ undeletable w ->
  exists w', unlink_if_exists p w = (inr tt, w') /\
             fs w' !! p = None /\ undeletable w' = undeletable w.
Proof.
  intros Hfree. unfold unlink_if_exists, path_exists, os_unlink. munfold. simpl.
  case_bool_decide as Hthere; simpl.
  - destruct Hthere as [data Hdata]. rewrite Hdata.
    rewrite bool_decide_eq_false_2 by done. simpl.
    eexists. split; [reflexivity|]. split; [apply lookup_delete_eq | done].
  - exists w. split; [done|]. split; [|done].
    destruct (fs w !! p) eqn:E; [|done]. exfalso. apply Hthere. eauto.
Qed.

Lemma unlink_if_exists_deletes_once (p : string) :
  respects deletes_once (unlink_if_exists p).
Proof. unfold unlink_if_exists. follows. Qed.

Lemma raw_loop_removes (files : list string) (w : world) :
  (forall p, p ∈ files -> p ∉ undeletable w) ->
  exists w', for_each files unlink_if_exists w = (inr tt, w') /\
             (forall p, p ∈ files -> fs w' !! p = None) /\
             undeletable w' = undeletable w.
Proof.
  revert w. induction files as [|q rest IH]; intros w Hfree.
  - exists w. split; [done|]. split; [|done]. intros p Hp. by apply elem_of_nil in Hp.
  - destruct (unlink_if_exists_deletable q w) as (w1 & Hq & Hgone & Hprot).
    { apply Hfree. apply list_elem_of_here. }
    destruct (IH w1) as (w2 & Hrest & Hgone' & Hprot').
    { intros p Hp. rewrite Hprot. apply Hfree. by apply list_elem_of_further. }
    exists w2. split; [|split].
    + simpl. rewrite run_bind, Hq. exact Hrest.
    + intros p Hp. apply elem_of_cons in Hp as [-> | Hp]; [|by apply Hgone'].
      destruct (respects_for_each deletes_once rest unlink_if_exists
                  unlink_if_exists_deletes_once w1) as (_ & _ & _ & _ & Hkeep).
      rewrite Hrest in Hkeep. by apply Hkeep.
    + congruence.
Qed.

Lemma stays_protected_refl (p : string) (w : world) : stays_protected p w w.
Proof. by intros ? ?. Qed.

Lemma stays_protected_trans (p : string) (w1 w2 w3 : world) :
  stays_protected p w1 w2 -> stays_protected p w2 w3 -> stays_protected p w1 w3.
Proof. intros H12 H23 Hp Hf. destruct (H12 Hp Hf). by apply H23. Qed.

#[export] Instance stays_protected_preorder (p : string) : PreOrder (stays_protected p).
Proof.
  split.
  - intros w. apply stays_protected_refl.
  - intros w1 w2 w3. apply stays_protected_trans.
Qed.

Lemma stays_protected_emit (p : string) (e : event) :
  respects (stays_protected p) (emit e).
Proof. intros w Hp Hf. by split. Qed.

Lemma stays_protected_os_unlink (p q : string) :
  respects (stays_protected p) (os_unlink q).
Proof.
  intros w Hp Hf. unfold os_unlink.
  destruct (fs w !! q) eqn:Eq; [|done].
  case_bool_decide as Hq; [done|]. simpl. split; [done|].
  rewrite lookup_delete_ne; [done|]. intros ->. done.
Qed.

Ltac keeps :=
  repeat match goal with
    | |- respects (stays_protected _) (emit _) => apply stays_protected_emit
    | |- respects (stays_protected _) (os_unlink _) => apply stays_protected_os_unlink
    | |- respects _ (if ?c then _ else _) => destruct c
    | _ => progress grows
    end.

Lemma guarded_unlink_refused (p : string) (w : world) :
  p ∈ undeletable w -> is_Some (fs w !! p) ->
  guarded_unlink p w =
    (inr tt, with_events w [Stderr ("Error cleaning up file " +:+ p +:+ ": "
                                    +:+ exn_str (PermissionError p))]).
Proof.
  intros Hp [data Hdata].
  unfold guarded_unlink, unlink_if_exists, path_exists, os_unlink. munfold. simpl.
  rewrite Hdata. rewrite bool_decide_eq_true_2 by eauto. simpl.
  rewrite bool_decide_eq_true_2 by done. rewrite Hdata. reflexivity.
Qed.

Lemma guarded_unlink_returns (p : string) (w : world) :
  exists w', guarded_unlink p w = (inr tt, w').
Proof.
  unfold guarded_unlink, try_except.
  destruct (unlink_if_exists p w) as [[e|[]] w1]; simpl; eauto.
Qed.

Lemma cleanup_loop_logs (files : list string) (w : world) (p : string) :
  p ∈ files -> p ∈ undeletable w -> is_Some (fs w !! p) ->
  Stderr ("Error cleaning up file " +:+ p +:+ ": " +:+ exn_str (PermissionError p))
    ∈ trace (snd (for_each files guarded_unlink w)) /\
  is_Some (fs (snd (for_each files guarded_unlink w)) !! p).
Proof.
  assert (Hgrow : forall q, respects (grows_by (fun _ => True)) (guarded_unlink q)).
  { intros q. unfold guarded_unlink, unlink_if_exists, print_stderr.
    grows; try exact I. split_if; grows. exact I. }
  assert (Hkeep : forall q, respects (stays_protected p) (guarded_unlink q)).
  { intros q. unfold guarded_unlink, unlink_if_exists, print_stderr. keeps. }
  revert w. induction files as [|q rest IH]; intros w Hin Hp Hf.
  - by apply elem_of_nil in Hin.
  - simpl. rewrite run_bind.
    destruct (decide (q = p)) as [-> | Hne].
    + rewrite guarded_unlink_refused by done.
      set (w1 := with_events w _).
      destruct (respects_for_each (grows_by (fun _ => True)) rest guarded_unlink
                  Hgrow w1) as (evs & E & _).
      destruct (respects_for_each (stays_protected p) rest guarded_unlink
                  Hkeep w1 Hp Hf) as [_ Hstill].
      split; [|exact Hstill].
      rewrite E. apply elem_of_app. left. unfold w1, with_events. cbn [trace].
      apply elem_of_app. right. apply list_elem_of_here.
    + apply elem_of_cons in Hin as [? | Hin]; [done|].
      destruct (guarded_unlink_returns q w) as [w1 Hq].
      pose proof (Hkeep q w Hp Hf) as [Hp1 Hf1]. rewrite Hq in *. simpl in *.
      by apply IH.
Qed.

Section DiskFacts.

Context `{Runtime}.

(** X21. A deletion that fails in the cleanup is logged and goes no
    further: for a cleanup file that exists and cannot be deleted, the
    generator still ends normally, the line naming the file and the error
    is on stderr, and the file is still there. *)
Theorem failed_deletion_is_logged (c : StreamClosure) (w : world) (p : string) :
  p ∈ cl_cleanup_files c -> p ∈ undeletable w -> is_Some (fs w !! p) ->
  result_of (stream c w) = inr tt /\
  Stderr ("Error cleaning up file " +:+ p +:+ ": [Errno 13] Permission denied: '"
          +:+ p +:+ "'") ∈ trace (world_of (stream c w)) /\
  is_Some (fs (world_of (stream c w)) !! p).
Proof.
  intros Hin Hp Hf.
  split; [destruct (stream_never_raises c w) as [[] Hr]; exact Hr|].
  unfold stream, world_of, try_finally.
  set (body := try_except any_Exception (stream_body c) _).
  assert (Hkeep : respects (stays_protected p) body).
  { unfold body, stream_body, yield_file, unlink_if_exists, print_stderr, yield.
    keeps. }
  assert (Hok : never_raises body).
  { apply never_raises_caught. intros e. apply never_raises_print. }
  destruct (Hkeep w Hp Hf) as [Hp1 Hf1]. destruct (Hok w) as [[] Hr].
  destruct (body w) as [r w1]. simpl in Hr, Hp1, Hf1. subst r.
  apply (cleanup_loop_logs (cl_cleanup_files c) w1 p Hin Hp1 Hf1).
Qed.

(** X12. After a stream that ran to its end nothing of the request is
    left: with a content type among the headers, the artifacts readable and
    none of them protected against deletion, every raw screenshot and every
    cleanup file is gone when the generator has ended. *)
Theorem drained_stream_leaves_no_artifact (c : StreamClosure) (w : world)
    (content_type content : string) :
  dict_get "content-type" (cl_headers c) = Some content_type ->
  fs w !! cl_content_file c = Some content ->
  (PyStr.truthy (cl_stacked_screenshot c) = true -> is_Some (stacked_bytes c w)) ->
  (forall p, p ∈ cl_screenshot_files c ++ cl_cleanup_files c -> p ∉ undeletable w) ->
  forall p, p ∈ cl_screenshot_files c ++ cl_cleanup_files c ->
            fs (world_of (stream c w)) !! p = None.
Proof.
  intros Hct Hcontent Hshot Hfree p Hp.
  apply elem_of_app in Hp as [Hraw | Hclean].
  2:{ apply stream_removes_cleanup_files; [done|].
      apply Hfree. apply elem_of_app. by right. }
  unfold stream, world_of, try_finally, try_except.
  rewrite (stream_body_runs c w content_type content) by done.
  set (w1 := with_events w _).
  destruct (raw_loop_removes (cl_screenshot_files c) w1) as (w2 & Hrun & Hgone & _).
  { intros q Hq. apply Hfree. apply elem_of_app. by left. }
  rewrite Hrun.
  destruct (respects_for_each deletes_once (cl_cleanup_files c) guarded_unlink
              guarded_unlink_deletes_once w2) as (_ & _ & _ & _ & Hkeep).
  unfold stream_cleanup. by apply Hkeep, Hgone.
Qed.

End DiskFacts.

(** ** Deleting what is not there *)





Section SilentFacts.

Context `{Runtime}.





End SilentFacts.

Section OnceFacts.

Context `{NetLib} `{ImageLib} `{WorkerModule} `{Runtime}.


End OnceFacts.

(** ** The stacker: failures and what it leaves alone *)

Lemma foldr_add_nonneg (hs : list Z) :
  Forall (fun x => 0 <= x) hs -> 0 <= foldr Z.add 0 hs.
Proof. induction 1 as [|x hs Hx _ IH]; simpl; lia. Qed.

Lemma foldr_add_take (hs : list Z) (i : nat) (h : Z) :
  Forall (fun x => 0 <= x) hs -> hs !! i = Some h ->
  0 <= foldr Z.add 0 (take i hs) /\
  foldr Z.add 0 (take i hs) + h <= foldr Z.add 0 hs.
Proof.
  intros Hpos. revert i. induction Hpos as [|x hs Hx Hrest IH]; intros i Hi.
  - by rewrite lookup_nil in Hi.
  - destruct i as [|i]; simpl in *.
    + injection Hi as ->. pose proof (foldr_add_nonneg hs Hrest). lia.
    + destruct (IH i Hi). lia.
Qed.

Section MoreStackerFacts.

Context `{ImageLib}.

Lemma open_all_world (files : list string) (w : world) : snd (open_all files w) = w.
Proof.
  induction files as [|p rest IH]; [reflexivity|].
  simpl. rewrite run_bind. unfold Image_open at 1. munfold. simpl.
  destruct (fs w !! p) as [data|]; simpl; [|done].
  destruct (image_decode data); simpl; [|done].
  destruct (open_all rest w) as [[e|imgs] w1]; simpl in *; done.
Qed.

Lemma open_all_fails (files : list string) (w : world) :
  Exists (unopenable w) files -> exists e, fst (open_all files w) = inl e.
Proof.
  induction files as [|p rest IH]; intros Hbad; [by apply Exists_nil in Hbad|].
  simpl. rewrite run_bind. unfold Image_open at 1. munfold. simpl.
  apply Exists_cons in Hbad as [Hp | Hrest].
  - unfold unopenable in Hp. destruct (fs w !! p) as [data|]; simpl; [|eauto].
    rewrite Hp. simpl. eauto.
  - destruct (fs w !! p) as [data|]; simpl; [|eauto].
    destruct (image_decode data); simpl; [|eauto].
    destruct (IH Hrest) as [e He]. pose proof (open_all_world rest w) as Hw.
    destruct (open_all rest w) as [r w1]. simpl in *. subst. eauto.
Qed.

(** X18. With two or more screenshots, one that is missing or is not an
    image makes the stacker raise before it creates anything: no temporary
    file is made and the world is as it was. *)
Theorem stack_images_fails_before_creating (files : list string) (fmt : string)
    (w : world) :
  (2 <= length files)%nat ->
  Exists (unopenable w) files ->
  exists e, stack_images_vertically files fmt w = (inl e, w).
Proof.
  intros Hlen Hbad. destruct files as [|p1 [|p2 rest]]; simpl in Hlen; [lia | lia |].
  unfold stack_images_vertically. rewrite run_bind.
  destruct (open_all_fails _ w Hbad) as [e He].
  pose proof (open_all_world (p1 :: p2 :: rest) w) as Hw.
  destruct (open_all (p1 :: p2 :: rest) w) as [r w1]. simpl in *. subst. eauto.
Qed.

(** X17. The stacker deletes and overwrites nothing: every file that was
    there before the call is there afterwards with the same bytes, however
    the call ends; the source images stay with the caller. *)
Theorem stack_images_keeps_existing_files (files : list string) (fmt : string)
    (w : world) (p data : string) :
  fs w !! p = Some data ->
  fs (snd (stack_images_vertically files fmt w)) !! p = Some data.
Proof.
  intros Hp. destruct files as [|p1 [|p2 rest]]; [done | done |].
  unfold stack_images_vertically. rewrite run_bind.
  pose proof (open_all_world (p1 :: p2 :: rest) w) as Hw.
  destruct (open_all (p1 :: p2 :: rest) w) as [[e|images] w0]; simpl in Hw; subst w0;
    [done|].
  rewrite run_bind.
  destruct (mkstemp ("." +:+ fmt) w) as [[e|out] w1] eqn:Hmk.
  { unfold mkstemp in Hmk.
    destruct (draw_name _ _ _) as [[? ?]|]; [discriminate|]. by injection Hmk as _ <-. }
  destruct (mkstemp_returns _ _ _ _ Hmk) as [Hfresh Hfs1].
  assert (Hne : out <> p) by (intros ->; congruence).
  unfold Image_save. munfold.
  destruct (image_encode _ _) as [e|bytes]; simpl.
  - rewrite Hfs1. by rewrite lookup_insert_ne.
  - rewrite Hfs1. by rewrite !lookup_insert_ne.
Qed.

(** X19. Nothing is cropped: when no image has a negative height, every
    image is pasted at the left edge, inside the canvas: its top is at or
    below the top of the canvas, its bottom at or above the bottom of the
    canvas, and it is no wider than the canvas. *)
Theorem stacked_images_fit_the_canvas (images : list Image) :
  (forall img, img ∈ images -> 0 <= height img) ->
  forall img x y, (img, (x, y)) ∈ pasted (stacked_canvas images) ->
    x = 0 /\ 0 <= y /\
    y + height img <= snd (size (stacked_canvas images)) /\
    width img <= fst (size (stacked_canvas images)).
Proof.
  intros Hpos img x y Hin.
  rewrite stacked_canvas_pasted in Hin. rewrite stacked_canvas_size. simpl.
  apply list_elem_of_lookup in Hin as [i Hi].
  apply lookup_zip_with_Some in Hi as (img0 & box & Heq & Himg & Hbox).
  injection Heq as <- <-. unfold placements in Hbox.
  rewrite list_lookup_fmap in Hbox.
  assert (Hlt : (i < length images)%nat) by (by eapply lookup_lt_Some).
  rewrite lookup_seq_lt in Hbox by done. simpl in Hbox. injection Hbox as <- <-.
  destruct (foldr_add_take (map height images) i (height img)) as [H0 Hle].
  - apply Forall_forall. intros h Hh. apply list_elem_of_fmap in Hh as (im & -> & Him).
    by apply Hpos.
  - change (map height images) with (height <$> images).
    by rewrite list_lookup_fmap, Himg.
  - rewrite <- (firstn_map height) in *.
    split; [done|]. split; [|split].
    + unfold take in *. exact H0.
    + exact Hle.
    + apply max_of_upper. apply list_elem_of_fmap. exists img. split; [done|].
      by eapply list_elem_of_lookup_2.
Qed.

End MoreStackerFacts.

(** ** The response object *)

Section ClosureFacts.

Context `{NetLib} `{ImageLib} `{WorkerModule} `{Runtime}.

Lemma assemble_streamed (fmt : string) (res : ScrapeResult) (hs : dict) (w : world)
    (code : Z) (mt : string) (body : StreamClosure) :
  result_of (assemble fmt res hs w) = inr (Streamed code mt body) ->
  code = 200 /\
  cl_image_format body = fmt /\
  cl_headers body = hs /\
  cl_screenshot_files body = screenshot_files res /\
  content_file res = Some (cl_content_file body) /\
  PyStr.nonempty (cl_content_file body) = true /\
  cl_cleanup_files body =
    cl_content_file body ::
    (if PyStr.truthy (cl_stacked_screenshot body)
     then [default EmptyString (cl_stacked_screenshot body)] else []) /\
  (screenshot_files res = [] -> cl_stacked_screenshot body = None) /\
  (forall only, screenshot_files res = [only] -> cl_stacked_screenshot body = Some only).
Proof.
  unfold assemble, result_of.
  destruct (content_file res) as [cf|] eqn:Hcf; simpl; [|discriminate].
  destruct (PyStr.nonempty cf) eqn:Hne; [|discriminate].
  rewrite run_bind.
  destruct (screenshot_files res) as [|s1 [|s2 rest]] eqn:Hshots.
  - simpl. intros [= <- <- <-]. simpl. rewrite ?Hshots. repeat split; try done.
  - simpl. intros [= <- <- <-]. simpl. rewrite ?Hshots.
    repeat split; try done. by intros only [= ->].
  - destruct (stack_images_vertically _ fmt w) as [[e|st] w1]; [discriminate|].
    intros [= <- <- <-]. simpl. rewrite ?Hshots. repeat split; try done.
Qed.

(** X23. What a streamed response closes over: the status is 200; the
    image format is webp, png or jpeg; the header keys are those of the
    worker's result in lower case; the content file is a non-empty path and
    heads the cleanup list, followed by the stacked screenshot if there is
    one and by nothing else; with no screenshot there is no stacked image,
    and with one screenshot the stacked image is that screenshot. *)
Theorem streamed_response_closure (req : Request) (w : world) (code : Z)
    (mt : string) (body : StreamClosure) :
  result_of (scrape req w) = inr (Streamed code mt body) ->
  code = 200 /\
  cl_image_format body ∈ ["webp"; "png"; "jpeg"] /\
  (forall k, k ∈ map fst (cl_headers body) -> PyStr.lower k = k) /\
  PyStr.nonempty (cl_content_file body) = true /\
  cl_cleanup_files body =
    cl_content_file body ::
    (if PyStr.truthy (cl_stacked_screenshot body)
     then [default EmptyString (cl_stacked_screenshot body)] else []) /\
  (cl_screenshot_files body = [] -> cl_stacked_screenshot body = None) /\
  (forall only, cl_screenshot_files body = [only] ->
                cl_stacked_screenshot body = Some only).
Proof.
  unfold scrape, result_of. rewrite run_bind.
  destruct (check_authorization_cases (req_headers req) w) as [_ H401].
  destruct (check_authorization (req_headers req) w) as [[e|[denied|]] w0];
    simpl in *; [discriminate | destruct (H401 denied eq_refl) as [? ->]; discriminate |].
  rewrite run_bind.
  destruct (validate_request_cases req w0) as [_ H400].
  destruct (validate_request req w0) as [[e|[bad|v]] w1]; simpl in *;
    [discriminate | destruct (H400 bad eq_refl) as [? ->]; discriminate |].
  pose proof (negotiate_format_cases (req_headers req)) as Hneg.
  destruct (negotiate_format (req_headers req)) as [no|fmt] eqn:Hfmt;
    [destruct Hneg as [? ->]; discriminate|].
  unfold respond. rewrite run_bind.
  pose proof (dispatch_failure v fmt w1) as Hfail.
  assert (Hhs : forall res hs w2, dispatch v fmt w1 = (inr (inr (res, hs)), w2) ->
                                  hs = lowercase_keys (headers res)).
  { intros res hs w2. unfold dispatch, run_scrape_task. munfold. simpl.
    match goal with
    | |- context [scrape_task ?a ?b ?c ?d ?e ?f] =>
        destruct (scrape_task a b c d e f) as [[?|?] ?]
    end; simpl; [discriminate|]. by intros [= <- <- _]. }
  unfold result_of in *.
  destruct (dispatch v fmt w1) as [[e|[failed|[res hs]]] w2]; simpl in *;
    [discriminate | destruct (Hfail failed eq_refl) as [? ->]; discriminate |].
  intros Hr. specialize (Hhs res hs w2 eq_refl). subst hs.
  apply assemble_streamed in Hr
    as (-> & Hf & Hh & Hs & _ & Hne & Hclean & Hnone & Hone).
  split; [done|]. split; [|split; [|split; [done|split; [done|split]]]].
  - rewrite Hf. by eapply negotiated_format_known.
  - rewrite Hh. apply lowercase_keys_are_lower.
  - rewrite Hs. exact Hnone.
  - intros only. rewrite Hs. apply Hone.
Qed.

End ClosureFacts.

(** ** The API keys of the environment *)

Section ApiKeys.

Context `{Runtime}.

#[local] Arguments PyStr.startswith : simpl never.

Lemma load_api_keys_members (environ : list (string * string)) (key : string) :
  key ∈ load_api_keys environ <->
  exists name rest, (name, key) ∈ environ /\ name = "SCRAPER_API_KEY" +:+ rest.
Proof.
  unfold load_api_keys. rewrite list_elem_of_In, in_map_iff. split.
  - intros ([name v] & Hv & Hin). simpl in Hv. subst v.
    apply filter_In in Hin as [Hin Hstart]. simpl in Hstart.
    apply startswith_prefix in Hstart as [rest ->].
    exists ("SCRAPER_API_KEY" +:+ rest), rest. by rewrite list_elem_of_In.
  - intros (name & rest & Hin & ->). exists ("SCRAPER_API_KEY" +:+ rest, key).
    split; [done|]. apply filter_In. split; [by apply list_elem_of_In|].
    simpl. apply startswith_prefix. eauto.
Qed.

Lemma load_api_keys_empty (environ : list (string * string)) :
  load_api_keys environ = [] <->
  forall name value, (name, value) ∈ environ ->
                     PyStr.startswith "SCRAPER_API_KEY" name = false.
Proof.
  unfold load_api_keys.
  induction environ as [|[name value] environ IH]; simpl.
  - split; [|done]. intros _ name value Hin. by apply elem_of_nil in Hin.
  - destruct (PyStr.startswith "SCRAPER_API_KEY" name) eqn:Hs; simpl.
    + split; [discriminate|]. intros Hall.
      specialize (Hall name value (list_elem_of_here _ _)). congruence.
    + rewrite IH. split.
      * intros Hall n v Hin. apply elem_of_cons in Hin as [[= -> ->] | Hin];
          [exact Hs | by apply (Hall n v)].
      * intros Hall n v Hin. apply (Hall n v). by apply list_elem_of_further.
Qed.

(** When the authorization check lets a request through. *)
Lemma check_authorization_lets_through (hs : list (string * string)) (w : world) :
  result_of (check_authorization hs w) = inr None <->
  SCRAPER_API_KEYS = [] \/
  exists rest, header_get "Authorization" hs = Some ("Bearer " +:+ rest) /\
               upto " " rest ∈ SCRAPER_API_KEYS.
Proof.
  unfold check_authorization, result_of.
  destruct SCRAPER_API_KEYS as [|k0 keys] eqn:Hkeys.
  { simpl. split; [by left | done]. }
  change (0 <? length (k0 :: keys))%nat with true. cbv iota.
  assert (Hnil : forall P : Prop, (k0 :: keys = [] \/ P) <-> P).
  { intros P. split; [intros [?|?]; [discriminate | done] | by right]. }
  rewrite Hnil.
  destruct (header_get "Authorization" hs) as [auth|].
  2:{ split; [discriminate | intros (rest & ? & _); discriminate]. }
  destruct (PyStr.startswith "Bearer " auth) eqn:Hstart; simpl.
  2:{ split; [discriminate|]. intros (rest & [= ->] & _).
      assert (PyStr.startswith "Bearer " ("Bearer " +:+ rest) = true)
        by (apply startswith_prefix; eauto).
      congruence. }
  apply startswith_prefix in Hstart as [rest ->].
  destruct (split_head " " rest) as [fields Hsplit].
  assert (Hkey : PyStr.split " " ("Bearer " +:+ rest) !! 1%nat = Some (upto " " rest)).
  { change ("Bearer " +:+ rest)
      with (String "B" (String "e" (String "a" (String "r" (String "e"
             (String "r" (String " " rest))))))).
    simpl. rewrite Hsplit. reflexivity. }
  unfold list_item. munfold. rewrite Hkey. simpl.
  case_bool_decide as Hin; simpl.
  - split; [intros _; eauto | done].
  - split; [discriminate|]. intros (rest' & [= Hr] & Hin').
    change (rest = rest') in Hr. by subst rest'.
Qed.

(** X25. The list the handler checks bearer tokens against is loaded
    from the environment.  A value is an API key exactly when it is the
    value of a variable whose name starts with SCRAPER_API_KEY, whatever
    follows in the name, and the keys come in the order of the
    environment.  Every request passes the authorization check, with or
    without a header, exactly when no variable has such a name; otherwise
    a request passes exactly when its Authorization header is Bearer,
    a space, and the value of such a variable. *)
Theorem api_keys_come_from_prefixed_variables (environ : list (string * string)) :
  SCRAPER_API_KEYS = load_api_keys environ ->
  let unset := forall name value, (name, value) ∈ environ ->
                 PyStr.startswith "SCRAPER_API_KEY" name = false in
  (forall key, key ∈ SCRAPER_API_KEYS <->
     exists name rest, (name, key) ∈ environ /\ name = "SCRAPER_API_KEY" +:+ rest) /\
  (forall before name value after,
     environ = before ++ (name, value) :: after ->
     SCRAPER_API_KEYS =
       load_api_keys before
       ++ (if PyStr.startswith "SCRAPER_API_KEY" name then [value] else [])
       ++ load_api_keys after) /\
  (unset <-> forall hs w, result_of (check_authorization hs w) = inr None) /\
  (forall hs w,
     result_of (check_authorization hs w) = inr None <->
     unset \/
     exists rest name suffix,
       header_get "Authorization" hs = Some ("Bearer " +:+ rest) /\
       (name, upto " " rest) ∈ environ /\ name = "SCRAPER_API_KEY" +:+ suffix).
Proof.
  intros Hloaded unset.
  assert (Hpass : forall hs w,
            result_of (check_authorization hs w) = inr None <->
            unset \/
            exists rest name suffix,
              header_get "Authorization" hs = Some ("Bearer " +:+ rest) /\
              (name, upto " " rest) ∈ environ /\ name = "SCRAPER_API_KEY" +:+ suffix).
  { intros hs w. rewrite check_authorization_lets_through, Hloaded.
    unfold unset. rewrite <- load_api_keys_empty.
    split; (intros [Hnone | Hkey]; [by left | right]).
    - destruct Hkey as (rest & Hh & Hin).
      apply load_api_keys_members in Hin as (name & suffix & Hin & Hn). eauto 6.
    - destruct Hkey as (rest & name & suffix & Hh & Hin & Hn).
      exists rest. split; [done|]. apply load_api_keys_members. eauto. }
  split; [|split; [|split]].
  - intros key. rewrite Hloaded. apply load_api_keys_members.
  - intros before name value after ->. rewrite Hloaded. unfold load_api_keys.
    rewrite List.filter_app, map_app. simpl.
    destruct (PyStr.startswith "SCRAPER_API_KEY" name); reflexivity.
  - split.
    + intros Hunset hs w. apply Hpass. by left.
    + intros Hall. destruct (proj1 (Hpass [] (World ∅ ∅ [] [])) (Hall _ _))
        as [Hunset | (rest & name & suffix & Hh & _)]; [exact Hunset|].
      discriminate Hh.
  - exact Hpass.
Qed.

End ApiKeys.

(** ** Counting look-ups and dispatches *)

Lemma count_events_app (kind : event -> bool) (a b : list event) :
  count_events kind (a ++ b) = (count_events kind a + count_events kind b)%nat.
Proof. unfold count_events. by rewrite List.filter_app, length_app. Qed.

Lemma count_events_none (kind : event -> bool) (evs : list event) :
  Forall (fun e => kind e = false) evs -> count_events kind evs = 0%nat.
Proof.
  unfold count_events. induction 1 as [|e evs He _ IH]; simpl; [done|].
  by rewrite He.
Qed.

Section CountingFacts.

Context `{NetLib} `{ImageLib} `{WorkerModule} `{Runtime}.

Lemma check_addrs_no_resolve (host : string) (addrs : list addrinfo) :
  respects (grows_by no_resolve) (check_addrs host addrs).
Proof.
  induction addrs as [|a rest IH]; simpl; [grows|].
  split_if; [|exact IH]. unfold print_stderr. grows. exact (eq_refl false).
Qed.

Lemma url_is_safe_lookup_shape (url : string) (allowed : option (gset string))
    (w : world) :
  grows_by no_resolve w (snd (url_is_safe url allowed w)) \/
  exists host, grows_by no_resolve (with_events w [Resolve host])
                        (snd (url_is_safe url allowed w)).
Proof.
  unfold url_is_safe. rewrite run_bind. unfold lift.
  destruct (urlparse (PyStr.strip url)) as [e|parsed]; simpl;
    [left; apply grows_by_refl|].
  destruct (String.eqb _ "file"); [left; apply grows_by_refl|].
  destruct (negb _).
  - left. apply (grows_emit no_resolve (Stderr _) eq_refl w).
  - right. exists (host_of (netloc parsed)).
    match goal with
    | |- context [try_except ?sel (emit ?e ≫= ?k) ?h ≫= ?K] =>
        change ((try_except sel (emit e ≫= k) h ≫= K) w)
          with ((try_except sel (k tt) h ≫= K) (with_events w [e]));
        assert (Hq : respects (grows_by no_resolve) (try_except sel (k tt) h ≫= K))
    end.
    { cbv beta. unfold print_stderr. grows; try exact (eq_refl false).
      all: match goal with |- respects _ (match ?x with _ => _ end) => destruct x end;
        grows; apply check_addrs_no_resolve. }
    apply Hq.
Qed.

Lemma one_event_then_quiet (kind : event -> bool) (P : event -> Prop)
    (w w' : world) (e : event) (evs : list event) :
  (forall x, P x -> kind x = false) ->
  grows_by P w w' \/ grows_by P (with_events w [e]) w' ->
  trace w' = trace w ++ evs ->
  (count_events kind evs <= 1)%nat.
Proof.
  intros HP [(evs1 & E1 & F1) | (evs1 & E1 & F1)] E.
  - rewrite E1 in E. apply app_inv_head in E as <-.
    rewrite count_events_none; [lia|]. eapply Forall_impl; eauto.
  - unfold with_events in E1. cbn [trace] in E1.
    rewrite E1, <- app_assoc in E. apply app_inv_head in E as <-.
    rewrite (count_events_app kind [e] evs1), (count_events_none kind evs1).
    + unfold count_events. simpl. destruct (kind e); simpl; lia.
    + eapply Forall_impl; eauto.
Qed.

#[local] Arguments check_browser_dim : simpl never.

Lemma validate_request_world (req : Request) (w : world) :
  snd (validate_request req w) = w \/
  snd (validate_request req w)
  = snd (url_is_safe (default EmptyString (json_url req)) None w).
Proof.
  unfold validate_request.
  destruct (negb (PyStr.truthy (json_url req))); [by left|]. right.
  rewrite run_bind.
  destruct (url_is_safe _ None w) as [[e|[|]] w1]; simpl; [done| |done].
  destruct ((_ <? 0) || (_ >? MAX_WAIT)); [done|].
  rewrite run_bind.
  destruct (check_browser_dim_cases
              (default DEFAULT_BROWSER_DIM (json_browser_dim req)) w1) as [Hw _].
  destruct (check_browser_dim _ _ w1) as [[e|[r|]] w2]; simpl in *; subst; try done.
  by destruct (_ >? MAX_SCREENSHOTS).
Qed.

Lemma respond_dispatch_shape (v : Validated) (fmt : string) (w : world) :
  grows_by quiet (with_events w [dispatch_event v fmt]) (snd (respond v fmt w)).
Proof.
  unfold respond, dispatch, run_scrape_task.
  match goal with
  | |- context [try_except ?sel ((emit ?e ≫= ?k) ≫= ?k1) ?h ≫= ?K] =>
      change ((try_except sel ((emit e ≫= k) ≫= k1) h ≫= K) w)
        with ((try_except sel (k tt ≫= k1) h ≫= K) (with_events w [e]));
      assert (Hq : respects (grows_by quiet) (try_except sel (k tt ≫= k1) h ≫= K))
  end.
  { cbv beta. unfold print_stderr. grows; try (split; exact (eq_refl false)).
    - destruct (scrape_task _ _ _ _ _ _) as [r f']. grows.
    - match goal with
      | |- respects _ (match ?x with _ => _ end) => destruct x as [|[res hs]]
      end; [grows|].
      eapply respects_weaken; [|apply assemble_grows]. intros e. by destruct e. }
  apply Hq.
Qed.

(** X22. One request costs at most one look-up and at most one dispatch:
    among the events of the handler there is at most one call of the
    resolver and at most one call of the worker. *)
Theorem at_most_one_lookup_and_dispatch (req : Request) (w : world) :
  exists evs, trace (world_of (scrape req w)) = trace w ++ evs /\
              (count_events is_resolve evs <= 1)%nat /\
              (count_events is_dispatch evs <= 1)%nat.
Proof.
  unfold scrape, world_of. rewrite run_bind.
  destruct (check_authorization_cases (req_headers req) w) as [Hw _].
  destruct (check_authorization (req_headers req) w) as [[e|[denied|]] w0];
    simpl in *; subst w0;
    try (exists []; rewrite app_nil_r; split; [done | split; unfold count_events; simpl; lia]).
  rewrite run_bind.
  destruct (validate_request_grows req w) as (evs1 & E1 & F1).
  assert (Hd1 : count_events is_dispatch evs1 = 0%nat).
  { apply count_events_none. eapply Forall_impl; [exact F1|]. intros e. by destruct e. }
  assert (Hr1 : (count_events is_resolve evs1 <= 1)%nat).
  { destruct (validate_request_world req w) as [Hsame | Hsame].
    - rewrite Hsame in E1. rewrite <- (app_nil_r (trace w)) in E1 at 1.
      apply app_inv_head in E1 as <-. unfold count_events. simpl. lia.
    - destruct (url_is_safe_lookup_shape (default EmptyString (json_url req)) None w)
        as [Hq | [host Hq]].
      + eapply (one_event_then_quiet is_resolve no_resolve w _ (Resolve EmptyString));
          [done | left; exact Hq | by rewrite <- Hsame].
      + eapply (one_event_then_quiet is_resolve no_resolve w _ (Resolve host));
          [done | right; exact Hq | by rewrite <- Hsame]. }
  destruct (validate_request req w) as [[e|[bad|v]] w1]; simpl in *;
    try (exists evs1; split; [done | split; lia]).
  destruct (negotiate_format (req_headers req)) as [no|fmt];
    [exists evs1; split; [done | split; simpl; lia]|].
  destruct (respond_dispatch_shape v fmt w1) as (evs2 & E2 & F2).
  unfold with_events in E2. cbn [trace] in E2.
  exists (evs1 ++ [dispatch_event v fmt] ++ evs2).
  split; [by rewrite E2, E1, <- !app_assoc|].
  rewrite !count_events_app.
  rewrite (count_events_none is_resolve evs2), (count_events_none is_dispatch evs2).
  - change (count_events is_resolve [dispatch_event v fmt]) with 0%nat.
    change (count_events is_dispatch [dispatch_event v fmt]) with 1%nat. lia.
  - eapply Forall_impl; [exact F2|]. by intros e [_ ?].
  - eapply Forall_impl; [exact F2|]. by intros e [? _].
Qed.

(** X24. What is dispatched is what was validated: a dispatch among the
    events of the handler carries the url of the request as it was given,
    the wait, the screenshot count and the browser dimensions of the request
    or else their defaults, and the format negotiated from the Accept
    header. *)
Theorem dispatch_carries_validated_values (req : Request) (w : world)
    (evs : list event) (url : string) (wait : Z) (fmt : string) (n : Z) (dim : list Z) :
  trace (world_of (scrape req w)) = trace w ++ evs ->
  Dispatch url wait fmt n dim ∈ evs ->
  json_url req = Some url /\
  wait = default DEFAULT_WAIT (json_wait req) /\
  n = default DEFAULT_SCREENSHOTS (json_max_screenshots req) /\
  dim = default DEFAULT_BROWSER_DIM (json_browser_dim req) /\
  negotiate_format (req_headers req) = inr fmt.
Proof.
  unfold scrape, world_of. rewrite run_bind.
  destruct (check_authorization_cases (req_headers req) w) as [Hw _].
  destruct (check_authorization (req_headers req) w) as [[e|[denied|]] w0];
    simpl in *; subst w0.
  1,2: intros Hevs Hin; rewrite <- (app_nil_r (trace w)) in Hevs at 1;
       apply app_inv_head in Hevs as <-; by apply elem_of_nil in Hin.
  rewrite run_bind.
  destruct (validate_request_grows req w) as (evs1 & E1 & F1).
  pose proof (validate_request_cases req w) as [Hok _]. unfold result_of in Hok.
  assert (Hnot : Dispatch url wait fmt n dim ∉ evs1).
  { intros Hin. rewrite Forall_forall in F1. by apply F1 in Hin. }
  destruct (validate_request req w) as [[e|[bad|v]] w1]; simpl in *.
  1,2: intros Hevs Hin; rewrite E1 in Hevs; apply app_inv_head in Hevs as <-; done.
  destruct (Hok v eq_refl) as (Hurl & _ & Hv).
  destruct (negotiate_format (req_headers req)) as [no|fmt'].
  { intros Hevs Hin. simpl in Hevs. rewrite E1 in Hevs.
    apply app_inv_head in Hevs as <-. done. }
  destruct (respond_grows v fmt' w1) as (evs2 & E2 & F2).
  intros Hevs Hin. rewrite E2, E1, <- app_assoc in Hevs.
  apply app_inv_head in Hevs as <-.
  apply elem_of_app in Hin as [Hin | Hin]; [done|].
  rewrite Forall_forall in F2. apply F2 in Hin. simpl in Hin.
  rewrite Hv in Hin. injection Hin as -> -> -> -> ->.
  unfold url_present in Hurl. destruct (json_url req) as [u|]; [|discriminate].
  done.
Qed.

End CountingFacts.

(** ** The generator: what a truncated stream leaves behind *)

#[export] Instance keeps_file_preorder (p : string) : PreOrder (keeps_file p).
Proof.
  split.
  - by intros w data.
  - intros w1 w2 w3 H12 H23 data Hd. by apply H23, H12.
Qed.

Lemma guarded_unlink_keeps_others (p q : string) :
  q <> p -> respects (keeps_file p) (guarded_unlink q).
Proof.
  intros Hne w data Hd.
  unfold guarded_unlink, unlink_if_exists, path_exists, os_unlink, try_except.
  munfold. simpl.
  case_bool_decide; simpl; [|done].
  destruct (fs w !! q); simpl; [|done].
  case_bool_decide; simpl; [done|]. by rewrite lookup_delete_ne.
Qed.

Lemma cleanup_loop_keeps_others (files : list string) (p : string) :
  p ∉ files -> respects (keeps_file p) (for_each files guarded_unlink).
Proof.
  induction files as [|q rest IH]; intros Hout; simpl.
  - apply respects_ret. apply _.
  - apply respects_bind; [apply _| |intros _].
    + apply guarded_unlink_keeps_others. intros ->. apply Hout, list_elem_of_here.
    + apply IH. intros Hin. by apply Hout, list_elem_of_further.
Qed.

Section TruncatedFacts.

Context `{Runtime}.

(** X26. A stream cut short by a missing content type deletes the
    cleanup files and nothing else: any other file, a raw screenshot that
    is not the stacked image among them, is still on disk with its bytes
    when the generator has ended. *)
Theorem truncated_stream_keeps_other_files (c : StreamClosure) (w : world)
    (p data : string) :
  dict_get "content-type" (cl_headers c) = None ->
  p ∉ cl_cleanup_files c ->
  fs w !! p = Some data ->
  fs (world_of (stream c w)) !! p = Some data.
Proof.
  intros Hnone Hout Hp. unfold world_of.
  rewrite (stream_truncated_runs c w Hnone). unfold stream_cleanup.
  by apply (cleanup_loop_keeps_others (cl_cleanup_files c) p Hout).
Qed.

End TruncatedFacts.

(** ** The generator as a program: the drained run and the closed run *)

Lemma drain_bind {A B} (g : Gen A) (k : A -> Gen B) (w : world) :
  drain (g ≫= k) w = (drain g ≫= fun a => drain (k a)) w.
Proof.
  revert w. induction g as [a|chunk next IH|X m h IH]; intros w.
  - reflexivity.
  - change (drain (GYield chunk next ≫= k)) with (yield chunk;; drain (next ≫= k)).
    change (drain (GYield chunk next)) with (yield chunk;; drain next).
    rewrite !run_bind. destruct (yield chunk w) as [[e|[]] w1]; [reflexivity|].
    rewrite IH. reflexivity.
  - change (drain (GRun m h ≫= k)) with (x ← m; drain (h x ≫= k)).
    change (drain (GRun m h)) with (x ← m; drain (h x)).
    rewrite !run_bind. destruct (m w) as [[e|x] w1]; [reflexivity|].
    rewrite IH. reflexivity.
Qed.

Lemma drain_gyield (chunk : string) (w : world) : drain (gyield chunk) w = yield chunk w.
Proof. reflexivity. Qed.

Lemma drain_grun {X} (m : M X) (w : world) : drain (grun m) w = m w.
Proof.
  unfold grun. change (drain (GRun m GRet)) with (x ← m; ret x).
  rewrite run_bind. by destruct (m w) as [[e|x] w1].
Qed.

Lemma drain_gyield_each (chunks : list string) (w : world) :
  drain (gyield_each chunks) w = for_each chunks yield w.
Proof.
  revert w. induction chunks as [|chunk rest IH]; intros w; [reflexivity|].
  change (gyield_each (chunk :: rest)) with (gyield chunk;; gyield_each rest).
  rewrite drain_bind. simpl for_each. rewrite !run_bind, drain_gyield.
  destruct (yield chunk w) as [[e|[]] w1]; [reflexivity|]. apply IH.
Qed.

Lemma drain_gyield_file (p : string) (w : world) :
  drain (gyield_file p) w = yield_file p w.
Proof.
  unfold gyield_file, yield_file. rewrite drain_bind, !run_bind, drain_grun.
  destruct (open_rb p w) as [[e|data] w1]; [reflexivity|]. apply drain_gyield_each.
Qed.

Ltac drain_step :=
  rewrite drain_bind, !run_bind;
  first [rewrite drain_gyield | rewrite drain_grun | rewrite drain_gyield_file];
  match goal with
  | |- context [match ?m ?w with _ => _ end] =>
      destruct (m w) as [[?|?] ?]; [reflexivity|]
  end.

Section ProgramFacts.

Context `{Runtime}.

(** Iterated to its end, the program is the body of the [try]. *)
Lemma drain_stream_program (c : StreamClosure) (w : world) :
  drain (stream_program c) w = stream_body c w.
Proof.
  unfold stream_program, stream_body.
  do 5 drain_step.
  rewrite drain_bind, !run_bind.
  assert (Hshot : forall wx,
    drain (if PyStr.truthy (cl_stacked_screenshot c)
           then gyield (Chars.CRLF +:+ "--" +:+ cl_boundary c +:+ Chars.CRLF
                        +:+ content_disposition ("screenshot." +:+ cl_image_format c)
                        +:+ "Content-Transfer-Encoding: binary" +:+ Chars.CRLF
                        +:+ "Content-Type: image/" +:+ cl_image_format c
                        +:+ Chars.CRLF +:+ Chars.CRLF);;
                gyield_file (default EmptyString (cl_stacked_screenshot c))
           else mret tt) wx
    = (if PyStr.truthy (cl_stacked_screenshot c)
       then yield (Chars.CRLF +:+ "--" +:+ cl_boundary c +:+ Chars.CRLF
                   +:+ content_disposition ("screenshot." +:+ cl_image_format c)
                   +:+ "Content-Transfer-Encoding: binary" +:+ Chars.CRLF
                   +:+ "Content-Type: image/" +:+ cl_image_format c
                   +:+ Chars.CRLF +:+ Chars.CRLF);;
            yield_file (default EmptyString (cl_stacked_screenshot c))
       else ret tt) wx).
  { intros wx. destruct (PyStr.truthy (cl_stacked_screenshot c)); [|reflexivity].
    rewrite drain_bind, !run_bind, drain_gyield.
    destruct (yield _ wx) as [[?|[]] ?]; [reflexivity|]. apply drain_gyield_file. }
  rewrite Hshot.
  match goal with
  | |- context [match ?m ?w with _ => _ end] =>
      destruct (m w) as [[?|?] ?]; [reflexivity|]
  end.
  drain_step. apply drain_grun.
Qed.

End ProgramFacts.

Lemma yield_returns (chunk : string) (w : world) :
  yield chunk w = (inr tt, with_events w [Yielded chunk]).
Proof. reflexivity. Qed.

(** A closed run that leaves the body by a return or an exception is the
    drained run: the consumer closed too late to matter. *)
Lemma closed_after_drained {A} (g : Gen A) (more : nat) (w : world) :
  match closed_after more g w with
  | (Returned a, w') => drain g w = (inr a, w')
  | (Raised e, w') => drain g w = (inl e, w')
  | (GeneratorExit, _) => True
  end.
Proof.
  revert more w. induction g as [a|chunk next IH|X m h IH]; intros more w.
  - reflexivity.
  - cbn [closed_after drain]. rewrite run_bind, yield_returns. cbn [snd].
    destruct more as [|more]; [exact I | apply IH].
  - cbn [closed_after drain]. rewrite run_bind.
    destruct (m w) as [[e|x] w1]; [reflexivity | apply IH].
Qed.

Section StepsRespect.

Context (R : world -> world -> Prop) `{!PreOrder R}.

Lemma steps_respect_bind {A B} (g : Gen A) (k : A -> Gen B) :
  steps_respect R g -> (forall a, steps_respect R (k a)) -> steps_respect R (g ≫= k).
Proof.
  intros Hg Hk. induction g as [a|chunk next IH|X m h IH].
  - apply Hk.
  - apply IH, Hg.
  - destruct Hg as [Hm Hh]. split; [exact Hm|]. intros x. apply IH, Hh.
Qed.

Lemma steps_respect_gyield_each (chunks : list string) :
  steps_respect R (gyield_each chunks).
Proof. induction chunks as [|chunk rest IH]; [exact I | exact IH]. Qed.

Lemma steps_respect_gyield_file (p : string) : steps_respect R (gyield_file p).
Proof.
  split; [apply respects_open_rb; apply _|].
  intros data. apply (steps_respect_bind (GRet data)); [exact I|].
  intros ?. apply steps_respect_gyield_each.
Qed.

Lemma closed_after_respects {A} (g : Gen A) (more : nat) (w : world) :
  (forall chunk, respects R (yield chunk)) ->
  steps_respect R g -> R w (snd (closed_after more g w)).
Proof.
  intros Hy. revert more w. induction g as [a|chunk next IH|X m h IH]; intros more w Hg.
  - reflexivity.
  - cbn [closed_after]. etransitivity; [apply (Hy chunk w)|].
    destruct more as [|more]; [reflexivity | by apply IH].
  - destruct Hg as [Hm Hh]. cbn [closed_after]. specialize (Hm w).
    destruct (m w) as [[e|x] w1]; simpl in Hm; [exact Hm|].
    etransitivity; [exact Hm | by apply IH].
Qed.

Context `{Runtime}.

Lemma stream_program_steps (c : StreamClosure) :
  respects R (for_each (cl_screenshot_files c) unlink_if_exists) ->
  steps_respect R (stream_program c).
Proof.
  intros Hraw. unfold stream_program.
  repeat first
    [ apply steps_respect_gyield_file
    | exact I
    | match goal with |- steps_respect _ (grun _) => fail 1 end
    | apply steps_respect_bind; [|intros ?]
    | match goal with |- steps_respect _ (if ?b then _ else _) => destruct b end ].
  - split; [apply respects_dict_item; apply _ | intros ?; exact I].
  - split; [exact Hraw | intros ?; exact I].
Qed.

End StepsRespect.

Lemma stream_cleanup_returns `{Runtime} (c : StreamClosure) (w : world) :
  result_of (stream_cleanup c w) = inr tt.
Proof.
  assert (Hok : never_raises (stream_cleanup c)).
  { apply never_raises_for_each. intros p. unfold guarded_unlink.
    apply never_raises_caught. intros e. apply never_raises_print. }
  destruct (Hok w) as [[] Hr]. exact Hr.
Qed.

(** The run of a closed generator ends in the [finally] block, entered
    from a world that the body has left with the same protected paths. *)
Lemma stream_closed_cleanup `{Runtime} (more : nat) (c : StreamClosure) (w : world) :
  exists w1, stream_closed more c w = stream_cleanup c w1 /\
             undeletable w1 = undeletable w.
Proof.
  assert (Hprot : same_protection w (snd (closed_after more (stream_program c) w))).
  { apply closed_after_respects; [apply _ | intros chunk; apply protection_emit |].
    apply stream_program_steps; [apply _|].
    apply respects_for_each; [apply _|]. intros p. unfold unlink_if_exists.
    protects. apply protection_os_unlink. }
  unfold stream_closed.
  destruct (closed_after more (stream_program c) w) as [[[]|e|] w1]; simpl in Hprot.
  - by exists w1.
  - exists (with_events w1 [Stderr ("Error during streaming: " +:+ exn_str e)]).
    split; [reflexivity | exact Hprot].
  - by exists w1.
Qed.

Lemma no_yield_never_closed {A} (g : Gen A) (more : nat) (w : world) :
  no_yield g -> fst (closed_after more g w) <> GeneratorExit.
Proof.
  revert w. induction g as [a|chunk next IH|X m h IH]; intros w Hg; [done|done|].
  cbn [closed_after]. destruct (m w) as [[e|x] w1]; [done|]. apply IH, Hg.
Qed.

Section ToYields.

Context (R : world -> world -> Prop) `{!PreOrder R}.

Lemma respects_to_yields_bind {A B} (g : Gen A) (k : A -> Gen B) :
  steps_respect R g -> (forall a, respects_to_yields R (k a)) ->
  respects_to_yields R (g ≫= k).
Proof.
  intros Hg Hk. induction g as [a|chunk next IH|X m h IH].
  - apply Hk.
  - apply IH, Hg.
  - destruct Hg as [Hm Hh]. split; [by left|]. intros x. apply IH, Hh.
Qed.

Lemma respects_to_yields_grun {X} (m : M X) : respects_to_yields R (grun m).
Proof. split; [by right | done]. Qed.

Lemma closed_at_yield_respects {A} (g : Gen A) (more : nat) (w : world) :
  (forall chunk, respects R (yield chunk)) ->
  respects_to_yields R g ->
  fst (closed_after more g w) = GeneratorExit ->
  R w (snd (closed_after more g w)).
Proof.
  intros Hy. revert more w.
  induction g as [a|chunk next IH|X m h IH]; intros more w Hg Hexit.
  - discriminate.
  - cbn [closed_after] in *. etransitivity; [apply (Hy chunk w)|].
    destruct more as [|more]; [reflexivity | by apply IH].
  - destruct Hg as [Hm Hh]. cbn [closed_after] in *.
    destruct Hm as [Hm | Hno].
    + specialize (Hm w). destruct (m w) as [[e|x] w1]; simpl in *; [discriminate|].
      etransitivity; [exact Hm | by apply IH].
    + destruct (m w) as [[e|x] w1]; simpl in *; [discriminate|].
      by apply no_yield_never_closed in Hexit.
Qed.

Context `{Runtime}.

Lemma stream_program_to_yields (c : StreamClosure) :
  respects_to_yields R (stream_program c).
Proof.
  unfold stream_program.
  repeat first
    [ apply respects_to_yields_grun
    | apply respects_to_yields_bind; [|intros ?] ];
  repeat first
    [ apply steps_respect_gyield_file; apply _
    | exact I
    | match goal with |- steps_respect _ (if ?b then _ else _) => destruct b end
    | match goal with |- steps_respect _ (grun _) => fail 1 end
    | apply steps_respect_bind; [apply _| |intros ?] ].
  split; [apply respects_dict_item; apply _ | intros ?; exact I].
Qed.

End ToYields.

#[export] Instance only_yields_preorder : PreOrder only_yields.
Proof.
  split.
  - intros w. exists []. destruct w. unfold with_events. simpl. by rewrite app_nil_r.
  - intros w1 w2 w3 [a ->] [b ->]. exists (a ++ b).
    by rewrite with_events_twice, map_app.
Qed.

Lemma only_yields_yield (chunk : string) : respects only_yields (yield chunk).
Proof. intros w. by exists [chunk]. Qed.

Lemma closed_at_yield_count {A} (g : Gen A) (more : nat) (w : world) :
  steps_respect (grows_by not_yielded) g ->
  fst (closed_after more g w) = GeneratorExit ->
  exists evs, trace (snd (closed_after more g w)) = trace w ++ evs /\
              length (yielded_chunks evs) = S more.
Proof.
  revert more w. induction g as [a|chunk next IH|X m h IH]; intros more w Hg Hexit.
  - discriminate.
  - cbn [closed_after] in *. rewrite yield_returns in *. cbn [snd] in *.
    destruct more as [|more].
    + by exists [Yielded chunk].
    + destruct (IH more _ Hg Hexit) as (evs & E & Hlen).
      exists (Yielded chunk :: evs). split.
      * rewrite E. unfold with_events. cbn [trace]. by rewrite <- app_assoc.
      * change (S (length (yielded_chunks evs)) = S (S more)). by rewrite Hlen.
  - destruct Hg as [Hm Hh]. cbn [closed_after] in *.
    destruct (Hm w) as (evs0 & E0 & F0).
    destruct (m w) as [[e|x] w1]; simpl in *; [discriminate|].
    destruct (IH x more w1 (Hh x) Hexit) as (evs & E & Hlen).
    exists (evs0 ++ evs). split; [by rewrite E, E0, <- app_assoc|].
    by rewrite yielded_chunks_app, (yielded_chunks_none evs0).
Qed.

(** The body of a generator closed at a [yield] has handed over the
    chunks that were taken, and nothing else has happened. *)
Lemma closed_body_only_yields `{Runtime} (more : nat) (c : StreamClosure) (w : world) :
  closes_at_yield more c w ->
  exists chunks,
    closed_after more (stream_program c) w
      = (GeneratorExit, with_events w (map Yielded chunks)) /\
    length chunks = S more.
Proof.
  intros Hexit.
  destruct (closed_at_yield_respects only_yields (stream_program c) more w
              only_yields_yield (stream_program_to_yields only_yields c) Hexit)
    as [chunks Hw].
  assert (Hsteps : steps_respect (grows_by not_yielded) (stream_program c)).
  { apply stream_program_steps; [apply _|].
    unfold unlink_if_exists. grows; split_if; grows; exact I. }
  destruct (closed_at_yield_count (stream_program c) more w Hsteps Hexit)
    as (evs & E & Hlen).
  exists chunks. unfold closes_at_yield in Hexit.
  destruct (closed_after more (stream_program c) w) as [x w1]. simpl in *.
  subst x w1. split; [reflexivity|].
  unfold with_events in E. cbn [trace] in E. apply app_inv_head in E. subst evs.
  by rewrite yielded_chunks_map in Hlen.
Qed.

(** What a closed generator has yielded is the beginning of what the
    drained generator yields. *)
Lemma closed_run_is_prefix {A} (g : Gen A) (more : nat) (w : world) :
  steps_respect (grows_by not_yielded) g ->
  exists evs evs',
    trace (snd (closed_after more g w)) = trace w ++ evs /\
    trace (snd (drain g w)) = trace w ++ evs' /\
    yielded_chunks evs = take (S more) (yielded_chunks evs').
Proof.
  revert more w. induction g as [a|chunk next IH|X m h IH]; intros more w Hg.
  - exists [], []. by rewrite app_nil_r.
  - cbn [closed_after drain]. rewrite run_bind, yield_returns. cbn [snd].
    set (w1 := with_events w [Yielded chunk]).
    assert (Hw1 : trace w1 = trace w ++ [Yielded chunk]) by reflexivity.
    destruct more as [|more].
    + destruct (IH 0%nat w1 Hg) as (_ & evs' & _ & E' & _).
      exists [Yielded chunk], (Yielded chunk :: evs'). split; [reflexivity|].
      split; [|reflexivity].
      by rewrite E', Hw1, <- app_assoc.
    + destruct (IH more w1 Hg) as (evs & evs' & E & E' & Hpre).
      exists (Yielded chunk :: evs), (Yielded chunk :: evs').
      rewrite E, E', Hw1, <- !app_assoc. split; [done|]. split; [done|].
      change (chunk :: yielded_chunks evs
              = chunk :: take (S more) (yielded_chunks evs')).
      by rewrite Hpre.
  - destruct Hg as [Hm Hh]. cbn [closed_after drain]. rewrite run_bind.
    destruct (Hm w) as (evs0 & E0 & F0).
    destruct (m w) as [[e|x] w1]; simpl in E0.
    + exists evs0, evs0. split; [done|]. split; [done|].
      by rewrite (yielded_chunks_none evs0).
    + destruct (IH x more w1 (Hh x)) as (evs & evs' & E & E' & Hpre).
      exists (evs0 ++ evs), (evs0 ++ evs').
      rewrite E, E', E0, <- !app_assoc. split; [done|]. split; [done|].
      by rewrite !yielded_chunks_app, (yielded_chunks_none evs0).
Qed.

Section ClosedFacts.

Context `{Runtime}.

Lemma stream_cleanup_quiet (c : StreamClosure) :
  respects (grows_by not_yielded) (stream_cleanup c).
Proof.
  unfold stream_cleanup, guarded_unlink, unlink_if_exists, print_stderr.
  grows; try exact I; split_if; grows; exact I.
Qed.

Lemma stream_program_quiet_steps (c : StreamClosure) :
  steps_respect (grows_by not_yielded) (stream_program c).
Proof.
  apply stream_program_steps; [apply _|].
  unfold unlink_if_exists. grows; split_if; grows; exact I.
Qed.

(** A consumer that closes after the body has returned or raised closes
    a generator that is exhausted: the run is the drained one. *)
Lemma stream_closed_late (more : nat) (c : StreamClosure) (w : world) :
  ~ closes_at_yield more c w -> stream_closed more c w = stream c w.
Proof.
  intros Hlate. unfold closes_at_yield in Hlate.
  pose proof (closed_after_drained (stream_program c) more w) as Hbody.
  rewrite drain_stream_program in Hbody.
  unfold stream_closed, stream, try_finally, try_except.
  destruct (closed_after more (stream_program c) w) as [[[]|e|] w1];
    simpl in Hlate; [| |done]; rewrite Hbody; cbn [any_Exception].
  - by destruct (stream_cleanup c w1) as [[?|[]] ?].
  - rewrite run_bind.
    change (print_stderr ?msg w1) with ((inr tt : exn + unit), with_events w1 [Stderr msg]).
    cbn iota. by destruct (stream_cleanup c _) as [[?|[]] ?].
Qed.

(** X28. A consumer that closes the generator has received the beginning
    of the body and nothing else: the chunks of the closed run are the
    first chunks of the run that is iterated to its end, as many as were
    taken, or all of them when the body ends before. *)
Theorem closed_stream_is_a_prefix (more : nat) (c : StreamClosure) (w : world) :
  exists evs evs',
    trace (world_of (stream_closed more c w)) = trace w ++ evs /\
    trace (world_of (stream c w)) = trace w ++ evs' /\
    yielded_chunks evs = take (S more) (yielded_chunks evs').
Proof.
  destruct (closed_run_is_prefix (stream_program c) more w
              (stream_program_quiet_steps c)) as (evs & evs' & E & E' & Hpre).
  rewrite drain_stream_program in E'.
  assert (Htail : forall w1,
            exists tail, trace (snd (stream_cleanup c w1)) = trace w1 ++ tail /\
                         yielded_chunks tail = []).
  { intros w1. destruct (stream_cleanup_quiet c w1) as (t & Et & Ft).
    exists t. split; [done | by apply yielded_chunks_none]. }
  assert (Hlogged : forall w1 msg,
            exists tail, trace (snd ((print_stderr msg;; stream_cleanup c) w1))
                         = trace w1 ++ tail /\
                         yielded_chunks tail = []).
  { intros w1 msg. rewrite run_bind.
    change (print_stderr msg w1) with ((inr tt : exn + unit), with_events w1 [Stderr msg]).
    cbn iota. destruct (Htail (with_events w1 [Stderr msg])) as (t & Et & Ft).
    exists (Stderr msg :: t). split; [|exact Ft].
    rewrite Et. unfold with_events. cbn [trace]. by rewrite <- app_assoc. }
  assert (Hclosed : exists tail,
            trace (world_of (stream_closed more c w))
            = trace (snd (closed_after more (stream_program c) w)) ++ tail /\
            yielded_chunks tail = []).
  { unfold stream_closed, world_of.
    destruct (closed_after more (stream_program c) w) as [[[]|e|] w1]; cbn [snd].
    - apply Htail.
    - apply Hlogged.
    - apply Htail. }
  assert (Hdrained : exists tail,
            trace (world_of (stream c w))
            = trace (snd (stream_body c w)) ++ tail /\
            yielded_chunks tail = []).
  { unfold stream, world_of, try_finally, try_except.
    destruct (stream_body c w) as [[e|[]] w1]; cbn [snd any_Exception].
    - destruct (Hlogged w1 ("Error during streaming: " +:+ exn_str e))
        as (tail & Et & Ft).
      exists tail. split; [|done]. rewrite <- Et, run_bind.
      change (print_stderr ?msg w1) with ((inr tt : exn + unit), with_events w1 [Stderr msg]).
      cbn iota. by destruct (stream_cleanup c _) as [[?|[]] ?].
    - apply Htail. }
  destruct Hclosed as (t1 & E1 & F1). destruct Hdrained as (t2 & E2 & F2).
  exists (evs ++ t1), (evs' ++ t2).
  rewrite E1, E2, E, E', <- !app_assoc. split; [done|]. split; [done|].
  by rewrite !yielded_chunks_app, F1, F2, !app_nil_r.
Qed.

(** X13. The cleanup is reached on every exit path of a generator that
    has been started: whether the body runs to its end, raises an
    exception on the way, or is closed by the consumer at any of its
    yields, each file of cleanup_files that can be deleted is gone when
    the generator has ended, and no exception leaves it. *)
Theorem cleanup_reaches_every_exit (c : StreamClosure) (w : world) (p : string) :
  p ∈ cl_cleanup_files c -> p ∉ undeletable w ->
  (fs (world_of (stream c w)) !! p = None /\ result_of (stream c w) = inr tt) /\
  (forall more,
     fs (world_of (stream_closed more c w)) !! p = None /\
     result_of (stream_closed more c w) = inr tt).
Proof.
  intros Hin Hfree. split.
  - split; [by apply stream_removes_cleanup_files|].
    destruct (stream_never_raises c w) as [[] Hr]. exact Hr.
  - intros more. destruct (stream_closed_cleanup more c w) as (w1 & -> & Hprot).
    split; [|apply stream_cleanup_returns].
    apply cleanup_loop_removes; [done | by rewrite Hprot].
Qed.

(** X29. A generator closed at a yield has handed over exactly the
    chunks that were taken and then runs the finally block, nothing else:
    no streaming error is logged, and the loop over the raw screenshots,
    which follows the last yield, is not reached.  So any file outside
    cleanup_files, a raw screenshot that is not the stacked image among
    them, is still on disk with its bytes. *)
Theorem closed_stream_keeps_other_files (more : nat) (c : StreamClosure) (w : world)
    (p data : string) :
  closes_at_yield more c w ->
  p ∉ cl_cleanup_files c ->
  fs w !! p = Some data ->
  (exists chunks,
     length chunks = S more /\
     stream_closed more c w = stream_cleanup c (with_events w (map Yielded chunks))) /\
  fs (world_of (stream_closed more c w)) !! p = Some data.
Proof.
  intros Hexit Hout Hp.
  destruct (closed_body_only_yields more c w Hexit) as (chunks & Hbody & Hlen).
  assert (Hrun : stream_closed more c w
                 = stream_cleanup c (with_events w (map Yielded chunks))).
  { unfold stream_closed. by rewrite Hbody. }
  split; [by exists chunks|].
  unfold world_of. rewrite Hrun. unfold stream_cleanup.
  by apply (cleanup_loop_keeps_others (cl_cleanup_files c) p Hout).
Qed.

End ClosedFacts.

(** ** Concrete runs *)

Import Sample.

(** The string methods beyond ASCII: an accented capital is lowered
    ('\xc4B'.lower() is '\xe4b'), the multiplication sign is not, and a
    no-break space is stripped. *)
Example lower_accented_capital :
  PyStr.lower (String "196" "B") = String "228" "b" /\
  PyStr.lower (String "215" EmptyString) = String "215" EmptyString.
Proof. split; reflexivity. Qed.

Example strip_no_break_space :
  PyStr.strip (String "160" "file:///etc/passwd") = "file:///etc/passwd".
Proof. reflexivity. Qed.

Lemma url_is_safe_http_witness :
  result_of (url_is_safe "http://localhost:8080/admin" None idle)
    = inr false /\
  result_of (url_is_safe "http://example.com/" None idle)
    = inr true.
Proof.
  pose proof (url_is_safe_http_fail_closed 
                "http://localhost:8080/admin"
                {| scheme := "http"; netloc := "localhost:8080"; path := "/admin" |}
                idle eq_refl (or_introl eq_refl)) as (_ & Hbad & _).
  pose proof (url_is_safe_http_fail_closed 
                "http://example.com/"
                {| scheme := "http"; netloc := "example.com"; path := "/" |}
                idle eq_refl (or_introl eq_refl)) as (_ & _ & Hgood).
  split.
  - apply (Hbad [stream_addrinfo "127.0.0.1"] (stream_addrinfo "127.0.0.1")).
    + reflexivity.
    + apply list_elem_of_here.
    + left. reflexivity.
  - apply Hgood. exists [stream_addrinfo "93.184.216.34"]. split; [reflexivity|].
    intros a Ha. apply list_elem_of_singleton in Ha. subst a.
    exists (93, 184, 216, 34)%N. repeat split; reflexivity.
Defined.

(** C1. A look-up that fails other than with socket.gaierror gets no
    verdict.  For a host the resolver does not know the validator answers
    False and the handler 400; for the host a..b, on which
    socket.getaddrinfo fails with UnicodeError, the except clause does not
    apply: the validator returns nothing, the exception goes through the
    handler, and the request is not answered 400. *)
Theorem failed_lookup_without_verdict :
  let validate := url_is_safe (H := Fixtures.strict_net) in
  let handle := scrape (H := Fixtures.strict_net) in
  validate "http://nowhere.invalid/" None idle
    = (inr false,
       with_events idle
         [Resolve "nowhere.invalid";
          Stderr "URL blocked: cannot resolve domain nowhere.invalid"]) /\
  result_of (handle (request "http://nowhere.invalid/") idle)
    = inr (JsonError 400 "URL was judged to be unsafe") /\
  getaddrinfo (NetLib := Fixtures.strict_net) "a..b" = inl (UnicodeError "a..b") /\
  validate "http://a..b/" None idle
    = (inl (UnicodeError "a..b"), with_events idle [Resolve "a..b"]) /\
  result_of (validate "http://a..b/" None idle) <> inr false /\
  result_of (handle (request "http://a..b/") idle) = inl (UnicodeError "a..b").
Proof.
  repeat split; try reflexivity. discriminate.
Qed.

Lemma url_is_safe_file_witness :
  url_is_safe "  FILE:///etc/passwd" (Some {[ "https" ]}) idle
    = (inr true, idle).
Proof.
  apply (url_is_safe_file_unconditional 
           "  FILE:///etc/passwd" (Some {[ "https" ]})
           {| scheme := "file"; netloc := EmptyString; path := "/etc/passwd" |}).
  - reflexivity.
  - reflexivity.
Defined.

Lemma stack_images_vertically_witness :
  let w := fresh_world
    (with_files [("/tmp/a.png", "100 50 aa"); ("/tmp/b.png", "200 60 bb");
                        ("/tmp/c.png", "150 70 cc")] ∅) ∅ ["x1"] in
  let r := stack_images_vertically 
             ["/tmp/a.png"; "/tmp/b.png"; "/tmp/c.png"] "png" w in
  result_of r = inr (Some "/tmp/tmpx1.png") /\
  fs w !! "/tmp/tmpx1.png" = None /\
  fs (world_of r) = <["/tmp/tmpx1.png" := "200 180 aabbcc"]> (fs w).
Proof.
  intros w r.
  destruct (stack_images_vertically_spec "png" w)
    as (_ & _ & Hmany & _).
  destruct (Hmany ["/tmp/a.png"; "/tmp/b.png"; "/tmp/c.png"]
              [ {| width := 100; height := 50; pixels := "aa" |};
                {| width := 200; height := 60; pixels := "bb" |};
                {| width := 150; height := 70; pixels := "cc" |} ]
              "/tmp/tmpx1.png"
              (World (<["/tmp/tmpx1.png" := EmptyString]> (fs w)) ∅ []
                     [Created "/tmp/tmpx1.png"])
              "200 180 aabbcc")
    as (Hres & Hnew & Hfs & _).
  - simpl. lia.
  - repeat constructor; eexists; (split; [reflexivity | reflexivity]).
  - reflexivity.
  - reflexivity.
  - auto.
Defined.

Lemma validation_bounds_witness :
  (exists msg, result_of (scrape (post [] "http://example.com/" (-1) 5 [1280; 2000])
                                 idle) = inr (JsonError 400 msg)) /\
  (exists v, result_of (validate_request (post [] "http://example.com/" 5000 10 [100; 4000])
                                         idle) = inr (inr v)).
Proof.
  pose proof (validation_bounds_inclusive 
                 
                [] "http://example.com/" idle) as Hb.
  destruct Hb as (Hwait & _ & _ & Hdim & _).
  - reflexivity.
  - reflexivity.
  - reflexivity.
  - simpl. lia.
  - simpl. lia.
  - simpl. lia.
  - split.
    + apply (Hwait 5 [1280; 2000]).
    + apply (Hdim 5000 10 100 4000); [reflexivity | reflexivity | by left | by right].
Defined.


Lemma boundary_is_the_literal_witness :
  exists body,
    result_of (scrape (request "http://example.net/") idle)
      = inr (Streamed 200 "multipart/mixed; boundary=Boundary712sAM12MVaJff23NXJ" body) /\
    cl_boundary body = "Boundary712sAM12MVaJff23NXJ".
Proof.
  eexists. split; [reflexivity|].
  eapply (boundary_is_the_literal 
             
            (request "http://example.net/") idle).
  reflexivity.
Defined.

Lemma boundary_repeats_across_responses :
  ~ boundaries_differ (request "http://example.com/")
                      (request "http://example.net/")
                      idle idle.
Proof.
  intros Hdiff. eapply Hdiff; reflexivity.
Qed.

Lemma missing_accept_witness :
  negotiate_format (req_headers (request "http://example.com/")) = inr "jpeg" /\
  dispatch_event {| v_url := "http://example.com/"; v_wait := 1000;
                    v_n_screenshots := 5; v_browser_dim := [1280; 2000] |} "jpeg"
    ∈ trace (world_of (scrape (request "http://example.com/") idle)).
Proof.
  destruct (missing_accept_defaults_to_jpeg 
               
              (request "http://example.com/") idle eq_refl)
    as (Hneg & _ & _ & Hgo).
  split; [exact Hneg|]. apply Hgo; reflexivity.
Defined.

(** C2. A stream that fails partway leaves the raw screenshots behind.
    The worker answers with two screenshots and headers without a content
    type; the generator raises KeyError after the JSON part.  No exception
    escapes and the content artifact and the stacked image are removed,
    but both raw screenshot files are still on disk at the end. *)
Theorem failed_stream_leaves_raw_screenshots :
  let run := serve (request "http://example.com/headerless") idle in
  (exists body, result_of run
     = inr (Streamed 200 "multipart/mixed; boundary=Boundary712sAM12MVaJff23NXJ" body) /\
     cl_screenshot_files body = ["/tmp/shot0.jpeg"; "/tmp/shot1.jpeg"] /\
     cl_cleanup_files body = ["/tmp/page.bin"; "/tmp/tmpk3x9.jpeg"]) /\
  Stderr "Error during streaming: 'content-type'" ∈ trace (world_of run) /\
  unlinked_paths (trace (world_of run)) = ["/tmp/page.bin"; "/tmp/tmpk3x9.jpeg"] /\
  fs (world_of run) !! "/tmp/page.bin" = None /\
  fs (world_of run) !! "/tmp/tmpk3x9.jpeg" = None /\
  fs (world_of run) !! "/tmp/shot0.jpeg" = Some "100 50 aaaa" /\
  fs (world_of run) !! "/tmp/shot1.jpeg" = Some "200 60 bbbb".
Proof.
  intros run.
  split; [eexists; split; [reflexivity | split; reflexivity]|].
  split; [vm_compute; repeat first [apply list_elem_of_here | apply list_elem_of_further]|].
  repeat split; vm_compute; reflexivity.
Qed.

(** The same request with a well-formed answer: nothing is left. *)
Example drained_stream_leaves_nothing :
  fs (world_of (serve (request "http://example.com/") idle)) = ∅.
Proof. vm_compute. reflexivity. Qed.

(** One screenshot: the stacked image is the raw screenshot, it stands in
    both lists and is unlinked once. *)
Example single_screenshot_unlinked_once :
  unlinked_paths (trace (world_of (serve (request "http://example.net/") idle)))
  = ["/tmp/shot0.jpeg"; "/tmp/page.html"].
Proof. vm_compute. reflexivity. Qed.

(** C8. A successful scrape whose result has no content-type header is
    cut short.  The worker answers with a content file, two screenshots
    and the headers of a server that names no content type; the handler
    answers 200 with a streamed body, and the generator yields the info
    part and stops at headers['content-type']: no main content part, no
    screenshot part and no closing boundary marker follow.  The same page
    served with a content type has all its parts, the marker last. *)
Theorem headerless_scrape_is_cut_short :
  let answer := scrape (request "http://example.com/headerless") idle in
  let run := serve (request "http://example.com/headerless") idle in
  let whole := serve (request "http://example.com/") idle in
  (exists body,
     result_of answer
       = inr (Streamed 200 "multipart/mixed; boundary=Boundary712sAM12MVaJff23NXJ" body) /\
     cl_content_file body = "/tmp/page.bin" /\
     cl_stacked_screenshot body = Some "/tmp/tmpk3x9.jpeg" /\
     cl_headers body = [("server", "demo")]) /\
  yielded_chunks (trace (world_of run))
    = [Multipart.info_head boundary_literal;
       json_dumps 200 [("server", "demo")] "{}"] /\
  (Multipart.closing boundary_literal ∉ yielded_chunks (trace (world_of run))) /\
  Stderr "Error during streaming: 'content-type'" ∈ trace (world_of run) /\
  yielded_chunks (trace (world_of whole))
    = Multipart.envelope boundary_literal
        (json_dumps 200 [("content-type", "text/html; charset=utf-8");
                         ("server", "demo")] "{}")
        "main.html" "text/html; charset=utf-8" "<html><body>hello</body></html>"
        "jpeg" (Some "200 110 aaaabbbb").
Proof.
  intros answer run whole.
  split; [eexists; split; [reflexivity | repeat split; reflexivity]|].
  split; [vm_compute; reflexivity|].
  split; [vm_compute; intros Hin; repeat (apply elem_of_cons in Hin as [Hin|Hin];
                                          [discriminate|]); by apply elem_of_nil in Hin|].
  split; [vm_compute; repeat first [apply list_elem_of_here | apply list_elem_of_further]|].
  vm_compute. reflexivity.
Qed.

Lemma stream_parts_witness :
  exists evs,
    trace (world_of (stream page_closure page_world)) = trace page_world ++ evs /\
    yielded_chunks evs =
      [ Multipart.info_head boundary_literal;
        json_dumps 200 [("content-type", "text/html")] "{}";
        Multipart.binary_head boundary_literal "main.html" "text/html";
        page_html;
        Multipart.binary_head boundary_literal "screenshot.png" "image/png";
        "100 50 aa";
        Multipart.closing boundary_literal ].
Proof.
  destruct (stream_parts_in_order page_closure page_world "text/html" page_html)
    as (evs & E & Hchunks & _).
  - reflexivity.
  - reflexivity.
  - intros _. exists "100 50 aa". reflexivity.
  - exists evs. split; [exact E | exact Hchunks].
Defined.


(** ** Concrete runs of the further properties *)

Lemma check_authorization_witness :
  result_of (check_authorization (H2 := Fixtures.keyed)
               [("authorization", "Bearer s3cr3t trailing")] idle) = inr None.
Proof.
  destruct (check_authorization_decides (H2 := Fixtures.keyed)
              [("authorization", "Bearer s3cr3t trailing")] idle) as (_ & _ & Hiff).
  apply Hiff. right. exists "s3cr3t trailing". split; [reflexivity|].
  apply list_elem_of_here.
Defined.

Lemma unauthorized_request_witness :
  scrape (H2 := Fixtures.keyed) (request "http://example.com/") idle
  = (inr (JsonError 401 "Authorization header is missing"), idle).
Proof.
  apply (unauthorized_request_stops_at_once (H2 := Fixtures.keyed)
           (request "http://example.com/") idle).
  reflexivity.
Defined.

Lemma url_is_safe_other_scheme_witness :
  result_of (url_is_safe "ftp://example.com/pub" None idle) = inr false /\
  trace (world_of (url_is_safe "ftp://example.com/pub" None idle))
  = [Stderr "URL blocked: scheme 'ftp' is not allowed."].
Proof.
  rewrite (url_is_safe_rejects_other_schemes "ftp://example.com/pub" None
             {| scheme := "ftp"; netloc := "example.com"; path := "/pub" |} idle).
  - split; reflexivity.
  - reflexivity.
  - discriminate.
  - compute_done.
Defined.

Lemma url_is_safe_other_errors_witness :
  url_is_safe (H := Fixtures.strict_net) "http://[::1/" None idle
    = (inl (ValueError "Invalid IPv6 URL"), idle) /\
  url_is_safe (H := Fixtures.strict_net) "http://a..b/" None idle
    = (inl (UnicodeError "a..b"), with_events idle [Resolve "a..b"]).
Proof.
  destruct (url_is_safe_propagates_other_errors (H := Fixtures.strict_net)
              "http://[::1/" None idle) as [Hparse _].
  destruct (url_is_safe_propagates_other_errors (H := Fixtures.strict_net)
              "http://a..b/" None idle) as [_ Hresolve].
  split.
  - apply Hparse. reflexivity.
  - apply (Hresolve {| scheme := "http"; netloc := "a..b"; path := "/" |}).
    + reflexivity.
    + discriminate.
    + compute_done.
    + reflexivity.
    + reflexivity.
Defined.

Lemma scrape_validator_error_witness :
  result_of (scrape (H := Fixtures.strict_net) (request "http://a..b/") idle)
  = inl (UnicodeError "a..b").
Proof.
  rewrite (scrape_propagates_validator_error (H := Fixtures.strict_net)
             (request "http://a..b/") idle (UnicodeError "a..b"));
    reflexivity.
Defined.

Lemma dispatch_requires_safe_verdict_witness :
  url_present (request "http://example.net/") = true /\
  result_of (url_is_safe "http://example.net/" None idle) = inr true.
Proof.
  apply (dispatch_requires_safe_verdict (request "http://example.net/") idle
           (trace (world_of (scrape (request "http://example.net/") idle)))).
  - reflexivity.
  - right. eexists _, _, _. reflexivity.
Defined.

Lemma negotiate_format_witness :
  negotiate_format [("Accept", "text/html")] =
    inl (JsonError 406
           ("Unsupported image format in Accept header (text/html). "
            +:+ "Supported Accept header values are: "
            +:+ "image/webp, image/png, image/jpeg, image/*, */*")).
Proof.
  destruct (negotiate_format_outcomes [("Accept", "text/html")]) as [_ Hno].
  rewrite (Hno "text/html").
  - reflexivity.
  - reflexivity.
  - compute_done.
Defined.

Lemma worker_failure_witness :
  result_of (respond (Fixtures.validated "http://example.com/slow") "png" idle)
  = inr (JsonError 500 "Scraping process failed").
Proof.
  rewrite (worker_failure_is_coarse (Fixtures.validated "http://example.com/slow")
             "png" idle (WorkerError "The operation timed out.") ∅);
    reflexivity.
Defined.

Lemma result_without_content_witness :
  let run := respond (H1 := Fixtures.blank_worker)
               (Fixtures.validated "http://example.com/") "jpeg" idle in
  result_of run = inr (JsonError 500 "This is a generic error message; sorry about that.")
  /\ fs (world_of run) !! "/tmp/shot0.jpeg" = Some "100 50 aaaa".
Proof.
  intros run. unfold run.
  rewrite (result_without_content_is_generic_failure (H1 := Fixtures.blank_worker)
             (Fixtures.validated "http://example.com/") "jpeg" idle
             {| status := 504; headers := []; content_file := None;
                screenshot_files := ["/tmp/shot0.jpeg"]; metadata := "{}" |}
             (<["/tmp/shot0.jpeg" := "100 50 aaaa"]> ∅)).
  - split; reflexivity.
  - reflexivity.
  - reflexivity.
Defined.

Lemma lowercase_keys_witness :
  dict_get "content-type"
    (lowercase_keys [("Content-Type", "text/plain"); ("CONTENT-TYPE", "text/html")])
  = Some "text/html".
Proof.
  destruct (lowercase_keys_lookup [("Content-Type", "text/plain")]) as (_ & _ & Hsnoc & _).
  exact (Hsnoc "CONTENT-TYPE" "text/html" "content-type").
Defined.

Lemma drained_stream_witness :
  fs (world_of (stream page_closure page_world)) !! "/tmp/s.png" = None /\
  fs (world_of (stream page_closure page_world)) !! "/tmp/page.html" = None.
Proof.
  pose proof (drained_stream_leaves_no_artifact page_closure page_world
                "text/html" page_html) as Hgone.
  assert (Hall : forall p, p ∈ cl_screenshot_files page_closure
                                 ++ cl_cleanup_files page_closure ->
                           fs (world_of (stream page_closure page_world)) !! p = None).
  { apply Hgone.
    - reflexivity.
    - reflexivity.
    - intros _. exists "100 50 aa". reflexivity.
    - intros p _. apply not_elem_of_empty. }
  split; apply Hall; compute_done.
Defined.

Lemma cleanup_reaches_every_exit_witness :
  fs (world_of (stream Fixtures.headerless_closure Fixtures.headerless_world))
    !! "/tmp/stack.png" = None /\
  fs (world_of (stream_closed 0 Fixtures.headerless_closure Fixtures.headerless_world))
    !! "/tmp/stack.png" = None.
Proof.
  destruct (cleanup_reaches_every_exit Fixtures.headerless_closure
              Fixtures.headerless_world "/tmp/stack.png") as [[Hdrained _] Hclosed].
  - compute_done.
  - apply not_elem_of_empty.
  - split; [exact Hdrained | apply (Hclosed 0%nat)].
Defined.

Lemma failed_deletion_witness :
  Stderr ("Error cleaning up file /tmp/page.html: "
          +:+ "[Errno 13] Permission denied: '/tmp/page.html'")
    ∈ trace (world_of (stream page_closure Fixtures.locked_world)) /\
  is_Some (fs (world_of (stream page_closure Fixtures.locked_world)) !! "/tmp/page.html").
Proof.
  apply (failed_deletion_is_logged page_closure Fixtures.locked_world "/tmp/page.html").
  - compute_done.
  - compute_done.
  - exists page_html. reflexivity.
Defined.

Lemma truncated_stream_witness :
  exists evs,
    trace (world_of (stream Fixtures.headerless_closure Fixtures.headerless_world))
      = evs /\
    yielded_chunks evs =
      [Multipart.info_head boundary_literal;
       json_dumps 200 [("server", "demo")] "{}"].
Proof.
  destruct (stream_without_content_type_is_truncated Fixtures.headerless_closure
              Fixtures.headerless_world eq_refl) as (_ & evs & E & Hchunks & _).
  exists evs. split; [exact E | exact Hchunks].
Defined.

Lemma truncated_stream_keeps_witness :
  fs (world_of (stream Fixtures.headerless_closure Fixtures.headerless_world))
    !! "/tmp/a.png" = Some "100 50 aa".
Proof.
  apply (truncated_stream_keeps_other_files Fixtures.headerless_closure
           Fixtures.headerless_world "/tmp/a.png" "100 50 aa").
  - reflexivity.
  - compute_done.
  - reflexivity.
Defined.

Lemma stack_keeps_files_witness :
  fs (snd (stack_images_vertically ["/tmp/a.png"; "/tmp/b.png"] "png"
             (fresh_world (fs Fixtures.headerless_world) ∅ ["x1"])))
    !! "/tmp/a.png" = Some "100 50 aa".
Proof.
  apply (stack_images_keeps_existing_files ["/tmp/a.png"; "/tmp/b.png"] "png"
           (fresh_world (fs Fixtures.headerless_world) ∅ ["x1"])).
  reflexivity.
Defined.

Lemma stack_fails_witness :
  exists e, stack_images_vertically ["/tmp/a.png"; "/tmp/page.bin"] "png"
              Fixtures.headerless_world
            = (inl e, Fixtures.headerless_world).
Proof.
  apply (stack_images_fails_before_creating ["/tmp/a.png"; "/tmp/page.bin"] "png"
           Fixtures.headerless_world).
  - simpl. lia.
  - apply Exists_cons_tl, Exists_cons_hd. reflexivity.
Defined.

Lemma stacked_images_fit_witness :
  let img := {| width := 150; height := 70; pixels := "cc" |} in
  110 + height img <= snd (size (stacked_canvas Fixtures.three_images)) /\
  width img <= fst (size (stacked_canvas Fixtures.three_images)).
Proof.
  intros img.
  destruct (stacked_images_fit_the_canvas Fixtures.three_images) with
    (img := img) (x := 0) (y := 110) as (_ & _ & Hbottom & Hwidth).
  - intros i Hi. unfold Fixtures.three_images in Hi.
    repeat (apply elem_of_cons in Hi as [-> | Hi]; [simpl; lia|]).
    by apply elem_of_nil in Hi.
  - vm_compute. do 2 apply list_elem_of_further. apply list_elem_of_here.
  - split; [exact Hbottom | exact Hwidth].
Defined.

Lemma get_ext_witness :
  get_ext_from_content_type "text/html; charset=utf-8" = ".html".
Proof.
  rewrite (get_ext_ignores_parameters "text/html" " charset=utf-8"); reflexivity.
Defined.

Lemma streamed_response_closure_witness :
  result_of (scrape (request "http://example.net/") idle)
    = inr (Streamed 200 "multipart/mixed; boundary=Boundary712sAM12MVaJff23NXJ"
                    Fixtures.one_shot_closure) /\
  cl_stacked_screenshot Fixtures.one_shot_closure = Some "/tmp/shot0.jpeg".
Proof.
  assert (Hr : result_of (scrape (request "http://example.net/") idle)
               = inr (Streamed 200 "multipart/mixed; boundary=Boundary712sAM12MVaJff23NXJ"
                               Fixtures.one_shot_closure))
    by (vm_compute; reflexivity).
  split; [exact Hr |].
  apply (streamed_response_closure (request "http://example.net/") idle 200 _
           Fixtures.one_shot_closure Hr).
  reflexivity.
Defined.

Lemma dispatch_values_witness :
  json_url (request "http://example.com/") = Some "http://example.com/" /\
  negotiate_format (req_headers (request "http://example.com/")) = inr "jpeg".
Proof.
  destruct (dispatch_carries_validated_values (request "http://example.com/") idle
              (trace (world_of (scrape (request "http://example.com/") idle)))
              "http://example.com/" 1000 "jpeg" 5 [1280; 2000])
    as (Hurl & _ & _ & _ & Hfmt).
  - reflexivity.
  - vm_compute. apply list_elem_of_further, list_elem_of_here.
  - split; [exact Hurl | exact Hfmt].
Defined.

Lemma api_keys_witness :
  result_of (check_authorization (H2 := Fixtures.keyed)
               [("Authorization", "Bearer spare")] idle) = inr None /\
  result_of (check_authorization (H2 := Fixtures.keyed) [] idle) <> inr None.
Proof.
  destruct (api_keys_come_from_prefixed_variables (H := Fixtures.keyed)
              [("PATH", "/usr/bin"); ("SCRAPER_API_KEY", "s3cr3t");
               ("SCRAPER_API_KEY_2", "spare")] eq_refl)
    as (_ & _ & Hoff & Hpass).
  split.
  - apply Hpass. right. exists "spare", "SCRAPER_API_KEY_2", "_2".
    split; [reflexivity|]. split; [|reflexivity].
    vm_compute. do 2 apply list_elem_of_further. apply list_elem_of_here.
  - intros Hnone. apply Hpass in Hnone as [Hunset | (rest & ? & ? & Hh & _)].
    + discriminate (Hunset "SCRAPER_API_KEY" "s3cr3t").
      apply list_elem_of_further, list_elem_of_here.
    + discriminate Hh.
Defined.

Lemma closed_stream_keeps_witness :
  fs (world_of (stream_closed 2 page_closure
                  (World (<["/tmp/raw.png" := "100 50 aa"]> (fs page_world)) ∅ [] [])))
    !! "/tmp/raw.png" = Some "100 50 aa".
Proof.
  apply (closed_stream_keeps_other_files 2 page_closure
           (World (<["/tmp/raw.png" := "100 50 aa"]> (fs page_world)) ∅ [] [])
           "/tmp/raw.png" "100 50 aa").
  - reflexivity.
  - compute_done.
  - reflexivity.
Defined.
